(** * SenzingGo: a shallow embedding of [SenzingGo.py]

    The deployment script is modelled function by function.  Python
    strings are [string] (code points below 256), dictionaries whose
    iteration order reaches the output are association lists, the
    container engine, the file system and the console are fields of an
    explicit [World], and [sys.exit] / uncaught exceptions are outcomes
    of a small state monad. *)

From Stdlib Require Import ZArith Ascii String List Bool Lia.
From stdpp Require Import base option list gmap strings sets.
Import ListNotations.
Local Open Scope string_scope.
Set Warnings "-register-all".

(** ** Python string operations *)

Module Str.

Definition eqb (a b : string) : bool := String.eqb a b.

(** [c.lower()] for one code point: A-Z and the Latin-1 capitals. *)
Definition lower_ascii (c : ascii) : ascii :=
  let n := nat_of_ascii c in
  if ((65 <=? n) && (n <=? 90))%nat then ascii_of_nat (n + 32)
  else if ((192 <=? n) && (n <=? 222) && negb (n =? 215))%nat
       then ascii_of_nat (n + 32)
  else c.

(** [s.lower()] *)
Fixpoint lower (s : string) : string :=
  match s with
  | EmptyString => EmptyString
  | String c r => String (lower_ascii c) (lower r)
  end.

(** [s.startswith(p)] *)
Fixpoint startswith (p s : string) : bool :=
  match p, s with
  | EmptyString, _ => true
  | String a p', String b s' => Ascii.eqb a b && startswith p' s'
  | String _ _, EmptyString => false
  end.

(** [needle in hay] *)
Fixpoint contains (needle hay : string) : bool :=
  startswith needle hay ||
  match hay with
  | EmptyString => false
  | String _ r => contains needle r
  end.

(** [s.split(sep, 1)] for a one-character separator: [None] stands
    for the one-element list, [Some (a, b)] for [[a, b]]. *)
Fixpoint split1 (sep : ascii) (s : string) : option (string * string) :=
  match s with
  | EmptyString => None
  | String c r =>
      if Ascii.eqb c sep then Some (EmptyString, r)
      else match split1 sep r with
           | Some (a, b) => Some (String c a, b)
           | None => None
           end
  end.

(** [s.count(c)] for a one-character argument. *)
Fixpoint count (c : ascii) (s : string) : nat :=
  match s with
  | EmptyString => 0
  | String d r => (if Ascii.eqb c d then 1 else 0) + count c r
  end.

(** [s.lstrip(c)] for a one-character argument. *)
Fixpoint lstrip (c : ascii) (s : string) : string :=
  match s with
  | String d r => if Ascii.eqb c d then lstrip c r else s
  | EmptyString => EmptyString
  end.

(** [s.replace(old, new)]: leftmost, non-overlapping occurrences.
    [skip] counts the characters of a match still to be dropped. *)
Fixpoint replace_from (old new : string) (skip : nat) (s : string) : string :=
  match s with
  | EmptyString => EmptyString
  | String c r =>
      match skip with
      | S k => replace_from old new k r
      | O =>
          if startswith old s
          then new ++ replace_from old new (String.length old - 1) r
          else String c (replace_from old new 0 r)
      end
  end.

(** With an empty [old], Python inserts [new] around every character. *)
Fixpoint intersperse_all (new s : string) : string :=
  match s with
  | EmptyString => new
  | String c r => new ++ String c (intersperse_all new r)
  end.

Definition replace (old new s : string) : string :=
  match old with
  | EmptyString => intersperse_all new s
  | String _ _ => replace_from old new 0 s
  end.

(** One-character replacement, [s.replace("/", "-")]. *)
Fixpoint replace_char (a b : ascii) (s : string) : string :=
  match s with
  | EmptyString => EmptyString
  | String c r => String (if Ascii.eqb c a then b else c) (replace_char a b r)
  end.

(** [sep.join(xs)] *)
Fixpoint join (sep : string) (xs : list string) : string :=
  match xs with
  | [] => EmptyString
  | [x] => x
  | x :: r => x ++ sep ++ join sep r
  end.

End Str.

(** ** Python dictionaries with insertion order *)

Module Dict.

Definition t (V : Type) : Type := list (string * V).

(** [d.get(k)] *)
Fixpoint get {V} (k : string) (d : t V) : option V :=
  match d with
  | [] => None
  | (k', v) :: r => if Str.eqb k k' then Some v else get k r
  end.

(** [d[k] = v]: an existing key keeps its position. *)
Fixpoint set {V} (k : string) (v : V) (d : t V) : t V :=
  match d with
  | [] => [(k, v)]
  | (k', v') :: r =>
      if Str.eqb k k' then (k', v) :: r else (k', v') :: set k v r
  end.

(** [del d[k]] on a present key. *)
Fixpoint del {V} (k : string) (d : t V) : t V :=
  match d with
  | [] => []
  | (k', v') :: r => if Str.eqb k k' then r else (k', v') :: del k r
  end.

Definition values {V} (d : t V) : list V := map snd d.
Definition keys {V} (d : t V) : list string := map fst d.

End Dict.

(** The INI file as [convert_ini2json] returns it: section -> key -> value. *)
Definition IniJson : Type := Dict.t (Dict.t string).

(** ** [json.dumps] and [json.loads] on the INI dictionary *)

Module Json.

Definition dquote : ascii := "034"%char.
Definition bslash : ascii := "092"%char.

Definition hex_digit (n : nat) : ascii :=
  if (n <? 10)%nat then ascii_of_nat (48 + n) else ascii_of_nat (87 + n).

(** [json.dumps] with [ensure_ascii]: quote, backslash and everything
    outside space..~ are escaped, the rest is copied. *)
Definition escape_char (c : ascii) : string :=
  let n := nat_of_ascii c in
  if (n =? 34)%nat then String bslash (String dquote "")
  else if (n =? 92)%nat then String bslash (String bslash "")
  else if (n =? 10)%nat then String bslash "n"
  else if (n =? 13)%nat then String bslash "r"
  else if (n =? 9)%nat then String bslash "t"
  else if (n =? 8)%nat then String bslash "b"
  else if (n =? 12)%nat then String bslash "f"
  else if ((n <? 32) || (126 <? n))%nat
       then String bslash
              (String "u" (String "0" (String "0"
                (String (hex_digit (n / 16)) (String (hex_digit (n mod 16)) "")))))
  else String c "".

Fixpoint escape (s : string) : string :=
  match s with
  | EmptyString => EmptyString
  | String c r => escape_char c ++ escape r
  end.

Definition dumps_str (s : string) : string :=
  String dquote (escape s ++ String dquote "").

Definition dumps_section (d : Dict.t string) : string :=
  "{" ++ Str.join ", " (map (fun kv => dumps_str (fst kv) ++ ": " ++ dumps_str (snd kv)) d)
      ++ "}".

(** [json.dumps(ini_json)] with the default separators. *)
Definition dumps (j : IniJson) : string :=
  "{" ++ Str.join ", " (map (fun kv => dumps_str (fst kv) ++ ": " ++ dumps_section (snd kv)) j)
      ++ "}".

(** *** Lexer *)

Inductive token := LBrace | RBrace | Colon | Comma | TStr (s : string).

Inductive lex_state :=
| Out
| InStr (acc : list ascii)
| Esc (acc : list ascii)
| Uni (acc : list ascii) (digits : list nat).

Definition hex_value (c : ascii) : option nat :=
  let n := nat_of_ascii c in
  if ((48 <=? n) && (n <=? 57))%nat then Some (n - 48)
  else if ((97 <=? n) && (n <=? 102))%nat then Some (n - 87)
  else if ((65 <=? n) && (n <=? 70))%nat then Some (n - 55)
  else None.

Definition string_of_rev (acc : list ascii) : string :=
  fold_left (fun s c => String c s) acc EmptyString.

Definition is_ws (c : ascii) : bool :=
  let n := nat_of_ascii c in
  ((n =? 32) || (n =? 9) || (n =? 10) || (n =? 13))%nat.

(** [None] is a [JSONDecodeError]; so is a [\u] escape of a code point
    above 255, which the string type of this model cannot hold. *)
Fixpoint lex (st : lex_state) (s : string) : option (list token) :=
  match s with
  | EmptyString => match st with Out => Some [] | _ => None end
  | String c r =>
      match st with
      | Out =>
          if is_ws c then lex Out r
          else if Ascii.eqb c "{" then cons LBrace <$> lex Out r
          else if Ascii.eqb c "}" then cons RBrace <$> lex Out r
          else if Ascii.eqb c ":" then cons Colon <$> lex Out r
          else if Ascii.eqb c "," then cons Comma <$> lex Out r
          else if Ascii.eqb c dquote then lex (InStr []) r
          else None
      | InStr acc =>
          if Ascii.eqb c dquote then cons (TStr (string_of_rev acc)) <$> lex Out r
          else if Ascii.eqb c bslash then lex (Esc acc) r
          else if (nat_of_ascii c <? 32)%nat then None
          else lex (InStr (c :: acc)) r
      | Esc acc =>
          if Ascii.eqb c dquote then lex (InStr (dquote :: acc)) r
          else if Ascii.eqb c bslash then lex (InStr (bslash :: acc)) r
          else if Ascii.eqb c "/" then lex (InStr ("/"%char :: acc)) r
          else if Ascii.eqb c "b" then lex (InStr ("008"%char :: acc)) r
          else if Ascii.eqb c "f" then lex (InStr ("012"%char :: acc)) r
          else if Ascii.eqb c "n" then lex (InStr ("010"%char :: acc)) r
          else if Ascii.eqb c "r" then lex (InStr ("013"%char :: acc)) r
          else if Ascii.eqb c "t" then lex (InStr ("009"%char :: acc)) r
          else if Ascii.eqb c "u" then lex (Uni acc []) r
          else None
      | Uni acc ds =>
          match hex_value c with
          | None => None
          | Some d =>
              match ds with
              | [d2; d1; d0] =>
                  (* digits are kept most recent first *)
                  let v := ((d0 * 16 + d1) * 16 + d2) * 16 + d in
                  if (v <? 256)%nat then lex (InStr (ascii_of_nat v :: acc)) r
                  else None
              | _ => lex (Uni acc (d :: ds)) r
              end
          end
      end
  end.

(** *** Parser for an object of objects of strings *)

Fixpoint members (ts : list token) : option (Dict.t string * list token) :=
  match ts with
  | TStr k :: Colon :: TStr v :: RBrace :: r => Some ([(k, v)], r)
  | TStr k :: Colon :: TStr v :: Comma :: r =>
      match members r with
      | Some (d, r') => Some ((k, v) :: d, r')
      | None => None
      end
  | _ => None
  end.

Definition section (ts : list token) : option (Dict.t string * list token) :=
  match ts with
  | LBrace :: RBrace :: r => Some ([], r)
  | LBrace :: r => members r
  | _ => None
  end.

Fixpoint sections (fuel : nat) (ts : list token) : option (IniJson * list token) :=
  match fuel with
  | O => None
  | S f =>
      match ts with
      | TStr k :: Colon :: r =>
          match section r with
          | Some (d, RBrace :: r') => Some ([(k, d)], r')
          | Some (d, Comma :: r') =>
              match sections f r' with
              | Some (j, r'') => Some ((k, d) :: j, r'')
              | None => None
              end
          | _ => None
          end
      | _ => None
      end
  end.

(** A Python dict keeps, for a repeated key, the first position and
    the last value. *)
Definition to_dict {V} (kvs : list (string * V)) : Dict.t V :=
  fold_left (fun d kv => Dict.set (fst kv) (snd kv) d) kvs [].

(** [json.loads] on texts that denote an object of objects of
    strings; [None] is a [JSONDecodeError]. *)
Definition loads (s : string) : option IniJson :=
  match lex Out s with
  | Some (LBrace :: RBrace :: []) => Some []
  | Some (LBrace :: ts) =>
      match sections (length ts) ts with
      | Some (j, []) => Some (to_dict (map (fun kd => (fst kd, to_dict (snd kd))) j))
      | _ => None
      end
  | _ => None
  end.

End Json.

Definition sample_ini : IniJson :=
  [("PIPELINE", [("supportpath", "/s/data"); ("configpath", "/s/etc");
                 ("resourcepath", "/s/resources")]);
   ("SQL", [("connection", "sqlite3://na:na@/s/var/sqlite/G2C.db")])].

(** ** The world the script acts on *)

(** An image of the engine's store: [image.id] and [image.tags]
    (= [attrs["RepoTags"]]). *)
Record Image := { image_id : string; RepoTags : list string }.

(** File contents: text, an engine export of one image ([named=True]
    keeps the image's first tag), or a gzip tar with its regular-file
    members, each under its path inside the archive in normal form
    ([x.tar] for [./x.tar], [a/x.tar] for a member of the directory
    [a]); absolute paths and paths through [..] are not represented. *)
Inductive Content :=
| Text (s : string)
| ImageTar (id : string) (name : option string)
| TarGz (entries : list (string * Content)).

(** A container of the engine: [attrs["Name"]] and [status]. *)
Record Container := { Name : string; status : string }.

(** What one [docker_client.containers.get(name)] call reports. *)
Record ContObs := { obs_status : string; obs_health : option string }.

Inductive ServiceKey := restapi | webapp | swagger.

(** One entry of the [docker_containers] dictionary of [main]. *)
Record Service := {
  imagename : string;
  latestsuffix : string;
  containername : string;
  containerport : Z;
  hostport : Z;
  imagepulled : bool;
  imageavailable : option bool;
  tag : option string;
  startedok : option bool
}.

Definition DockerContainers : Type := ServiceKey -> Service.

Definition service_keys : list ServiceKey := [restapi; webapp; swagger].

Definition key_eqb (a b : ServiceKey) : bool :=
  match a, b with
  | restapi, restapi | webapp, webapp | swagger, swagger => true
  | _, _ => false
  end.

Definition dc_update (k : ServiceKey) (f : Service -> Service)
  (dc : DockerContainers) : DockerContainers :=
  fun k' => if key_eqb k k' then f (dc k') else dc k'.

Definition set_tag (t : string) (s : Service) : Service :=
  {| imagename := imagename s; latestsuffix := latestsuffix s;
     containername := containername s; containerport := containerport s;
     hostport := hostport s; imagepulled := imagepulled s;
     imageavailable := imageavailable s; tag := Some t;
     startedok := startedok s |}.

Definition set_startedok (b : bool) (s : Service) : Service :=
  {| imagename := imagename s; latestsuffix := latestsuffix s;
     containername := containername s; containerport := containerport s;
     hostport := hostport s; imagepulled := imagepulled s;
     imageavailable := imageavailable s; tag := tag s;
     startedok := Some b |}.

Definition set_imageavailable (b : bool) (s : Service) : Service :=
  {| imagename := imagename s; latestsuffix := latestsuffix s;
     containername := containername s; containerport := containerport s;
     hostport := hostport s; imagepulled := imagepulled s;
     imageavailable := Some b; tag := tag s;
     startedok := startedok s |}.

Definition set_imagepulled (b : bool) (s : Service) : Service :=
  {| imagename := imagename s; latestsuffix := latestsuffix s;
     containername := containername s; containerport := containerport s;
     hostport := hostport s; imagepulled := b;
     imageavailable := imageavailable s; tag := tag s;
     startedok := startedok s |}.

Definition set_containername (n : string) (s : Service) : Service :=
  {| imagename := imagename s; latestsuffix := latestsuffix s;
     containername := n; containerport := containerport s;
     hostport := hostport s; imagepulled := imagepulled s;
     imageavailable := imageavailable s; tag := tag s;
     startedok := startedok s |}.

(** The dictionary literal of [main]. *)
Definition docker_containers_init (senzing_proj_name : string) : DockerContainers :=
  fun k =>
    match k with
    | restapi =>
        {| imagename := "senzing/senzing-api-server";
           latestsuffix := "SENZING_DOCKER_IMAGE_VERSION_SENZING_API_SERVER";
           containername := "SzGo-API-" ++ senzing_proj_name;
           containerport := 8250%Z; hostport := 8250%Z; imagepulled := false;
           imageavailable := None; tag := None; startedok := None |}
    | webapp =>
        {| imagename := "senzing/entity-search-web-app";
           latestsuffix := "SENZING_DOCKER_IMAGE_VERSION_ENTITY_SEARCH_WEB_APP";
           containername := "SzGo-WEB-" ++ senzing_proj_name;
           containerport := 8081%Z; hostport := 8251%Z; imagepulled := false;
           imageavailable := None; tag := None; startedok := None |}
    | swagger =>
        {| imagename := "swaggerapi/swagger-ui";
           latestsuffix := "SENZING_DOCKER_IMAGE_VERSION_SWAGGERAPI_SWAGGER_UI";
           containername := "SzGo-Swagger-" ++ senzing_proj_name;
           containerport := 8080%Z; hostport := 9180%Z; imagepulled := false;
           imageavailable := None; tag := None; startedok := None |}
    end.

(** Mutable state: console, engine, file system and the
    [docker_containers] dictionary. *)
Record World := {
  console : list string;
  images : list Image;
  containers : gmap string Container;
  networks : list string;
  files : gmap string Content;
  dirs : gset string;
  queries : nat;
  started : list string;
  dc : DockerContainers
}.

(** The body the REST server answered, as [json.loads(api_spec)['data']]
    sees it: a JSON object with a member [data], given by the text
    [json.dump] writes for it, or a body on which [json.loads] or the
    lookup raises ([JSONDecodeError], [KeyError], [TypeError]). *)
Inductive SpecBody :=
| WithData (data : string)
| WithoutData (exn : string).

(** What the script reads from its surroundings and cannot change. *)
Record Env := {
  resolve_parent : string -> string;       (* str(Path(p).resolve().parent) *)
  observe : string -> nat -> ContObs;      (* n-th inspection of a container *)
  container_logs : string -> string;       (* cont.logs().decode() *)
  registry : string -> option Image;       (* what images.pull can fetch *)
  run_error : string -> option string;     (* APIError of containers.run, by name *)
  stop_error : string -> option string;    (* APIError of cont.stop(), by id *)
  remove_error : string -> option string;  (* APIError of cont.remove(), by id *)
  timestamp : string;                      (* get_timestamp() *)
  user_input : option string;              (* input(); None at end of input *)
  access_versions : bool;                  (* internet_access(docker_versions_url) *)
  access_dockerhub : bool;                 (* internet_access(DOCKERHUB_URL) *)
  versions_file : option (list (string * string));
                                           (* parse_versions(url); None is False *)
  api_spec : option SpecBody;              (* get_api_spec(url), None after its retries *)
  euid : Z;                                (* os.geteuid() *)
  sudo_user_known : bool                   (* pwd.getpwnam(os.getenv("SUDO_USER")) succeeds *)
}.

Inductive Outcome (A : Type) :=
| Done (a : A) (w : World)
| Exit (code : Z) (w : World)        (* sys.exit(code) *)
| Crash (exn : string) (w : World).  (* uncaught exception *)
Arguments Done {A} a w.
Arguments Exit {A} code w.
Arguments Crash {A} exn w.

Definition M (A : Type) : Type := World -> Outcome A.

Definition ret {A} (a : A) : M A := fun w => Done a w.

Definition bind {A B} (m : M A) (k : A -> M B) : M B :=
  fun w =>
    match m w with
    | Done a w' => k a w'
    | Exit c w' => Exit c w'
    | Crash e w' => Crash e w'
    end.

Notation "'let*' x ':=' m 'in' k" := (bind m (fun x => k))
  (at level 10, x binder, k at level 200).
Notation "'do' m 'then' k" := (bind m (fun _ => k))
  (at level 10, k at level 200).

Definition sys_exit {A} (code : Z) : M A := fun w => Exit code w.
Definition raise {A} (exn : string) : M A := fun w => Crash exn w.
Definition get_world : M World := fun w => Done w w.
Definition modify (f : World -> World) : M unit := fun w => Done tt (f w).

Definition final_world {A} (o : Outcome A) : World :=
  match o with Done _ w | Exit _ w | Crash _ w => w end.

(** The run came to its normal end. *)
Definition returned {A} (o : Outcome A) : bool :=
  match o with Done _ _ => true | _ => false end.

(** The status [sys.exit] was called with, if it was. *)
Definition exit_code {A} (o : Outcome A) : option Z :=
  match o with Exit c _ => Some c | _ => None end.

Definition with_console (f : list string -> list string) (w : World) : World :=
  {| console := f (console w); images := images w; containers := containers w;
     networks := networks w; files := files w; dirs := dirs w;
     queries := queries w; started := started w; dc := dc w |}.

Definition with_images (f : list Image -> list Image) (w : World) : World :=
  {| console := console w; images := f (images w); containers := containers w;
     networks := networks w; files := files w; dirs := dirs w;
     queries := queries w; started := started w; dc := dc w |}.

Definition with_containers (f : gmap string Container -> gmap string Container)
  (w : World) : World :=
  {| console := console w; images := images w; containers := f (containers w);
     networks := networks w; files := files w; dirs := dirs w;
     queries := queries w; started := started w; dc := dc w |}.

Definition with_networks (f : list string -> list string) (w : World) : World :=
  {| console := console w; images := images w; containers := containers w;
     networks := f (networks w); files := files w; dirs := dirs w;
     queries := queries w; started := started w; dc := dc w |}.

Definition with_files (f : gmap string Content -> gmap string Content)
  (w : World) : World :=
  {| console := console w; images := images w; containers := containers w;
     networks := networks w; files := f (files w); dirs := dirs w;
     queries := queries w; started := started w; dc := dc w |}.

Definition with_dirs (f : gset string -> gset string) (w : World) : World :=
  {| console := console w; images := images w; containers := containers w;
     networks := networks w; files := files w; dirs := f (dirs w);
     queries := queries w; started := started w; dc := dc w |}.

Definition with_queries (f : nat -> nat) (w : World) : World :=
  {| console := console w; images := images w; containers := containers w;
     networks := networks w; files := files w; dirs := dirs w;
     queries := f (queries w); started := started w; dc := dc w |}.

Definition with_started (f : list string -> list string) (w : World) : World :=
  {| console := console w; images := images w; containers := containers w;
     networks := networks w; files := files w; dirs := dirs w;
     queries := queries w; started := f (started w); dc := dc w |}.

Definition with_dc (f : DockerContainers -> DockerContainers) (w : World) : World :=
  {| console := console w; images := images w; containers := containers w;
     networks := networks w; files := files w; dirs := dirs w;
     queries := queries w; started := started w; dc := f (dc w) |}.

(** [print(s)]; colour codes and indentation of the messages are left out. *)
Definition print (s : string) : M unit :=
  modify (with_console (fun c => (c ++ [s])%list)).

Fixpoint forM {A B} (f : A -> M B) (xs : list A) : M (list B) :=
  match xs with
  | [] => ret []
  | x :: r => let* y := f x in let* ys := forM f r in ret (y :: ys)
  end.

(** [d[k]], raising [KeyError] on a missing key. *)
Definition item {V} (k : string) (d : Dict.t V) : M V :=
  match Dict.get k d with
  | Some v => ret v
  | None => raise "KeyError"
  end.

(** [list(set(xs))]: the elements without repetition, in an order the
    program does not control. *)
Definition list_set (xs : list string) : list string :=
  elements (list_to_set xs : gset string).

(** ** [patch_ini_json] *)

(** A volume argument [[host, {"bind": b, "mode": m}]]. *)
Record Mount := { host_dir : string; bind_dir : string; mount_mode : string }.

Definition mount_point : string := "/var/opt/senzing".

Definition type_connection_split (connection_string : string) : M (string * string) :=
  match Str.split1 ":" connection_string with
  | Some dbtype_connection => ret dbtype_connection
  | None =>
      do print ("ERROR: Couldn't parse connection string and find the database type: "
                  ++ connection_string)
      then sys_exit 1
  end.

(** The handler of the missing [@] formats [conn_str], which is not
    bound at that point: Python raises [UnboundLocalError] before
    anything is printed. *)
Definition get_path (env : Env) (connection_string : string) : M string :=
  let* '(_, connection) := type_connection_split connection_string in
  match Str.split1 "@" connection with
  | Some (_, conn_str) => ret (resolve_parent env conn_str)
  | None => raise "UnboundLocalError"
  end.

Definition is_hybrid (sql : Dict.t string) : bool :=
  match Dict.get "backend" sql with
  | Some b => negb (Str.eqb b "") && Str.eqb (Str.lower b) "hybrid"
  | None => false
  end.

(** Lines 821-826: the two fixed keys, the removed key and the base
    connection string; [None] is a [KeyError]. *)
Definition pipeline_fixed (ini_json : IniJson)
  : option (IniJson * Dict.t string * string) :=
  match Dict.get "PIPELINE" ini_json with
  | None => None
  | Some pipeline =>
      let pipeline := Dict.set "supportpath" "/opt/senzing/data" pipeline in
      let pipeline := Dict.set "configpath" "/etc/opt/senzing" pipeline in
      match Dict.get "resourcepath" pipeline with
      | None => None
      | Some _ =>
          let ini_json := Dict.set "PIPELINE" (Dict.del "resourcepath" pipeline) ini_json in
          match Dict.get "SQL" ini_json with
          | None => None
          | Some sql =>
              match Dict.get "connection" sql with
              | None => None
              | Some base_conn_str => Some (ini_json, sql, base_conn_str)
              end
          end
      end
  end.

Definition fix_pipeline (ini_json : IniJson) : M (IniJson * Dict.t string * string) :=
  match pipeline_fixed ini_json with
  | Some r => ret r
  | None => raise "KeyError"
  end.

Definition patch_ini_json (env : Env) (ini_json : IniJson)
  : M (string * IniJson * option Mount) :=
  let* '(ini_json, sql, base_conn_str) := fix_pipeline ini_json in
  let* '(dbtype, connection) := type_connection_split base_conn_str in
  if Str.eqb (Str.lower dbtype) "sqlite3" then
    let* host_path_for_volume :=
      if is_hybrid sql then
        let* hybrid := item "HYBRID" ini_json in
        let cluster_keys := Dict.values hybrid in
        let unique_cluster_keys := list_set cluster_keys in
        let* cluster_conn_strs :=
          forM (fun cluster_key =>
                  let* sec := item cluster_key ini_json in item "db_1" sec)
               unique_cluster_keys in
        let cluster_conn_strs := (cluster_conn_strs ++ [base_conn_str])%list in
        let* path_list := forM (get_path env) cluster_conn_strs in
        let unique_path_list := list_set path_list in
        if (1 <? length unique_path_list)%nat then
          do print "When using a sqlite cluster, all database files must be in the same path:"
          then do forM (fun path => print (String "009" path)) unique_path_list
          then sys_exit 1
        else
          match unique_path_list with
          | p :: _ => ret p
          | [] => raise "IndexError"
          end
      else get_path env base_conn_str in
    let json_str := Json.dumps ini_json in
    match Json.loads (Str.replace host_path_for_volume mount_point json_str) with
    | Some ini_json_patched =>
        ret (dbtype, ini_json_patched,
             Some {| host_dir := host_path_for_volume;
                     bind_dir := mount_point; mount_mode := "rw" |})
    | None => raise "JSONDecodeError"
    end
  else ret (dbtype, ini_json, None).

(** Directory part of an absolute, normalised path free of symbolic
    links: what [Path(p).resolve().parent] is on such a path. *)
Fixpoint dirname_aux (acc cur : list ascii) (s : string) : list ascii :=
  match s with
  | EmptyString => acc
  | String c r =>
      if Ascii.eqb c "/" then dirname_aux (cur ++ acc)%list [c] r
      else dirname_aux acc (c :: cur) r
  end.

Definition lexical_parent (p : string) : string :=
  match Json.string_of_rev (dirname_aux [] [] p) with
  | EmptyString => "/"
  | d => d
  end.

Definition quiet_obs : ContObs := {| obs_status := "running"; obs_health := None |}.

Definition env0 : Env :=
  {| resolve_parent := lexical_parent;
     observe := fun _ _ => quiet_obs;
     container_logs := fun _ => "";
     registry := fun _ => None;
     run_error := fun _ => None;
     stop_error := fun _ => None;
     remove_error := fun _ => None;
     timestamp := "20220720_120000";
     user_input := Some "";
     access_versions := true;
     access_dockerhub := true;
     versions_file := Some [];
     api_spec := Some (WithData "{}");
     euid := 1000;
     sudo_user_known := false |}.

Definition world0 : World :=
  {| console := []; images := []; containers := ∅; networks := [];
     files := ∅; dirs := ∅; queries := 0; started := [];
     dc := docker_containers_init "proj" |}.


(** ** [docker_run] *)

(** One [docker_client.containers.get(name)]: the engine answers with
    its next observation of that container. *)
Definition inspect (env : Env) (cont_name : string) : M ContObs :=
  fun w => Done (observe env cont_name (queries w)) (with_queries S w).

(** [cont_attrs['State']['Health']['Status']] *)
Definition health_status (o : ContObs) : M string :=
  match obs_health o with
  | Some h => ret h
  | None => raise "KeyError"
  end.

(** The [for r in range(loop_cnt)] loop of [status_wait]; [Some check]
    is the early [return check]. *)
Fixpoint status_wait_loop (env : Env) (check cont_name : string) (loop_cnt : nat)
  : M (option string) :=
  match loop_cnt with
  | O => ret None
  | S k =>
      let* cont_status := inspect env cont_name in
      let* cont_attrs := inspect env cont_name in
      if Str.eqb check "running" && Str.eqb (obs_status cont_status) "running"
      then ret (Some check)
      else
        let* is_healthy :=
          if Str.eqb check "healthy"
          then let* h := health_status cont_attrs in ret (Str.eqb h "healthy")
          else ret false in
        if is_healthy then do print "" then ret (Some check)
        else do print "." then status_wait_loop env check cont_name k
  end.

Definition status_wait (env : Env) (msg check cont_name : string) (loop_cnt : nat)
  : M string :=
  do print msg then
  let* early := status_wait_loop env check cont_name loop_cnt in
  match early with
  | Some r => ret r
  | None =>
      do print "" then
      let* cont_status := inspect env cont_name in
      let* cont_attrs := inspect env cont_name in
      if Str.eqb check "running" then ret (obs_status cont_status)
      else health_status cont_attrs
  end.

Definition docker_logs (env : Env) (cont_name : string) : M unit :=
  do print "********** Start Docker Logs **********" then
  do print (container_logs env cont_name) then
  print "********** End Docker Logs **********".

(** The keyword arguments of [docker_run] that the function reads. *)
Record RunArgs := { container : ServiceKey; image : string; name : string }.

(** [docker_client.containers.run] on the keyword arguments, with [detach=True]. *)
Definition containers_run (env : Env) (kwargs : RunArgs) : M unit :=
  match run_error env (name kwargs) with
  | Some ex => do print ("ERROR: " ++ ex) then sys_exit 1
  | None =>
      modify (fun w =>
        with_started (fun l => (l ++ [name kwargs])%list)
          (with_containers
             (insert (name kwargs)
                     {| Name := String "/" (name kwargs); status := "created" |}) w))
  end.

Definition loop_cnt_default : nat := 20.

Definition docker_run (env : Env) (skip_health : bool) (kwargs : RunArgs) : M unit :=
  let container_key := container kwargs in
  do print ("Running " ++ image kwargs ++ "...") then
  do containers_run env kwargs then
  if skip_health then ret tt
  else
    let* started_as :=
      status_wait env "Waiting for container to start..." "running" (name kwargs)
                  loop_cnt_default in
    do (if Str.eqb started_as "exited" then
          let* o := inspect env (name kwargs) in
          do print ("ERROR: Container did not start successfully, status: "
                      ++ obs_status o) then
          let* _ := inspect env (name kwargs) in
          do docker_logs env (name kwargs) then
          sys_exit 1
        else ret tt) then
    let* o := inspect env (name kwargs) in
    do (match obs_health o with
        | Some _ =>
            let* r := status_wait env "Waiting for container to become healthy."
                        "healthy" (name kwargs) loop_cnt_default in
            if negb (Str.eqb r "healthy") then
              do print ("WARNING: Container isn't healthy yet or failed, monitor with the command docker logs "
                          ++ name kwargs) then
              let* _ := inspect env (name kwargs) in
              docker_logs env (name kwargs)
            else ret tt
        | None =>
            do print "This container doesn't report health" then
            print ("Use the command docker logs " ++ name kwargs
                     ++ " to check status if issues arise")
        end) then
    modify (with_dc (dc_update container_key (set_startedok true))).

(** ** [containers_stop_remove] *)

(** [docker_cont_list]: the engine's containers, all of them or those
    whose name matches the [name] filter (a match anywhere in the name). *)
Definition docker_cont_list (name_filter : option string) (w : World)
  : list (string * Container) :=
  List.filter (fun ic => match name_filter with
                         | Some n => Str.contains n (Name (snd ic))
                         | None => true
                         end)
         (map_to_list (containers w)).

Definition cont_name_of (c : Container) : string := Str.lstrip "/" (Name c).

Definition project_container_names (dcs : DockerContainers) : list string :=
  map (fun k => containername (dcs k)) service_keys.

Definition name_in (n : string) (l : list string) : bool :=
  existsb (Str.eqb n) l.

(** [cont.stop()] inside its [try]. *)
Definition cont_stop (env : Env) (cid : string) : M unit :=
  match stop_error env cid with
  | Some ex => print ("ERROR: Failed to stop container " ++ ex)
  | None =>
      modify (with_containers
                (alter (fun c => {| Name := Name c; status := "exited" |}) cid))
  end.

(** [cont.remove(v=True, force=True)] inside its [try]. *)
Definition cont_remove (env : Env) (cid : string) : M unit :=
  match remove_error env cid with
  | Some ex => print ex
  | None => modify (with_containers (delete cid))
  end.

Fixpoint remove_first (n : string) (l : list string) : list string :=
  match l with
  | [] => []
  | x :: r => if Str.eqb n x then r else x :: remove_first n r
  end.

Definition stop_remove_one (env : Env) (names : list string) (do_remove : bool)
  (ic : string * Container) : M unit :=
  let cont_name := cont_name_of (snd ic) in
  if name_in cont_name names then
    do print (String "009" cont_name) then
    do print "Stopping..." then
    do cont_stop env (fst ic) then
    if do_remove then
      do print "Removing..." then cont_remove env (fst ic)
    else print ""
  else ret tt.

Definition containers_stop_remove (env : Env) (senzing_proj_name : string)
  (containers_remove containers_remove_no_prompt : bool) (docker_network : string)
  (startup_remove forced_remove : bool) : M unit :=
  do print "Looking for existing containers to remove..." then
  let* w := get_world in
  let conts := docker_cont_list (Some senzing_proj_name) w in
  let names := project_container_names (dc w) in
  let running_containers := map (fun ic => cont_name_of (snd ic)) conts in
  match running_containers, startup_remove with
  | [], false =>
      do print ("No matching containers for " ++ senzing_proj_name) then
      let all_containers := docker_cont_list None w in
      match all_containers with
      | [] => ret tt
      | _ =>
          do print "Available containers:" then
          do forM (fun ic => print (String "009" (cont_name_of (snd ic)))) all_containers
          then ret tt
      end
  | _, _ =>
      do (if containers_remove then
            do print "WARNING: Are you sure you want to delete the following containers? (Y/n):" then
            do print (Str.join (String "010" (String "009" "")) running_containers) then
            match user_input env with
            | None => raise "EOFError"
            | Some answer =>
                if name_in answer [""; "y"; "Y"; "yes"; "YES"] then ret tt
                else sys_exit 0
            end
          else ret tt) then
      do forM (stop_remove_one env names
                 (containers_remove || containers_remove_no_prompt
                  || startup_remove || forced_remove)) conts then
      if containers_remove || containers_remove_no_prompt then
        let* w' := get_world in
        match List.filter (Str.contains docker_network) (networks w') with
        | n :: _ =>
            do print ("Removing Docker network " ++ n) then
            modify (with_networks (remove_first n))
        | [] => ret tt
        end
      else ret tt
  end.

(** ** Images of the engine *)

(** [docker_client.images.list(name=n)]: the images one of whose tags is
    [n] itself or lies in repository [n]. *)
Definition tag_matches (n t : string) : bool :=
  Str.eqb t n || Str.startswith (n ++ ":") t.

Definition images_list_name (n : string) (w : World) : list Image :=
  List.filter (fun i => existsb (tag_matches n) (RepoTags i)) (images w).

(** [docker_client.images.get(ref)], [None] being [ImageNotFound]. *)
Definition images_get (ref : string) (w : World) : option Image :=
  find (fun i => existsb (fun t => Str.eqb t ref || Str.eqb t (ref ++ ":latest")) (RepoTags i))
       (images w).

Definition untag (tags : list string) (i : Image) : Image :=
  {| image_id := image_id i;
     RepoTags := List.filter (fun t => negb (name_in t tags)) (RepoTags i) |}.

(** The store after an image arrives (pull or load): its tags move to
    it, an image already present under the same id gains them. *)
Definition store_add (img : Image) (store : list Image) : list Image :=
  let store := map (untag (RepoTags img)) store in
  if existsb (fun i => Str.eqb (image_id i) (image_id img)) store
  then map (fun i => if Str.eqb (image_id i) (image_id img)
                     then {| image_id := image_id i;
                             RepoTags := (RepoTags i ++ RepoTags img)%list |}
                     else i) store
  else (store ++ [img])%list.

Definition docker_image_exists (image_name : string) (w : World) : bool :=
  match images_list_name image_name w with [] => false | _ => true end.

Inductive PullResult := PULLED | PullFalse | PullTrue.

Definition pull_truthy (r : PullResult) : bool :=
  match r with PullFalse => false | _ => true end.

Definition pull_image (env : Env) (image_to_pull : string) (is_forced : bool)
  : M PullResult :=
  do print ("Pulling " ++ (if is_forced then "(forced) " else "") ++ image_to_pull ++ "...")
  then
  match registry env image_to_pull with
  | Some img => do modify (with_images (store_add img)) then ret PULLED
  | None =>
      do print "ImageNotFound" then
      do print "INFO: If above error is image cannot be found check free storage, lack of storage can throw such an error."
      then ret PullFalse
  end.

Definition docker_pull (env : Env) (img : string) (force_pull : bool) : M PullResult :=
  if force_pull then pull_image env img true
  else
    let* w := get_world in
    if negb (docker_image_exists img w) then pull_image env img false
    else do print (img ++ " Exists, not pulling") then ret PullTrue.

Definition pull_default_image (env : Env) (no_web_app no_swagger force_pull : bool)
  (key : ServiceKey) : M unit :=
  let* w := get_world in
  let image_list := dc w key in
  if no_web_app && Str.eqb (imagename image_list) "senzing/entity-search-web-app"
  then ret tt
  else if no_swagger && Str.eqb (imagename image_list) "swaggerapi/swagger-ui"
  then ret tt
  else
    match tag image_list with
    | None => raise "TypeError"
    | Some t =>
        let image_with_version := imagename image_list ++ ":" ++ t in
        let* did_pull := docker_pull env image_with_version force_pull in
        do (if negb (pull_truthy did_pull) && key_eqb key restapi then
              do print "ERROR: Couldn't pull REST API Server image, can't continue without it!"
              then sys_exit 0
            else match did_pull with
                 | PULLED => modify (with_dc (dc_update key (set_imagepulled true)))
                 | _ => ret tt
                 end) then
        modify (with_dc (dc_update key (set_imageavailable true)))
    end.

Definition pull_default_images (env : Env) (no_web_app no_swagger force_pull : bool)
  : M unit :=
  do print "Checking and pulling Docker images, this may take many minutes..." then
  do forM (pull_default_image env no_web_app no_swagger force_pull) service_keys
  then ret tt.

(** ** Tag selection in [main] *)

(** The command line arguments that the modelled part of [main] reads. *)
Record Args := {
  apiTag : option string;
  webAppTag : option string;
  swaggerTag : option string;
  noWebApp : bool;
  noSwagger : bool;
  forcePull : bool;
  skipHealth : bool;
  contStop : bool;
  contRemove : bool;
  contRemoveNoPrompt : bool;
  dockNet : string;
  db2CliPath : option string;
  projectSuffix : string
}.

Definition tag_arg (a : Args) (k : ServiceKey) : option string :=
  match k with restapi => apiTag a | webapp => webAppTag a | swagger => swaggerTag a end.

(** Truth value of an optional string argument. *)
Definition truthy (o : option string) : bool :=
  match o with Some s => negb (Str.eqb s "") | None => false end.

(** [versions = parse_versions(url) if access_versions else {}] *)
Definition fetch_versions (env : Env) : option (list (string * string)) :=
  if access_versions env then versions_file env else Some [].

(** [versions[suffix] if versions else 'latest'] *)
Definition pinned_tag (versions : option (list (string * string))) (suffix : string)
  : M string :=
  match versions with
  | Some (kv :: r) => item suffix (kv :: r)
  | _ => ret "latest"
  end.

(** [xs.sort(reverse=True)] on strings, by insertion. *)
Definition str_leb (a b : string) : bool :=
  match String.compare a b with Gt => false | _ => true end.

Fixpoint insert_desc (x : string) (l : list string) : list string :=
  match l with
  | [] => [x]
  | y :: r => if str_leb x y && negb (Str.eqb x y) then y :: insert_desc x r
              else x :: l
  end.

Definition sort_desc (l : list string) : list string :=
  fold_right insert_desc [] l.

(** [a, b = s.split(':')]: exactly one colon, else [ValueError]. *)
Definition split_pair (s : string) : M (string * string) :=
  match Str.split1 ":" s with
  | Some (a, b) => if (Str.count ":" b =? 0)%nat then ret (a, b) else raise "ValueError"
  | None => raise "ValueError"
  end.

(** [image.attrs["RepoTags"][0]] *)
Definition first_tag (i : Image) : M string :=
  match RepoTags i with
  | t :: _ => ret t
  | [] => raise "IndexError"
  end.

(** The body of [for image in images] in the offline branch. *)
Fixpoint images_to_sort (many : bool) (imgs : list Image) : M (list string) :=
  match imgs with
  | [] => ret []
  | i :: r =>
      let* t := first_tag i in
      let* rest := images_to_sort many r in
      if many && Str.contains "latest" t then ret rest else ret (t :: rest)
  end.

(** Newest local tag of one service, the body of [for k in
    docker_containers.keys()]. *)
Definition newest_local_tag (k : ServiceKey) : M unit :=
  let* w := get_world in
  match imageavailable (dc w k) with
  | Some true =>
      let imgs := images_list_name (imagename (dc w k)) w in
      let* to_sort := images_to_sort (1 <? length imgs)%nat imgs in
      match sort_desc to_sort with
      | [] => raise "IndexError"
      | newest :: _ =>
          let* '(_, t) := split_pair newest in
          modify (with_dc (dc_update k (set_tag t)))
      end
  | _ => ret tt
  end.

(** [avail_images]: the repository part of every tag of every image. *)
Definition avail_images (w : World) : list string :=
  flat_map (fun i => map (fun t => match Str.split1 ":" t with
                                   | Some (a, _) => a
                                   | None => t
                                   end) (RepoTags i)) (images w).

Definition set_override (a : Args) (k : ServiceKey) : M unit :=
  if truthy (tag_arg a k) then
    match tag_arg a k with
    | Some t => modify (with_dc (dc_update k (set_tag t)))
    | None => ret tt
    end
  else ret tt.

Definition package_msg : M unit :=
  print "INFO: This tool can be used on another system with internet access and Docker to package up the required Docker images.".

(** Lines 1346-1417 of [main]: the tag of every service. *)
Definition resolve_tags (env : Env) (a : Args) : M unit :=
  let versions := fetch_versions env in
  do forM (fun k =>
             let* w := get_world in
             let* t := pinned_tag versions (latestsuffix (dc w k)) in
             modify (with_dc (dc_update k (set_tag t)))) service_keys then
  do forM (set_override a) service_keys then
  do forM (fun k =>
             modify (fun w =>
               with_dc (dc_update k
                 (set_imageavailable (name_in (imagename (dc w k)) (avail_images w)))) w))
          service_keys then
  if access_dockerhub env then
    pull_default_images env (noWebApp a) (noSwagger a) (forcePull a)
  else
    do print "WARNING: Cannot reach Senzing resources on the net, checking for available images..."
    then
    let* w := get_world in
    match imageavailable (dc w restapi) with
    | Some true =>
        do print "INFO: Cannot access Docker Hub but a REST API server image is available to use (minimum requirement)..."
        then do forM newest_local_tag service_keys then ret tt
    | _ =>
        do print "ERROR: Can't continue, can't access Docker Hub and no existing image for the REST API server is available"
        then do package_msg then sys_exit 1
    end.

(** ** File system *)

(** [Path(p).name]: what follows the last slash. *)
Fixpoint basename_aux (cur : list ascii) (s : string) : list ascii :=
  match s with
  | EmptyString => cur
  | String c r => if Ascii.eqb c "/" then basename_aux [] r else basename_aux (c :: cur) r
  end.

Definition basename (p : string) : string := Json.string_of_rev (basename_aux [] p).

Definition path_join (d f : string) : string := d ++ "/" ++ f.

(** The proper ancestors of a path: [/a] and [/a/b] for [/a/b/c]. *)
Fixpoint ancestors_aux (cur : list ascii) (s : string) : list string :=
  match s with
  | EmptyString => []
  | String c r =>
      if Ascii.eqb c "/" then
        match cur with
        | [] => ancestors_aux [c] r
        | _ => Json.string_of_rev cur :: ancestors_aux (c :: cur) r
        end
      else ancestors_aux (c :: cur) r
  end.

Definition ancestors (p : string) : list string := ancestors_aux [] p.

(** One of the proper ancestors of [p] is a regular file. *)
Definition file_on_path (p : string) (w : World) : bool :=
  existsb (fun q => match files w !! q with Some _ => true | None => false end)
          (ancestors p).

(** The errors [open] raises in this program. *)
Inductive OSError := FileNotFoundError | NotADirectoryError | IsADirectoryError.

Definition oserror_name (e : OSError) : string :=
  match e with
  | FileNotFoundError => "FileNotFoundError"
  | NotADirectoryError => "NotADirectoryError"
  | IsADirectoryError => "IsADirectoryError"
  end.

(** What [open(d/f, 'wb')] raises, if anything: the target is a
    directory, an ancestor is a regular file, or [d] is not there. *)
Definition write_error (d f : string) (w : World) : option OSError :=
  if decide (d ∈ dirs w) then
    if decide (path_join d f ∈ dirs w) then Some IsADirectoryError else None
  else if file_on_path (path_join d f) w then Some NotADirectoryError
  else Some FileNotFoundError.

(** [open(d/f, 'wb')] followed by the writes. *)
Definition write_file (d f : string) (c : Content) (w : World) : OSError + World :=
  match write_error d f w with
  | Some e => inl e
  | None => inr (with_files (insert (path_join d f) c) w)
  end.

(** What opening [p] for reading raises when [p] is no regular file. *)
Definition read_error (p : string) (w : World) : OSError :=
  if decide (p ∈ dirs w) then IsADirectoryError
  else if file_on_path p w then NotADirectoryError
  else FileNotFoundError.

(** [os.remove(p)]: deletes a file; a directory or a missing path is an
    [OSError] (reported as [None]). *)
Definition os_remove (p : string) (w : World) : option World :=
  if decide (p ∈ dirs w) then None
  else match files w !! p with
       | Some _ => Some (with_files (delete p) w)
       | None => None
       end.

(** [tar.extractall(path=d)]: every member becomes the file [d/path],
    [path] being its path in normal form; [d] is created with the
    first member. *)
Definition extractall (d : string) (entries : list (string * Content)) (w : World)
  : World :=
  match entries with
  | [] => w
  | _ =>
      with_dirs (union {[ d ]})
        (with_files (fun fs => fold_left (fun m e => insert (path_join d (fst e)) (snd e) m)
                                         entries fs) w)
  end.

(** Strip the prefix [d/] from [p]. *)
Fixpoint strip_prefix (p s : string) : option string :=
  match p, s with
  | EmptyString, _ => Some s
  | String a p', String b s' => if Ascii.eqb a b then strip_prefix p' s' else None
  | String _ _, EmptyString => None
  end.

(** [os.scandir(d)]: the entries directly under [d]; a file lying
    deeper stands for the sub-directory it is in, marked [None].  A
    missing directory is reported as [None]. *)
Definition scandir (d : string) (w : World) : option (list (string * option Content)) :=
  if decide (d ∈ dirs w) then
    Some (omap (fun pc =>
                  match strip_prefix (d ++ "/") (fst pc) with
                  | Some rest =>
                      if (Str.count "/" rest =? 0)%nat then Some (rest, Some (snd pc))
                      else Some (rest, None)
                  | None => None
                  end) (map_to_list (files w)))
  else None.

(** ** [save_images] and [load_images] *)

(** [image_to_save.save(named=True)]: the export names the image by
    its first tag. *)
Definition image_save (i : Image) : Content :=
  ImageTar (image_id i) (head (RepoTags i)).

(** [docker_client.images.load(f)] *)
Definition images_load (c : Content) : M unit :=
  match c with
  | ImageTar id n =>
      modify (with_images
                (store_add {| image_id := id;
                              RepoTags := match n with Some t => [t] | None => [] end |}))
  | _ => raise "ImageLoadError"
  end.

(** The intermediate file name of an image. *)
Definition package_name (img : string) : string :=
  "SzGoPackage-" ++ Str.replace_char ":" "-" (Str.replace_char "/" "-" img) ++ ".tar".

(** The first loop of the packaging: one tar file per image. *)
Definition save_one (package_path img : string) : M string :=
  let package_file := path_join package_path (package_name img) in
  let* w := get_world in
  match write_file package_path (package_name img) (Text "") w with
  | inl FileNotFoundError => do print "ERROR: FileNotFoundError" then sys_exit 1
  | inl e => raise (oserror_name e)
  | inr w1 =>
      do modify (fun _ => w1) then
      match images_get img w1 with
      | None => raise "ImageNotFound"
      | Some image_to_save =>
          do print ("Saving " ++ img ++ " to " ++ package_file ++ "...") then
          do modify (with_files (insert package_file (image_save image_to_save))) then
          ret package_file
      end
  end.

(** The [with tarfile.open(...)] block: [entries] holds what has been
    added so far; the archive is closed on every way out. *)
Fixpoint tar_add_all (compressed_package : string) (entries : list (string * Content))
  (packaged_files : list string) : M unit :=
  match packaged_files with
  | [] => modify (with_files (insert compressed_package (TarGz entries)))
  | name :: r =>
      let* w := get_world in
      match files w !! name with
      | Some c =>
          match os_remove name w with
          | Some w' =>
              do modify (fun _ => w') then
              tar_add_all compressed_package (entries ++ [(basename name, c)])%list r
          | None =>
              do modify (with_files (insert compressed_package (TarGz entries))) then
              raise "IsADirectoryError"
          end
      | None =>
          do modify (with_files (insert compressed_package (TarGz entries))) then
          do print "ERROR: FileNotFoundError" then
          sys_exit 1
      end
  end.

Definition sort_asc (l : list string) : list string := rev (sort_desc l).

(** [images_newest_dict] of the default packaging. *)
Fixpoint newest_dict (imgs : list string) (d : Dict.t string) : M (Dict.t string) :=
  match imgs with
  | [] => ret d
  | img :: r =>
      if (1 <? Str.count ":" img)%nat then newest_dict r d
      else let* '(n, version) := split_pair img in newest_dict r (Dict.set n version d)
  end.

Definition repo_of (ref : string) : string :=
  match Str.split1 ":" ref with Some (a, _) => a | None => ref end.

Definition save_images (env : Env) (save_list : list string) (package_path : string)
  (no_web_app no_swagger force_pull : bool) : M string :=
  let access := access_dockerhub env in
  do (if access then ret tt
      else print "WARNING: Cannot reach internet to pull images, can only package existing ones if available locally")
  then
  let* avail_images_with_tag :=
    match save_list with
    | _ :: _ =>
        forM (fun img =>
                do (if access then let* _ := docker_pull env img force_pull in ret tt
                    else ret tt) then
                let* w := get_world in
                match images_get img w with
                | None =>
                    do print ("ERROR: Image " ++ img ++ " isn't available to save, can't complete request.")
                    then sys_exit 1
                | Some _ => ret img
                end) save_list
    | [] =>
        do (if access then pull_default_images env no_web_app no_swagger force_pull
            else ret tt) then
        let* w := get_world in
        let* firsts := forM first_tag (images w) in
        let* newest := newest_dict (sort_asc firsts) [] in
        let avail_to_package := map (fun kv => fst kv ++ ":" ++ snd kv) newest in
        ret (List.filter
               (fun cand => name_in (repo_of cand)
                              [imagename (dc w restapi); imagename (dc w webapp);
                               imagename (dc w swagger)])
               avail_to_package)
    end in
  match avail_images_with_tag with
  | [] =>
      do print "ERROR: There are no locally available images to save" then sys_exit 1
  | _ =>
      let* packaged_files := forM (save_one package_path) avail_images_with_tag in
      let compressed_package :=
        path_join package_path ("SzGoImages_" ++ timestamp env ++ ".tgz") in
      do print ("Compressing saved images to " ++ compressed_package
                  ++ ", this will take several minutes...") then
      let* w := get_world in
      match write_error package_path ("SzGoImages_" ++ timestamp env ++ ".tgz") w with
      | None =>
          do tar_add_all compressed_package [] packaged_files then
          do print ("Move " ++ compressed_package
                      ++ " to the system to load the images to and run this tool with --loadImages (-li)")
          then ret compressed_package
      | Some FileNotFoundError => do print "ERROR: FileNotFoundError" then sys_exit 1
      | Some e => raise (oserror_name e)
      end
  end.

Definition load_one (e : string * option Content) : M unit :=
  do print ("Loading image file " ++ fst e) then
  match snd e with
  | Some c => images_load c
  | None => raise "IsADirectoryError"
  end.

Definition extract_path_of (env : Env) (var_path : string) : string :=
  path_join var_path ("SzGo_Extract_" ++ timestamp env).

Definition load_images (env : Env) (var_path load_file_path : string) : M unit :=
  let extract_path := extract_path_of env var_path in
  do print ("Extracting Senzing Docker images from " ++ load_file_path ++ "...") then
  let* w := get_world in
  match files w !! load_file_path with
  | None =>
      match read_error load_file_path w with
      | FileNotFoundError => do print "ERROR: FileNotFoundError" then sys_exit 1
      | e => raise (oserror_name e)
      end
  | Some (TarGz entries) =>
      do modify (extractall extract_path entries) then
      let* w1 := get_world in
      match scandir extract_path w1 with
      | None => raise "FileNotFoundError"
      | Some found =>
          do forM load_one found then
          (* with suppress(Exception): os.remove(extract_path) *)
          modify (fun w2 => match os_remove extract_path w2 with
                            | Some w3 => w3
                            | None => w2
                            end)
      end
  | Some _ => raise "ReadError"
  end.

(** ** Database checks *)

Definition LIB_MY_SQL : string := "libmysqlclient.so.21".
Definition SZGO_REST_JSON : string := "SzGo-rest-api.json".

Definition is_file (p : string) (w : World) : bool :=
  match files w !! p with Some _ => true | None => false end.

Definition is_dir (p : string) (w : World) : bool :=
  if decide (p ∈ dirs w) then true else false.

Definition mysql_check (senzing_root db_type : string) : M unit :=
  let* w := get_world in
  if is_file (senzing_root ++ "/lib/" ++ LIB_MY_SQL) w then
    print ("INFO: Database type is " ++ db_type ++ " and " ++ LIB_MY_SQL
             ++ " is available in " ++ senzing_root ++ "/lib")
  else
    do print ("WARNING: To use MySQL with this tool " ++ LIB_MY_SQL
                ++ " is required to be in " ++ senzing_root ++ "/lib/")
    then sys_exit 1.

(** [s.split('\n')] *)
Fixpoint lines_aux (cur : list ascii) (s : string) : list string :=
  match s with
  | EmptyString => [Json.string_of_rev cur]
  | String c r =>
      if Ascii.eqb c "010" then Json.string_of_rev cur :: lines_aux [] r
      else lines_aux (c :: cur) r
  end.

Definition lines (s : string) : list string := lines_aux [] s.

(** [s.lstrip()] *)
Fixpoint lstrip_ws (s : string) : string :=
  match s with
  | String c r => if Json.is_ws c || Ascii.eqb c "011" || Ascii.eqb c "012"
                  then lstrip_ws r else s
  | EmptyString => EmptyString
  end.

Definition db2_line_uses_localhost (line : string) : bool :=
  let line_check := Str.lower (lstrip_ws line) in
  (Str.startswith "<dsn alias=" line_check || Str.startswith "<database name=" line_check)
  && (Str.contains "localhost" line_check || Str.contains "127.0.0.1" line_check).

Definition db2_check (a : Args) : M unit :=
  match db2CliPath a with
  | None =>
      do print "WARNING: When the database type is Db2 use the --db2CliPath (-db2c) argument"
      then sys_exit 1
  | Some db2_cli_path =>
      let* w := get_world in
      let db2_cli_cfg_file := db2_cli_path ++ "/cfg/db2dsdriver.cfg" in
      if negb (is_dir (db2_cli_path ++ "/lib") w) then
        do print ("ERROR: " ++ db2_cli_path
                    ++ " doesn't appear to contain the expected directories such as /cfg and /lib")
        then sys_exit 1
      else
        match files w !! db2_cli_cfg_file with
        | None =>
            do print ("ERROR: " ++ db2_cli_cfg_file
                        ++ " doesn't appear to exist and is required.")
            then sys_exit 1
        | Some (Text cfg) =>
            match List.filter db2_line_uses_localhost (lines cfg) with
            | line :: _ =>
                do print ("ERROR: Host in the db2dsdriver.cfg file cannot use localhost or 127.0.0.1, use a true hostname or ip address "
                            ++ lstrip_ws line)
                then sys_exit 1
            | [] => ret tt
            end
        | Some _ => raise "UnicodeDecodeError"
        end
  end.

(** ** Deployment, lines 1419-1569 of [main]

    The translated configuration and the API specification are written
    to their files without a check of the target directory; [os.chmod] on
    the file just written and the user lookup for the [user] argument of
    the API container are taken to succeed; [get_api_spec] is what the
    environment answers after its retries, read through
    [json.loads(api_spec)['data']]. *)

Definition image_ref (k : ServiceKey) : M string :=
  let* w := get_world in
  match tag (dc w k) with
  | Some t => ret (imagename (dc w k) ++ ":" ++ t)
  | None => raise "TypeError"
  end.

Definition run_service (env : Env) (a : Args) (k : ServiceKey) : M unit :=
  let* img := image_ref k in
  let* w := get_world in
  docker_run env (skipHealth a)
    {| container := k; image := img; name := containername (dc w k) |}.

Definition run_optional (env : Env) (a : Args) (k : ServiceKey) (suppressed : bool)
  (missing_msg : string) : M bool :=
  let* w := get_world in
  if negb suppressed && match imageavailable (dc w k) with Some true => true | _ => false end
  then do run_service env a k then ret false
  else if negb suppressed then do print missing_msg then ret true
  else ret false.

Definition deploy (env : Env) (a : Args) (senzing_root ini_file_name : string)
  (ini_json : IniJson) : M unit :=
  let* '(db_type, ini_json_patched, sqlite_mount) := patch_ini_json env ini_json in
  do (if Str.eqb (Str.lower db_type) "mysql"
      then mysql_check senzing_root db_type else ret tt) then
  do (if Str.eqb (Str.lower db_type) "db2" then db2_check a else ret tt) then
  do (if Str.eqb db_type "mssql" then
        do print "ERROR: MSSQL databases are not supported currently" then sys_exit 1
      else ret tt) then
  let ini_json_file := ini_file_name ++ "_SzGo.json" in
  do modify (with_files (insert ini_json_file (Text (Json.dumps ini_json_patched)))) then
  do (if (euid env =? 0)%Z && negb (sudo_user_known env) then
        do print ("ERROR: Cannot change ownership on " ++ ini_json_file) then sys_exit 1
      else ret tt) then
  do run_service env a restapi then
  do print "Fetching API specification from REST server" then
  let* spec :=
    match api_spec env with
    | Some s => ret s
    | None =>
        do print "ERROR: Unable to connect to or fetch API specification from REST server, cannot continue!"
        then sys_exit 1
    end in
  do (match spec with
      | WithData data =>
          modify (with_files (insert (senzing_root ++ "/var/" ++ SZGO_REST_JSON)
                                (Text data)))
      | WithoutData exn =>
          (* the file is open, and empty, when [json.loads] or the lookup raises *)
          do modify (with_files (insert (senzing_root ++ "/var/" ++ SZGO_REST_JSON)
                                   (Text "")))
          then raise exn
      end) then
  let* m1 := run_optional env a webapp (noWebApp a)
               "WARNING: Can't access web resources and no existing Web App Docker image exists, can't start Web App container."
  in
  let* m2 := run_optional env a swagger (noSwagger a)
               "WARNING: Can't access web resources and no existing Swagger Docker image exists, can't start Swagger container."
  in
  do (if m1 || m2 then package_msg else ret tt) then
  print "Resources".

(** [docker_net] *)
Definition docker_net (network_name : string) : M unit :=
  let* w := get_world in
  match List.filter (Str.contains network_name) (networks w) with
  | [] =>
      do print ("Docker network " ++ network_name ++ " doesn't exist, creating...") then
      modify (with_networks (fun l => (l ++ [network_name])%list))
  | _ => ret tt
  end.

(** [main] in deployment or clean-up mode, from the creation of the
    network on: the modes [--info], [--logs], [--saveImages],
    [--loadImages] and [--imagesList] are not taken here. *)
Definition main (env : Env) (a : Args) (senzing_root ini_file_name : string)
  (ini_json : IniJson) : M unit :=
  do (if negb (contStop a) && negb (contRemove a) && negb (contRemoveNoPrompt a)
      then docker_net (dockNet a) else ret tt) then
  let senzing_proj_name := projectSuffix a in
  do modify (with_dc (fun d =>
        dc_update restapi (set_containername ("SzGo-API-" ++ senzing_proj_name))
          (dc_update webapp (set_containername ("SzGo-WEB-" ++ senzing_proj_name))
             (dc_update swagger (set_containername ("SzGo-Swagger-" ++ senzing_proj_name)) d))))
  then
  if contStop a || contRemove a || contRemoveNoPrompt a then
    do containers_stop_remove env senzing_proj_name (contRemove a) (contRemoveNoPrompt a)
         (dockNet a) false false
    then sys_exit 0
  else
    do containers_stop_remove env senzing_proj_name (contRemove a) (contRemoveNoPrompt a)
         (dockNet a) true false then
    do resolve_tags env a then
    deploy env a senzing_root ini_file_name ini_json.

(** ** Pure readings of the configuration, used to state the theorems *)

(** The directory [get_path] computes for a connection string that has
    both separators. *)
Definition conn_path (env : Env) (connection_string : string) : option string :=
  match Str.split1 ":" connection_string with
  | Some (_, connection) =>
      match Str.split1 "@" connection with
      | Some (_, conn_str) => Some (resolve_parent env conn_str)
      | None => None
      end
  | None => None
  end.

(** The connection string of the shard named by one cluster key. *)
Definition shard_conn (ini_json : IniJson) (cluster_key : string) : option string :=
  match Dict.get cluster_key ini_json with
  | Some sec => Dict.get "db_1" sec
  | None => None
  end.

(** The shard connection strings referenced by the [HYBRID] section,
    followed by the base connection string. *)
Definition cluster_conn_strs (ini_json : IniJson) (base_conn_str : string)
  : option (list string) :=
  match Dict.get "HYBRID" ini_json with
  | Some hybrid =>
      match mapM (shard_conn ini_json) (list_set (Dict.values hybrid)) with
      | Some strs => Some (strs ++ [base_conn_str])%list
      | None => None
      end
  | None => None
  end.

(** The console after more lines have been printed. *)
Definition printed (out : list string) (w : World) : World :=
  with_console (fun c => (c ++ out)%list) w.

(** The first tag of each local image of a service. *)
Definition local_refs (w : World) (k : ServiceKey) : list string :=
  omap (fun i => head (RepoTags i)) (images_list_name (imagename (dc w k)) w).

Definition drop_latest (many : bool) (refs : list string) : list string :=
  if many then List.filter (fun r => negb (Str.contains "latest" r)) refs else refs.

(** The references among which the offline branch picks: every first
    tag, without those containing [latest] as soon as the service has more
    than one local image. *)
Definition candidates (w : World) (k : ServiceKey) : list string :=
  drop_latest (1 <? length (images_list_name (imagename (dc w k)) w))%nat (local_refs w k).

(** [imagename in avail_images] *)
Definition available (w : World) (k : ServiceKey) : bool :=
  name_in (imagename (dc w k)) (avail_images w).

(** The local images of an available service leave a candidate, and
    every candidate reads [imagename:tag] with a colon-free tag. *)
Definition well_tagged (w : World) (k : ServiceKey) : Prop :=
  available w k = true ->
  Str.count ":" (imagename (dc w k)) = 0%nat
  /\ candidates w k <> []
  /\ Forall (fun r => exists t, r = imagename (dc w k) ++ ":" ++ t
                               /\ Str.count ":" t = 0%nat) (candidates w k).

(** [t] is a greatest tag among the candidates of [k]. *)
Definition newest_tag (w : World) (k : ServiceKey) (t : string) : Prop :=
  (imagename (dc w k) ++ ":" ++ t) ∈ candidates w k
  /\ forall t', (imagename (dc w k) ++ ":" ++ t') ∈ candidates w k -> str_leb t' t = true.

(** The image store, the image names and the availability flags are
    those computed from [w0]. *)
Definition same_store (w0 w : World) : Prop :=
  images w = images w0
  /\ forall k, imagename (dc w k) = imagename (dc w0 k)
            /\ imageavailable (dc w k) = Some (available w0 k).

(** Between [w] and [w'] only lines were printed and the engine was
    inspected. *)
Definition quiet (w w' : World) : Prop :=
  images w' = images w /\ containers w' = containers w /\ networks w' = networks w
  /\ files w' = files w /\ dirs w' = dirs w /\ started w' = started w
  /\ dc w' = dc w /\ exists out, console w' = (console w ++ out)%list.

Definition unhealthy_warning (cont_name : string) : string :=
  "WARNING: Container isn't healthy yet or failed, monitor with the command docker logs "
    ++ cont_name.

(** The engine still holds container [cid] exactly as [c]. *)
Definition kept (cid : string) (c : Container) (w : World) : Prop :=
  containers w !! cid = Some c.

(** An engine with one container of the project and one foreign
    container whose name contains the project name. *)
Definition world_two_containers : World :=
  {| console := []; images := [];
     containers := {[ "id1" := {| Name := "/SzGo-API-proj"; status := "running" |};
                      "id2" := {| Name := "/proj-db"; status := "running" |} ]};
     networks := ["szgo-network"]; files := ∅; dirs := ∅; queries := 0;
     started := []; dc := docker_containers_init "proj" |}.

(** The intermediate file of one image reference. *)
Definition package_file (package_path ref : string) : string :=
  path_join package_path (package_name ref).

(** The archive name [save_images] builds. *)
Definition archive_file (env : Env) (package_path : string) : string :=
  path_join package_path ("SzGoImages_" ++ timestamp env ++ ".tgz").

(** The export of the image a reference names, [None] without one. *)
Definition export_of (w : World) (ref : string) : option Content :=
  image_save <$> images_get ref w.

(** The files written by the first packaging loop. *)
Definition packaged (package_path : string) (w : World) (refs : list string)
  (fs : gmap string Content) : gmap string Content :=
  fold_left (fun m r => match export_of w r with
                        | Some c => <[package_file package_path r := c]> m
                        | None => m
                        end) refs fs.

Definition deleted (paths : list string) (fs : gmap string Content)
  : gmap string Content :=
  fold_left (fun m p => delete p m) paths fs.

(** Reference [r] names an image of the store. *)
Definition tagged (r : string) (store : list Image) : Prop :=
  exists i, i ∈ store /\ r ∈ RepoTags i.

(** The files [extractall] leaves under [d]. *)
Definition extracted (d : string) (entries : list (string * Content))
  (fs : gmap string Content) : gmap string Content :=
  fold_left (fun m e => <[path_join d (fst e) := snd e]> m) entries fs.

(** [d] holds nothing yet: no file lies under it. *)
Definition fresh_dir (d : string) (w : World) : Prop :=
  forall p c, files w !! p = Some c -> strip_prefix (d ++ "/") p = None.

(** Every entry is a flat file name with the export of an image. *)
Definition image_entries (entries : list (string * Content)) : Prop :=
  Forall (fun e => Str.count "/" (fst e) = 0%nat
                   /\ exists id nm, snd e = ImageTar id nm) entries.

(** ** Messages and sample inputs used in the statements *)

(** [total m w Q]: started in [w], [m] returns normally and [Q] holds of
    the result and the world it leaves. *)
Definition total {A} (m : M A) (w : World) (Q : A -> World -> Prop) : Prop :=
  exists a w', m w = Done a w' /\ Q a w'.

(** [always P m]: [P] survives [m] however it ends. *)
Definition always {A} (P : World -> Prop) (m : M A) : Prop :=
  forall w, P w -> P (final_world (m w)).

Definition parse_diagnostic (conn : string) : string :=
  "ERROR: Couldn't parse connection string and find the database type: " ++ conn.

Definition ini_no_colon : IniJson :=
  [("PIPELINE", [("resourcepath", "/s/resources")]);
   ("SQL", [("connection", "G2C.db")])].

Definition ini_mysql_no_at : IniJson :=
  [("PIPELINE", [("resourcepath", "/s/resources")]);
   ("SQL", [("connection", "mysql://dbhost/G2")])].

Definition ini_mysql_no_at_fixed : IniJson :=
  [("PIPELINE", [("supportpath", "/opt/senzing/data"); ("configpath", "/etc/opt/senzing")]);
   ("SQL", [("connection", "mysql://dbhost/G2")])].



Definition args0 : Args :=
  {| apiTag := None; webAppTag := None; swaggerTag := None;
     noWebApp := true; noSwagger := true; forcePull := false; skipHealth := false;
     contStop := false; contRemove := false; contRemoveNoPrompt := false;
     dockNet := "szgo-network"; db2CliPath := None; projectSuffix := "proj" |}.

(** A machine without network access that holds one API server image. *)
Definition env_offline : Env :=
  {| resolve_parent := lexical_parent;
     observe := fun _ _ => quiet_obs;
     container_logs := fun _ => "";
     registry := fun _ => None;
     run_error := fun _ => None;
     stop_error := fun _ => None;
     remove_error := fun _ => None;
     timestamp := "20220720_120000";
     user_input := Some "";
     access_versions := false;
     access_dockerhub := false;
     versions_file := None;
     api_spec := Some (WithData "{}");
     euid := 1000;
     sudo_user_known := false |}.



Definition cluster_header : string :=
  "When using a sqlite cluster, all database files must be in the same path:".

Definition cluster_listing (dirs_found : list string) : list string :=
  cluster_header :: map (String "009") dirs_found.

Definition ini_hybrid_split : IniJson :=
  [("PIPELINE", [("supportpath", "/s/data"); ("resourcepath", "/s/resources")]);
   ("SQL", [("connection", "sqlite3://na:na@/s/var/sqlite/G2C.db");
            ("backend", "HYBRID")]);
   ("HYBRID", [("res_feat_ekey", "C1"); ("res_feat_lkey", "C1");
               ("res_feat_stat", "C2")]);
   ("C1", [("cluster_size", "1"); ("db_1", "sqlite3://na:na@/data1/G2_RES.db")]);
   ("C2", [("cluster_size", "1"); ("db_1", "sqlite3://na:na@/s/var/sqlite/G2_LIB.db")])].

Definition sqlite_mount (host : string) : Mount :=
  {| host_dir := host; bind_dir := "/var/opt/senzing"; mount_mode := "rw" |}.

(** A host directory with a character outside ASCII (here e acute,
    code point 233), as in /home/jos<e acute>/var/sqlite. *)
Definition accented_dir : string := "/home/jos" ++ String "233" "/var/sqlite".

Definition accented_conn : string := "sqlite3://na:na@" ++ accented_dir ++ "/G2C.db".

Definition ini_accented : IniJson :=
  [("PIPELINE", [("supportpath", "/s/data"); ("configpath", "/s/etc");
                 ("resourcepath", "/s/resources")]);
   ("SQL", [("connection", accented_conn)])].

Definition api_repo : string := "senzing/senzing-api-server".

(** Two local API server images, 2.8.0 and 3.1.0. *)
Definition world_two_api_images : World :=
  {| console := [];
     images := [ {| image_id := "sha256:a0"; RepoTags := [api_repo ++ ":2.8.0"] |};
                 {| image_id := "sha256:a1"; RepoTags := [api_repo ++ ":3.1.0"] |} ];
     containers := ∅; networks := []; files := ∅; dirs := ∅; queries := 0;
     started := []; dc := docker_containers_init "proj" |}.

Definition args_api_tag (t : string) : Args :=
  {| apiTag := Some t; webAppTag := None; swaggerTag := None;
     noWebApp := true; noSwagger := true; forcePull := false; skipHealth := false;
     contStop := false; contRemove := false; contRemoveNoPrompt := false;
     dockNet := "szgo-network"; db2CliPath := None; projectSuffix := "proj" |}.

(** The manifest cannot be fetched, Docker Hub can. *)
Definition env_no_manifest : Env :=
  {| resolve_parent := lexical_parent;
     observe := fun _ _ => quiet_obs;
     container_logs := fun _ => "";
     registry := fun _ => None;
     run_error := fun _ => None;
     stop_error := fun _ => None;
     remove_error := fun _ => None;
     timestamp := "20220720_120000";
     user_input := Some "";
     access_versions := false;
     access_dockerhub := true;
     versions_file := None;
     api_spec := Some (WithData "{}");
     euid := 1000;
     sudo_user_known := false |}.

Definition world_three_tags : World :=
  {| console := [];
     images := [ {| image_id := "sha256:a0"; RepoTags := [api_repo ++ ":1.2.0"] |};
                 {| image_id := "sha256:a1"; RepoTags := [api_repo ++ ":1.3.0"] |};
                 {| image_id := "sha256:a2"; RepoTags := [api_repo ++ ":latest"] |} ];
     containers := ∅; networks := []; files := ∅; dirs := ∅; queries := 0;
     started := []; dc := docker_containers_init "proj" |}.

Definition world_latest_only : World :=
  {| console := [];
     images := [ {| image_id := "sha256:a2"; RepoTags := [api_repo ++ ":latest"] |} ];
     containers := ∅; networks := []; files := ∅; dirs := ∅; queries := 0;
     started := []; dc := docker_containers_init "proj" |}.

(** A container that runs and reports the health status [starting] at
    every inspection. *)
Definition env_unhealthy : Env :=
  {| resolve_parent := lexical_parent;
     observe := fun _ _ => {| obs_status := "running"; obs_health := Some "starting" |};
     container_logs := fun _ => "";
     registry := fun _ => None;
     run_error := fun _ => None;
     stop_error := fun _ => None;
     remove_error := fun _ => None;
     timestamp := "20220720_120000";
     user_input := Some "";
     access_versions := false;
     access_dockerhub := false;
     versions_file := None;
     api_spec := Some (WithData "{}");
     euid := 1000;
     sudo_user_known := false |}.

Definition run_api : RunArgs :=
  {| container := restapi; image := "senzing/senzing-api-server:3.1.0";
     name := "SzGo-API-proj" |}.

Definition run_web : RunArgs :=
  {| container := webapp; image := "senzing/entity-search-web-app:2.7.0";
     name := "SzGo-WEB-proj" |}.

Definition one_image_archive : Content :=
  TarGz [("SzGoPackage-senzing-senzing-api-server-3.1.0.tar",
          ImageTar "sha256:a1" (Some "senzing/senzing-api-server:3.1.0"))].

(** A machine on which the archive has been copied to [/tmp]. *)
Definition world_with_archive : World :=
  {| console := []; images := []; containers := ∅; networks := [];
     files := {[ "/tmp/SzGoImages_20220719_090000.tgz" := one_image_archive ]};
     dirs := {[ "/tmp" ]}; queries := 0; started := [];
     dc := docker_containers_init "" |}.

Definition web_repo : string := "senzing/entity-search-web-app".

(** The packaging machine: two images, an existing [/tmp]. *)
Definition world_export : World :=
  {| console := [];
     images := [ {| image_id := "sha256:a1"; RepoTags := [api_repo ++ ":3.1.0"] |};
                 {| image_id := "sha256:b1"; RepoTags := [web_repo ++ ":2.7.0"] |} ];
     containers := ∅; networks := []; files := ∅; dirs := {[ "/tmp" ]}; queries := 0;
     started := []; dc := docker_containers_init "" |}.

Definition refs_export : list string := [api_repo ++ ":3.1.0"; web_repo ++ ":2.7.0"].

(** Two references whose intermediate file names coincide. *)
Definition refs_collide : list string := ["repo/app:1"; "repo-app:1"].

Definition world_collide : World :=
  {| console := [];
     images := [ {| image_id := "sha256:a"; RepoTags := ["repo/app:1"] |};
                 {| image_id := "sha256:b"; RepoTags := ["repo-app:1"] |} ];
     containers := ∅; networks := []; files := ∅; dirs := {[ "/tmp" ]}; queries := 0;
     started := []; dc := docker_containers_init "" |}.

Definition collide_archive : Content :=
  TarGz [("SzGoPackage-repo-app-1.tar", ImageTar "sha256:b" (Some "repo-app:1"))].

(** The machine the archive is carried to. *)
Definition world_import : World :=
  {| console := []; images := []; containers := ∅; networks := [];
     files := {[ "/in/bundle.tgz" := collide_archive ]};
     dirs := {[ "/in" ]}; queries := 0; started := [];
     dc := docker_containers_init "" |}.

(** One image under two tags, [latest] first. *)
Definition world_two_tags : World :=
  {| console := [];
     images := [ {| image_id := "sha256:a1";
                    RepoTags := [api_repo ++ ":latest"; api_repo ++ ":3.1.0"] |} ];
     containers := ∅; networks := []; files := ∅; dirs := {[ "/tmp" ]}; queries := 0;
     started := []; dc := docker_containers_init "" |}.

(** ** Further readings used in the statements *)

(** [exits code m w Q]: started in [w], [m] ends in [sys.exit(code)]
    and [Q] holds of the world it leaves. *)
Definition exits {A} (code : Z) (m : M A) (w : World) (Q : World -> Prop) : Prop :=
  exists w', m w = Exit code w' /\ Q w'.

(** The container log has been dumped on the console. *)
Definition logs_dumped (env : Env) (cont_name : string) (w : World) : Prop :=
  "********** Start Docker Logs **********" ∈ console w
  /\ container_logs env cont_name ∈ console w
  /\ "********** End Docker Logs **********" ∈ console w.

(** An offline machine whose engine reports the same observation of
    every container at every inspection. *)
Definition env_observing (o : ContObs) : Env :=
  {| resolve_parent := lexical_parent;
     observe := fun _ _ => o;
     container_logs := fun _ => "log";
     registry := fun _ => None;
     run_error := fun _ => None;
     stop_error := fun _ => None;
     remove_error := fun _ => None;
     timestamp := "20220720_120000";
     user_input := Some "";
     access_versions := false;
     access_dockerhub := false;
     versions_file := None;
     api_spec := Some (WithData "{}");
     euid := 1000;
     sudo_user_known := false |}.

Definition obs_exited : ContObs := {| obs_status := "exited"; obs_health := None |}.
Definition obs_created : ContObs := {| obs_status := "created"; obs_health := None |}.

(** [m] inspects the engine at most [n] times, however it ends. *)
Definition bounded {A} (n : nat) (m : M A) : Prop :=
  forall w, (queries (final_world (m w)) <= queries w + n)%nat.

(** What [w'] records of every service besides the pull flags is what
    [w] records: image name, tag, container name, ports and start flag. *)
Definition same_services (w w' : World) : Prop :=
  forall k, imagename (dc w' k) = imagename (dc w k)
         /\ tag (dc w' k) = tag (dc w k)
         /\ containername (dc w' k) = containername (dc w k)
         /\ containerport (dc w' k) = containerport (dc w k)
         /\ hostport (dc w' k) = hostport (dc w k)
         /\ startedok (dc w' k) = startedok (dc w k).

Definition api_pull_error : string :=
  "ERROR: Couldn't pull REST API Server image, can't continue without it!".

Definition env_empty_registry : Env := env_observing obs_created.

(** From [w] to [w'] the engine lost no container, gained none and
    renamed none; a container's status is what it was or ["exited"];
    networks and images are the same. *)
Definition only_stopped (w w' : World) : Prop :=
  networks w' = networks w /\ images w' = images w
  /\ forall cid,
       match containers w !! cid, containers w' !! cid with
       | Some c, Some c' =>
           Name c' = Name c /\ (status c' = status c \/ status c' = "exited")
       | None, None => True
       | _, _ => False
       end.

Definition accepted_answers : list string := [""; "y"; "Y"; "yes"; "YES"].

(** A container that [containers_stop_remove] both lists under the
    project filter and recognises as one of the project's own. *)
Definition project_container (proj : string) (w : World) (cid : string) : Prop :=
  exists c, containers w !! cid = Some c
    /\ Str.contains proj (Name c) = true
    /\ name_in (cont_name_of c) (project_container_names (dc w)) = true.

Definition env_declining : Env :=
  {| resolve_parent := resolve_parent env0; observe := observe env0;
     container_logs := container_logs env0; registry := registry env0;
     run_error := run_error env0; stop_error := stop_error env0;
     remove_error := remove_error env0; timestamp := timestamp env0;
     user_input := Some "n"; access_versions := access_versions env0;
     access_dockerhub := access_dockerhub env0; versions_file := versions_file env0;
     api_spec := api_spec env0; euid := euid env0;
     sudo_user_known := sudo_user_known env0 |}.

Definition gone (cid : string) (w : World) : Prop := containers w !! cid = None.

(** [m] keeps [P], never ends in an uncaught exception, and when it
    exits it does so with status 0. *)
Definition graceful {A} (P : World -> Prop) (m : M A) : Prop :=
  forall w, P w ->
    match m w with
    | Done _ w' => P w'
    | Exit c w' => c = 0%Z /\ P w'
    | Crash _ _ => False
    end.

(** What clean-up leaves alone: nothing was started, no image or file
    changed and no network appeared. *)
Definition cleaned_only (w w' : World) : Prop :=
  started w' = started w /\ images w' = images w /\ files w' = files w
  /\ dirs w' = dirs w /\ forall n, n ∈ networks w' -> n ∈ networks w.

Definition args_remove : Args :=
  {| apiTag := None; webAppTag := None; swaggerTag := None;
     noWebApp := false; noSwagger := false; forcePull := false;
     skipHealth := false; contStop := false; contRemove := true;
     contRemoveNoPrompt := false; dockNet := "szgo-network";
     db2CliPath := None; projectSuffix := "proj" |}.

(** The containers started since [w], in order. *)
Definition started_since (w w' : World) (l : list string) : Prop :=
  started w' = (started w ++ l)%list.

(** The service table of [w] names the containers as [d] does. *)
Definition names_kept (d : DockerContainers) (w : World) : Prop :=
  forall k, containername (dc w k) = containername (d k).

(** Exactly the starts [l] have been issued. *)
Definition started_is (l : list string) (d : DockerContainers) (w : World) : Prop :=
  started w = l /\ names_kept d w.

(** The starts issued begin with [l]. *)
Definition started_from (l : list string) (d : DockerContainers) (w : World) : Prop :=
  (exists rest, started w = (l ++ rest)%list) /\ names_kept d w.

Definition ini_mysql : IniJson :=
  [("PIPELINE", [("supportpath", "/s/data"); ("configpath", "/s/etc");
                 ("resourcepath", "/s/resources")]);
   ("SQL", [("connection", "mysql://user:pw@dbhost:3306/?schema=G2")])].

(** ** Network helpers, lines 175-229

    What the helpers do is recorded as a list of events.  The answers of
    the network are a function of the number of requests made before. *)

Inductive NetEvent :=
| Say (s : string)
| Request (url : string) (tout : Z)
| Sleep (seconds : Z).

(** [not retries_start] *)
Definition unset (retries_start : option nat) : bool :=
  match retries_start with None | Some O => true | Some (S _) => false end.

(** [retries == retries_start] *)
Definition same_count (retries : nat) (retries_start : option nat) : bool :=
  match retries_start with Some r => Nat.eqb retries r | None => false end.

(** [internet_access], called with a natural number of retries; the
    result of the inner call is dropped, as in the source, and the inner
    call runs with the default timeout. *)
Fixpoint internet_access (urlopen : nat -> bool) (url : string) (retries : nat)
  (retries_start : option nat) (tout : Z) (check_msg : bool) (n : nat)
  : bool * list NetEvent :=
  let asked := ((if check_msg then [Say url] else []) ++ [Request url tout])%list in
  if urlopen n then (true, (asked ++ [Say " Available"])%list)
  else
    let '(retries, retries_start, inner) :=
      match retries with
      | S (S _ as retries') =>
          let retries_start' :=
            if unset retries_start then Some retries' else retries_start in
          (retries', retries_start',
           ([Say "."; Sleep 1]
              ++ snd (internet_access urlopen url retries' retries_start' 2 false (S n)))%list)
      | _ => (retries, retries_start, [])
      end in
    (false,
     (asked ++ inner
        ++ (if same_count retries retries_start then [Say " Unavailable"] else []))%list).

Definition requests (evs : list NetEvent) : nat :=
  length (List.filter (fun e => match e with Request _ _ => true | _ => false end) evs).

Definition pauses (evs : list NetEvent) : list Z :=
  omap (fun e => match e with Sleep s => Some s | _ => None end) evs.

(** An answer to [urlopen] in [get_api_spec]: a body, one of the
    connection errors that are retried, or any other exception. *)
Inductive Fetched :=
| Body (api_spec : string)
| Unreachable (ex : string)
| Failed (ex : string).

(** [ceil(a / b)] *)
Definition ceil_div (a b : Z) : Z := (- ((- a) / b))%Z.

(** [5 * (retries - retry) if retry < ceil(retries/retry) else 5] *)
Definition sleep_time (retries retry : Z) : Z :=
  if (retry <? ceil_div retries retry)%Z then (5 * (retries - retry))%Z else 5%Z.

Definition api_spec_unavailable : string :=
  "ERROR: Unable to connect to or fetch API specification from REST server, cannot continue!".

(** The [while retry > 0] loop of [get_api_spec] and the lines after
    it; [None] is [sys.exit(1)].  The pause announced in the message is
    the one of the [Sleep] that follows it. *)
Fixpoint get_api_spec_loop (urlopen : nat -> Fetched) (url : string) (retries tout : Z)
  (retry n : nat) : option string * list NetEvent :=
  match retry with
  | O => (None, [Say api_spec_unavailable])
  | S retry' =>
      match urlopen n with
      | Body api_spec => (Some api_spec, [Request url tout])
      | Unreachable ex =>
          let pause := sleep_time retries (Z.of_nat retry) in
          let '(r, evs) := get_api_spec_loop urlopen url retries tout retry' (S n) in
          (r, (Request url tout
                 :: Say ("INFO: Waiting for API specification from REST server, pausing before retry... " ++ ex)
                 :: Sleep pause :: evs))
      | Failed ex =>
          (None,
           [Request url tout;
            Say ("ERROR: General error communicating with the REST server, cannot continue! " ++ ex)])
      end
  end.

Definition get_api_spec (urlopen : nat -> Fetched) (url : string) (retries : nat) (tout : Z)
  : option string * list NetEvent :=
  get_api_spec_loop urlopen url (Z.of_nat retries) tout retries 0.

(** A network that answers the second request only. *)
Definition second_only (n : nat) : bool := Nat.eqb n 1.

(** A server that is ready at the third request. *)
Definition ready_at_third (n : nat) : Fetched :=
  if (n <? 2)%nat then Unreachable "Connection refused" else Body "{}".

Definition never_ready (n : nat) : Fetched := Unreachable "Connection refused".

(** ** [parse_versions], lines 232-262 *)

(** What [urlopen] gives: the page, or one of the two errors caught. *)
Inductive Response :=
| Page (body : string)
| HTTPError (code : string)
| URLError (reason : string).

(** [s.split(sep)] for a one-character separator. *)
Fixpoint split_char (sep : ascii) (s : string) : list string :=
  match s with
  | EmptyString => [EmptyString]
  | String c r =>
      if Ascii.eqb sep c then EmptyString :: split_char sep r
      else match split_char sep r with
           | h :: t => String c h :: t
           | [] => [String c EmptyString]
           end
  end.

(** [kv.split('=')[0]: kv.split('=')[1]]; [None] is the [IndexError]
    of a line without [=]. *)
Definition key_value (kv : string) : option (string * string) :=
  match split_char "=" kv with
  | k :: v :: _ => Some (k, v)
  | _ => None
  end.

(** The lines the comprehension reads. *)
Definition version_lines (page : string) : list string :=
  List.filter (Str.startswith "SENZING_")
    (lines (Str.replace "export SENZING_" "SENZING_" page)).

(** The dictionary comprehension, entry after entry. *)
Fixpoint versions_dict (kvs : list string) (acc : Dict.t string)
  : option (Dict.t string) :=
  match kvs with
  | [] => Some acc
  | kv :: r =>
      match key_value kv with
      | Some (k, v) => versions_dict r (Dict.set k v acc)
      | None => None
      end
  end.

(** [parse_versions]; the result [None] is [False].  Only the two
    errors of [urllib] are caught. *)
Definition parse_versions (response : Response) : M (option (Dict.t string)) :=
  match response with
  | Page page =>
      match versions_dict (version_lines page) [] with
      | Some versions => ret (Some versions)
      | None => raise "IndexError"
      end
  | HTTPError code =>
      do print ("ERROR: Fetching latest versions, the server couldn't fulfill the request. Error code: " ++ code)
      then ret None
  | URLError reason =>
      do print ("ERROR: Fetching latest versions, failed to reach a server. Reason: " ++ reason)
      then ret None
  end.

Definition versions_page : string :=
  "#!/usr/bin/env bash" ++ String "010"
  ("export SENZING_DOCKER_IMAGE_VERSION_ADMINER=1.0.0" ++ String "010"
  ("export SENZING_DOCKER_IMAGE_VERSION_APT=1.0.5.post1" ++ String "010" "")).

Definition versions_page_bad : string :=
  "export SENZING_DOCKER_IMAGE_VERSION_ADMINER=1.0.0" ++ String "010"
  ("SENZING_DOCKER_IMAGE_VERSION_APT" ++ String "010" "").

(** ** [get_senzing_proj_name], lines 984-997 *)

(** A character of the class [a-zA-Z0-9_.-]. *)
Definition valid_char (c : ascii) : bool :=
  let n := nat_of_ascii c in
  ((97 <=? n) && (n <=? 122) || (65 <=? n) && (n <=? 90) || (48 <=? n) && (n <=? 57)
   || (n =? 95) || (n =? 46) || (n =? 45))%nat.

(** [chars_remove.sub('', s)] *)
Fixpoint keep_valid (s : string) : string :=
  match s with
  | EmptyString => EmptyString
  | String c r => if valid_char c then String c (keep_valid r) else keep_valid r
  end.

Fixpoint all_valid (s : string) : bool :=
  match s with
  | EmptyString => true
  | String c r => valid_char c && all_valid r
  end.

Definition get_senzing_proj_name (root_path : string) : M string :=
  let proj_name_clean := keep_valid root_path in
  if negb (Str.eqb root_path proj_name_clean) then
    do print ("INFO: Container names will use the suffix " ++ proj_name_clean
                ++ " instead of " ++ root_path)
    then ret proj_name_clean
  else ret root_path.

Definition world_one_image : World :=
  with_dirs (union {[ "/out" ]})
    (with_images (fun _ => [{| image_id := "sha256:aa";
                               RepoTags := ["senzing/senzing-api-server:3.0.0"] |}])
       world0).

Definition world_with_notes : World :=
  with_files (insert "/in/bundle.tgz" (TarGz [("notes.txt", Text "hello")])) world0.

(** A member path that is a file name: it lies at the top of the
    archive and names neither the directory itself nor its parent. *)
Definition plain_name (n : string) : Prop :=
  Str.count "/" n = 0%nat /\ n <> "" /\ n <> "." /\ n <> "..".



(** * Sanity checks of the embedding on concrete inputs *)

Example replace_ex1 :
  Str.replace "/a" "/var" "x/a/b/a" = "x/var/b/var".
Proof. reflexivity. Qed.

Example replace_ex2 : Str.replace "aa" "b" "aaa" = "ba".
Proof. reflexivity. Qed.

Example split1_ex :
  Str.split1 ":" "sqlite3://na:na@/x/G2C.db" = Some ("sqlite3", "//na:na@/x/G2C.db").
Proof. reflexivity. Qed.

Example dumps_sample :
  Json.dumps [("SQL", [("connection", "a:b")]); ("X", [])]
  = "{" ++ Json.dumps_str "SQL" ++ ": {" ++ Json.dumps_str "connection" ++ ": "
        ++ Json.dumps_str "a:b" ++ "}, " ++ Json.dumps_str "X" ++ ": {}}".
Proof. reflexivity. Qed.

Example loads_dumps_sample : Json.loads (Json.dumps sample_ini) = Some sample_ini.
Proof. vm_compute. reflexivity. Qed.

Example lexical_parent_ex : lexical_parent "/s/var/sqlite/G2C.db" = "/s/var/sqlite".
Proof. reflexivity. Qed.

Example patch_sample :
  patch_ini_json env0 sample_ini world0
  = Done ("sqlite3",
          [("PIPELINE", [("supportpath", "/opt/senzing/data");
                         ("configpath", "/etc/opt/senzing")]);
           ("SQL", [("connection", "sqlite3://na:na@/var/opt/senzing/G2C.db")])],
          Some {| host_dir := "/s/var/sqlite"; bind_dir := "/var/opt/senzing";
                  mount_mode := "rw" |}) world0.
Proof. vm_compute. reflexivity. Qed.

(** * Reasoning about runs *)

Lemma total_ret {A} (a : A) w (Q : A -> World -> Prop) : Q a w -> total (ret a) w Q.
Proof. intros H. by exists a, w. Qed.

Lemma total_bind {A B} (m : M A) (k : A -> M B) w Q R :
  total m w Q ->
  (forall a w', Q a w' -> total (k a) w' R) ->
  total (bind m k) w R.
Proof.
  intros (a & w' & Hm & HQ) Hk. destruct (Hk a w' HQ) as (b & w'' & Hkb & HR).
  exists b, w''. split; [|done]. unfold bind. by rewrite Hm.
Qed.

Lemma total_modify f w (Q : unit -> World -> Prop) : Q tt (f w) -> total (modify f) w Q.
Proof. intros H. by exists tt, (f w). Qed.

Lemma total_print s w (Q : unit -> World -> Prop) :
  Q tt (with_console (fun c => (c ++ [s])%list) w) -> total (print s) w Q.
Proof. apply total_modify. Qed.

Lemma total_get_world w (Q : World -> World -> Prop) : Q w w -> total get_world w Q.
Proof. intros H. by exists w, w. Qed.

Lemma total_bind_get_world {B} (k : World -> M B) w (R : B -> World -> Prop) :
  total (k w) w R -> total (bind get_world k) w R.
Proof. intros (b & w' & E & H). exists b, w'. split; [|done]. by unfold bind, get_world. Qed.

Lemma total_bind_eq {A B} (m : M A) (k : A -> M B) w a w' (R : B -> World -> Prop) :
  m w = Done a w' -> total (k a) w' R -> total (bind m k) w R.
Proof.
  intros E (b & w'' & Ek & H). exists b, w''. split; [|done]. unfold bind. by rewrite E.
Qed.

Lemma total_weaken {A} (m : M A) w (Q R : A -> World -> Prop) :
  total m w Q -> (forall a w', Q a w' -> R a w') -> total m w R.
Proof. intros (a & w' & Hm & HQ) H. exists a, w'. eauto. Qed.

Lemma forM_cons_done {A B} (f : A -> M B) x xs w y w' ys w'' :
  f x w = Done y w' -> forM f xs w' = Done ys w'' -> forM f (x :: xs) w = Done (y :: ys) w''.
Proof. intros E1 E2. simpl. unfold bind. by rewrite E1, E2. Qed.

Lemma total_forM {A B} (f : A -> M B) (I : World -> Prop) xs w :
  (forall x w', x ∈ xs -> I w' -> total (f x) w' (fun _ w'' => I w'')) ->
  I w ->
  total (forM f xs) w (fun _ w' => I w').
Proof.
  revert w. induction xs as [|x xs IH]; intros w Hf HI; simpl.
  - by apply total_ret.
  - eapply total_bind; [apply Hf; [set_solver|done]|].
    intros b w' HI'. eapply total_bind.
    + apply IH; [|done]. intros. apply Hf; [set_solver|done].
    + intros bs w'' HI''. by apply total_ret.
Qed.

Lemma always_ret {A} P (a : A) : always P (ret a).
Proof. by intros w H. Qed.

Lemma always_exit {A} P c : always P (@sys_exit A c).
Proof. by intros w H. Qed.

Lemma always_raise {A} P e : always P (@raise A e).
Proof. by intros w H. Qed.

Lemma always_get_world P : always P get_world.
Proof. by intros w H. Qed.

Lemma always_bind {A B} P (m : M A) (k : A -> M B) :
  always P m -> (forall a, always P (k a)) -> always P (bind m k).
Proof.
  intros Hm Hk w H. unfold bind. specialize (Hm w H).
  destruct (m w) as [a w'|c w'|e w']; simpl in *; [by apply Hk|done|done].
Qed.

Lemma always_modify P f : (forall w, P w -> P (f w)) -> always P (modify f).
Proof. intros Hf w H. by apply Hf. Qed.

Lemma always_forM {A B} P (f : A -> M B) xs :
  (forall x, x ∈ xs -> always P (f x)) -> always P (forM f xs).
Proof.
  induction xs as [|x xs IH]; intros Hf; simpl.
  - apply always_ret.
  - apply always_bind; [apply Hf; set_solver|]. intros b.
    apply always_bind; [apply IH; intros; apply Hf; set_solver|].
    intros; apply always_ret.
Qed.

Lemma always_if {A} P (b : bool) (m1 m2 : M A) :
  always P m1 -> always P m2 -> always P (if b then m1 else m2).
Proof. by destruct b. Qed.

(** * The order of Python strings and the reverse sort *)

Lemma str_compare_refl a : String.compare a a = Eq.
Proof.
  induction a as [|x a IH]; simpl; [done|].
  unfold Ascii.compare. by rewrite N.compare_refl.
Qed.

Lemma str_leb_refl a : str_leb a a = true.
Proof. unfold str_leb. by rewrite str_compare_refl. Qed.

Lemma str_leb_trans a b c :
  str_leb a b = true -> str_leb b c = true -> str_leb a c = true.
Proof.
  unfold str_leb. revert b c.
  induction a as [|x a IH]; intros [|y b] [|z c]; simpl; try done.
  unfold Ascii.compare.
  destruct (N.compare_spec (N_of_ascii x) (N_of_ascii y)) as [Hxy|Hxy|Hxy];
    destruct (N.compare_spec (N_of_ascii y) (N_of_ascii z)) as [Hyz|Hyz|Hyz];
    destruct (N.compare_spec (N_of_ascii x) (N_of_ascii z)) as [Hxz|Hxz|Hxz];
    try done; try lia.
  apply IH.
Qed.

Lemma str_leb_total a b : str_leb a b = true \/ str_leb b a = true.
Proof.
  unfold str_leb. rewrite (String.compare_antisym b a).
  destruct (String.compare a b); simpl; auto.
Qed.

(** A common prefix does not take part in the comparison. *)
Lemma str_leb_prefix p a b : str_leb (p ++ a) (p ++ b) = str_leb a b.
Proof.
  unfold str_leb. induction p as [|x p IH]; simpl; [done|].
  unfold Ascii.compare. by rewrite N.compare_refl.
Qed.

Lemma insert_desc_head x l :
  exists h r, insert_desc x l = h :: r
    /\ (h = x \/ exists r0, l = h :: r0)
    /\ str_leb x h = true
    /\ (forall y r0, l = y :: r0 -> str_leb y h = true).
Proof.
  destruct l as [|y r]; simpl.
  - exists x, []. repeat split; auto using str_leb_refl. intros; discriminate.
  - destruct (str_leb x y && negb (Str.eqb x y)) eqn:E.
    + apply andb_true_iff in E as [E _].
      exists y, (insert_desc x r). repeat split; eauto.
      intros y' r0 [= <- <-]. apply str_leb_refl.
    + exists x, (y :: r). repeat split; auto using str_leb_refl.
      intros y' r0 [= <- <-].
      apply andb_false_iff in E as [E|E].
      * destruct (str_leb_total x y); congruence.
      * apply negb_false_iff in E. apply String.eqb_eq in E as ->. apply str_leb_refl.
Qed.

Lemma insert_desc_elem x l z : z ∈ insert_desc x l <-> z = x \/ z ∈ l.
Proof.
  induction l as [|y r IH]; simpl.
  - set_solver.
  - destruct (str_leb x y && negb (Str.eqb x y)); set_solver.
Qed.

Lemma sort_desc_elem l z : z ∈ sort_desc l <-> z ∈ l.
Proof.
  induction l as [|x l IH]; simpl; [done|].
  rewrite insert_desc_elem, IH. set_solver.
Qed.

(** The first element of the reverse sort is a greatest element. *)
Lemma sort_desc_greatest l h r :
  sort_desc l = h :: r -> h ∈ l /\ forall y, y ∈ l -> str_leb y h = true.
Proof.
  intros H. split.
  { apply sort_desc_elem. rewrite H. set_solver. }
  revert h r H. induction l as [|x l IH]; intros h r H y Hy; [set_solver|].
  simpl in H.
  destruct (insert_desc_head x (sort_desc l)) as (h' & r' & E & Hor & Hx & Hold).
  rewrite E in H. inversion H; subst h' r'; clear H.
  apply elem_of_cons in Hy as [->|Hy]; [done|].
  destruct (sort_desc l) as [|h0 r0] eqn:Es.
  { apply sort_desc_elem in Hy. rewrite Es in Hy. set_solver. }
  eapply str_leb_trans; [eapply IH; eauto|]. by eapply Hold.
Qed.

Lemma sort_desc_nil l : sort_desc l = [] -> l = [].
Proof.
  destruct l as [|x l]; [done|]. simpl. intros H.
  destruct (insert_desc_head x (sort_desc l)) as (h & r & E & _). congruence.
Qed.

(** * Concatenation of strings *)

Lemma str_app_assoc (a b c : string) : (a ++ b) ++ c = a ++ (b ++ c).
Proof.
  induction a as [|x a IH]; [done|].
  change (String x ((a ++ b) ++ c) = String x (a ++ (b ++ c))). by rewrite IH.
Qed.

Lemma str_app_nil_r (a : string) : a ++ "" = a.
Proof.
  induction a as [|x a IH]; [done|].
  change (String x (a ++ "") = String x a). by rewrite IH.
Qed.

Lemma startswith_refl s : Str.startswith s s = true.
Proof. induction s as [|c s IH]; simpl; [done|]. by rewrite Ascii.eqb_refl. Qed.

Lemma startswith_app p s : Str.startswith p (p ++ s) = true.
Proof.
  induction p as [|c p IH]; [by destruct s|].
  change (String c p ++ s) with (String c (p ++ s)). simpl.
  by rewrite Ascii.eqb_refl.
Qed.

Lemma contains_refl s : Str.contains s s = true.
Proof. destruct s; simpl; [done|]. by rewrite Ascii.eqb_refl, startswith_refl. Qed.

Lemma filter_nonempty {A} (f : A -> bool) l x : In x l -> f x = true -> List.filter f l <> [].
Proof.
  intros Hin Hf E. assert (H : In x (List.filter f l)) by (by apply filter_In).
  rewrite E in H. destruct H.
Qed.

(** * Configuration translation *)

Lemma printed_nil w : printed [] w = w.
Proof. destruct w; unfold printed, with_console; simpl. by rewrite app_nil_r. Qed.

Lemma printed_app out1 out2 w : printed out2 (printed out1 w) = printed (out1 ++ out2)%list w.
Proof. destruct w; unfold printed, with_console; simpl. by rewrite app_assoc. Qed.

Lemma print_printed s w : print s w = Done tt (printed [s] w).
Proof. reflexivity. Qed.

Lemma split1_none_count sep s : Str.split1 sep s = None <-> Str.count sep s = 0%nat.
Proof.
  induction s as [|c r IH]; simpl; [done|].
  rewrite (Ascii.eqb_sym sep c).
  destruct (Ascii.eqb c sep); simpl.
  - split; intros; discriminate.
  - destruct (Str.split1 sep r) as [[a b]|]; split; intros H; try discriminate.
    + apply IH in H. discriminate.
    + by apply IH.
    + by apply IH.
Qed.

Lemma fix_pipeline_ok ini ini' sql conn w :
  pipeline_fixed ini = Some (ini', sql, conn) ->
  fix_pipeline ini w = Done (ini', sql, conn) w.
Proof. intros H. unfold fix_pipeline. by rewrite H. Qed.

(** A scheme other than sqlite3 is handed back untouched: the part after
    the colon is never looked at. *)
Lemma patch_other_scheme env ini ini' sql conn dbtype rest w :
  pipeline_fixed ini = Some (ini', sql, conn) ->
  Str.split1 ":" conn = Some (dbtype, rest) ->
  Str.eqb (Str.lower dbtype) "sqlite3" = false ->
  patch_ini_json env ini w = Done (dbtype, ini', None) w.
Proof.
  intros Hp Hs Hl. unfold patch_ini_json, bind.
  rewrite (fix_pipeline_ok _ _ _ _ _ Hp). unfold type_connection_split.
  rewrite Hs. unfold ret. by rewrite Hl.
Qed.

(** C7 (as amended): a base connection string without the scheme
    separator [:] makes the translation print a diagnostic and exit with
    status 1; when the scheme is present and is not sqlite3 the translation
    returns normally, whether or not the rest holds an [@]. *)
Theorem C7_scheme_separator env ini ini' sql conn w :
  pipeline_fixed ini = Some (ini', sql, conn) ->
  (Str.count ":" conn = 0%nat ->
   patch_ini_json env ini w = Exit 1 (printed [parse_diagnostic conn] w))
  /\ (forall dbtype rest,
        Str.split1 ":" conn = Some (dbtype, rest) ->
        Str.eqb (Str.lower dbtype) "sqlite3" = false ->
        patch_ini_json env ini w = Done (dbtype, ini', None) w).
Proof.
  intros Hp. split.
  - intros Hc. apply split1_none_count in Hc.
    unfold patch_ini_json, bind. rewrite (fix_pipeline_ok _ _ _ _ _ Hp).
    unfold type_connection_split. rewrite Hc. reflexivity.
  - intros dbtype rest Hs Hl. by eapply patch_other_scheme.
Qed.

Lemma C7_scheme_separator_witness :
  patch_ini_json env0 ini_no_colon world0
  = Exit 1 (printed [parse_diagnostic "G2C.db"] world0).
Proof.
  refine (proj1 (C7_scheme_separator env0 ini_no_colon _ _ "G2C.db" world0 _) _);
    reflexivity.
Defined.

(** C7 as the specification states it fails: this connection string has no [@], and
    the translation returns normally, printing nothing. *)
Lemma C7_counterexample :
  Str.count "@" "mysql://dbhost/G2" = 0%nat
  /\ patch_ini_json env0 ini_mysql_no_at world0
     = Done ("mysql", ini_mysql_no_at_fixed, None) world0.
Proof. split; reflexivity. Qed.

(** For sqlite3 the missing [@] ends the run with an uncaught
    [UnboundLocalError] and no diagnostic. *)
Lemma get_path_no_at env conn dbtype rest w :
  Str.split1 ":" conn = Some (dbtype, rest) ->
  Str.split1 "@" rest = None ->
  get_path env conn w = Crash "UnboundLocalError" w.
Proof.
  intros Hs Ha. unfold get_path, bind, type_connection_split.
  rewrite Hs. simpl. by rewrite Ha.
Qed.

(** ** Loops that cannot fail *)

Lemma item_ok {V} k (d : Dict.t V) v w : Dict.get k d = Some v -> item k d w = Done v w.
Proof. intros H. unfold item. by rewrite H. Qed.

Lemma forM_pure {A B} (f : A -> M B) (g : A -> option B) xs ys w :
  (forall x y w', g x = Some y -> f x w' = Done y w') ->
  mapM g xs = Some ys ->
  forM f xs w = Done ys w.
Proof.
  intros Hfg H. apply mapM_Some in H.
  induction H as [|x y xs ys Hxy _ IH]; simpl; [done|].
  unfold bind. rewrite (Hfg _ _ _ Hxy), IH. reflexivity.
Qed.

Lemma forM_print (f : string -> string) l w :
  forM (fun x => print (f x)) l w = Done (map (fun _ => tt) l) (printed (map f l) w).
Proof.
  revert w. induction l as [|x l IH]; intros w; simpl.
  - by rewrite printed_nil.
  - unfold bind. rewrite print_printed, IH, printed_app. reflexivity.
Qed.

Lemma get_path_ok env s p w : conn_path env s = Some p -> get_path env s w = Done p w.
Proof.
  unfold conn_path, get_path, bind, type_connection_split. intros H.
  destruct (Str.split1 ":" s) as [[t c]|]; [|done]. simpl.
  destruct (Str.split1 "@" c) as [[u cs]|]; [|done]. by inversion H.
Qed.

Lemma shard_conn_ok ini ck s w :
  shard_conn ini ck = Some s ->
  (let* sec := item ck ini in item "db_1" sec) w = Done s w.
Proof.
  unfold shard_conn, bind. intros H.
  destruct (Dict.get ck ini) as [sec|] eqn:E; [|done].
  rewrite (item_ok _ _ _ _ E). by apply item_ok.
Qed.

(** ** [list(set(xs))] *)

Lemma list_set_NoDup xs : NoDup (list_set xs).
Proof. unfold list_set. apply NoDup_elements. Qed.

Lemma list_set_elem xs x : x ∈ list_set xs <-> x ∈ xs.
Proof. unfold list_set. rewrite elem_of_elements. apply elem_of_list_to_set. Qed.

Lemma list_set_two xs p q : p ∈ xs -> q ∈ xs -> p ≠ q -> (1 < length (list_set xs))%nat.
Proof.
  intros Hp Hq Hne. unfold list_set.
  change (length (elements (list_to_set xs : gset string)))
    with (size (list_to_set xs : gset string)).
  assert (Hsub : ({[p]} ∪ {[q]} : gset string) ⊆ list_to_set xs).
  { intros x Hx. apply elem_of_list_to_set. set_solver. }
  apply subseteq_size in Hsub.
  rewrite size_union in Hsub by set_solver.
  rewrite !size_singleton in Hsub. lia.
Qed.

Lemma patch_divergent env ini ini' sql base dbtype rest strs paths w :
  pipeline_fixed ini = Some (ini', sql, base) ->
  Str.split1 ":" base = Some (dbtype, rest) ->
  Str.eqb (Str.lower dbtype) "sqlite3" = true ->
  is_hybrid sql = true ->
  cluster_conn_strs ini' base = Some strs ->
  mapM (conn_path env) strs = Some paths ->
  (1 < length (list_set paths))%nat ->
  patch_ini_json env ini w = Exit 1 (printed (cluster_listing (list_set paths)) w).
Proof.
  intros Hp Hs Hl Hh Hc Hm Hlen.
  unfold patch_ini_json, bind. rewrite (fix_pipeline_ok _ _ _ _ _ Hp).
  unfold type_connection_split. rewrite Hs. unfold ret at 1. rewrite Hl, Hh.
  unfold cluster_conn_strs in Hc.
  destruct (Dict.get "HYBRID" ini') as [hybrid|] eqn:EH; [|done].
  rewrite (item_ok _ _ _ _ EH).
  destruct (mapM (shard_conn ini') (list_set (Dict.values hybrid))) as [shards|] eqn:ES;
    [|done].
  inversion Hc; subst strs; clear Hc.
  rewrite (forM_pure _ (shard_conn ini') _ shards w); [|by intros; apply shard_conn_ok|done].
  rewrite (forM_pure _ (conn_path env) _ paths w); [|by intros; apply get_path_ok|done].
  apply Nat.ltb_lt in Hlen. rewrite Hlen.
  rewrite print_printed, forM_print, printed_app. reflexivity.
Qed.

(** C2: a sqlite3 configuration with a hybrid backend whose base and
    shard connection strings lie in at least two distinct directories
    makes the translation, and with it the deployment, exit with status 1
    before any container is started; the lines printed after the heading are
    exactly the distinct directories, each once. *)
Theorem C2_divergent_directories env a root file ini ini' sql base dbtype rest strs paths w :
  pipeline_fixed ini = Some (ini', sql, base) ->
  Str.split1 ":" base = Some (dbtype, rest) ->
  Str.eqb (Str.lower dbtype) "sqlite3" = true ->
  is_hybrid sql = true ->
  cluster_conn_strs ini' base = Some strs ->
  mapM (conn_path env) strs = Some paths ->
  (exists p q, p ∈ paths /\ q ∈ paths /\ p ≠ q) ->
  exists listed w',
    patch_ini_json env ini w = Exit 1 w'
    /\ deploy env a root file ini w = Exit 1 w'
    /\ console w' = (console w ++ cluster_listing listed)%list
    /\ NoDup listed
    /\ (forall d, d ∈ listed <-> d ∈ paths)
    /\ started w' = started w
    /\ containers w' = containers w.
Proof.
  intros Hp Hs Hl Hh Hc Hm (p & q & Hpi & Hqi & Hne).
  pose proof (list_set_two paths p q Hpi Hqi Hne) as Hlen.
  pose proof (patch_divergent env ini ini' sql base dbtype rest strs paths w
                Hp Hs Hl Hh Hc Hm Hlen) as Hpatch.
  exists (list_set paths), (printed (cluster_listing (list_set paths)) w).
  split; [done|]. split.
  { unfold deploy, bind. by rewrite Hpatch. }
  split; [done|]. split; [apply list_set_NoDup|].
  split; [apply list_set_elem|]. done.
Qed.

Lemma C2_divergent_directories_witness :
  exists listed w',
    patch_ini_json env0 ini_hybrid_split world0 = Exit 1 w'
    /\ deploy env0 args0 "/s" "/s/etc/G2Module.ini" ini_hybrid_split world0 = Exit 1 w'
    /\ console w' = (console world0 ++ cluster_listing listed)%list
    /\ NoDup listed
    /\ (forall d, d ∈ listed <-> d ∈ ["/data1"; "/s/var/sqlite"; "/s/var/sqlite"])
    /\ started w' = started world0
    /\ containers w' = containers world0.
Proof.
  refine (C2_divergent_directories env0 args0 "/s" "/s/etc/G2Module.ini" ini_hybrid_split
            _ _ "sqlite3://na:na@/s/var/sqlite/G2C.db" "sqlite3" _
            ["sqlite3://na:na@/data1/G2_RES.db";
             "sqlite3://na:na@/s/var/sqlite/G2_LIB.db";
             "sqlite3://na:na@/s/var/sqlite/G2C.db"]
            ["/data1"; "/s/var/sqlite"; "/s/var/sqlite"] world0 _ _ _ _ _ _ _);
    try (vm_compute; reflexivity).
  exists "/data1", "/s/var/sqlite".
  split; [set_solver|]. split; [set_solver|]. intros H; discriminate H.
Defined.

(** ** The substitution of the host directory *)

(** What the sqlite3 branch does once the single host directory is
    known: substitution in the serialised text, then parsing. *)
Lemma patch_single_database env ini ini' sql base dbtype rest host w :
  pipeline_fixed ini = Some (ini', sql, base) ->
  Str.split1 ":" base = Some (dbtype, rest) ->
  Str.eqb (Str.lower dbtype) "sqlite3" = true ->
  is_hybrid sql = false ->
  conn_path env base = Some host ->
  patch_ini_json env ini w
  = match Json.loads (Str.replace host mount_point (Json.dumps ini')) with
    | Some patched => Done (dbtype, patched, Some (sqlite_mount host)) w
    | None => Crash "JSONDecodeError" w
    end.
Proof.
  intros Hp Hs Hl Hh Hc. unfold patch_ini_json, bind.
  rewrite (fix_pipeline_ok _ _ _ _ _ Hp). unfold type_connection_split.
  rewrite Hs. unfold ret at 1. rewrite Hl, Hh, (get_path_ok _ _ _ _ Hc).
  by destruct (Json.loads _).
Qed.

(** C3 at the failing input: the translation succeeds and binds the
    host directory to /var/opt/senzing, but the connection string of the
    translated configuration still names the host directory: the
    serialised text holds the escaped form of the accented letter, so the
    substitution finds nothing to replace. *)
Theorem C3_escaped_directory_kept :
  patch_ini_json env0 ini_accented world0
  = Done ("sqlite3",
          [("PIPELINE", [("supportpath", "/opt/senzing/data");
                         ("configpath", "/etc/opt/senzing")]);
           ("SQL", [("connection", accented_conn)])],
          Some (sqlite_mount accented_dir)) world0
  /\ Str.contains accented_dir accented_conn = true
  /\ Str.contains accented_dir (Json.dumps ini_accented) = false.
Proof. split; [|split]; vm_compute; reflexivity. Qed.

(** The same configuration under a plain ASCII directory is rewritten. *)
Lemma patch_ascii_directory :
  patch_ini_json env0 sample_ini world0
  = Done ("sqlite3",
          [("PIPELINE", [("supportpath", "/opt/senzing/data");
                         ("configpath", "/etc/opt/senzing")]);
           ("SQL", [("connection", "sqlite3://na:na@/var/opt/senzing/G2C.db")])],
          Some (sqlite_mount "/s/var/sqlite")) world0.
Proof. vm_compute. reflexivity. Qed.

(** * Image tags *)

(** C4 at the failing input: the caller asks for API tag 2.8.0, which
    is present locally, on a machine that cannot reach Docker Hub; the
    offline branch then replaces the requested tag by the newest local one. *)
Theorem C4_override_lost_offline :
  let run := resolve_tags env_offline (args_api_tag "2.8.0") world_two_api_images in
  returned run = true /\ tag (dc (final_world run) restapi) = Some "3.1.0".
Proof. split; vm_compute; reflexivity. Qed.

(** With Docker Hub reachable the same request is honoured: the tag
    stays 2.8.0. *)
Lemma override_kept_online :
  let run := resolve_tags env_no_manifest (args_api_tag "2.8.0") world_two_api_images in
  returned run = true /\ tag (dc (final_world run) restapi) = Some "2.8.0".
Proof. split; vm_compute; reflexivity. Qed.

(** C5 as the specification states it fails: with the manifest unreachable, no
    override and local tags 1.2.0, 1.3.0 and latest, the tag is latest as
    soon as Docker Hub answers. *)
Lemma C5_counterexample :
  let run := resolve_tags env_no_manifest args0 world_three_tags in
  returned run = true /\ tag (dc (final_world run) restapi) = Some "latest".
Proof. split; vm_compute; reflexivity. Qed.

(** The two examples of the specification, on a machine that reaches
    neither the manifest nor Docker Hub. *)
Lemma newest_of_three_tags :
  let run := resolve_tags env_offline args0 world_three_tags in
  returned run = true /\ tag (dc (final_world run) restapi) = Some "1.3.0".
Proof. split; vm_compute; reflexivity. Qed.

Lemma latest_when_alone :
  let run := resolve_tags env_offline args0 world_latest_only in
  returned run = true /\ tag (dc (final_world run) restapi) = Some "latest".
Proof. split; vm_compute; reflexivity. Qed.

(** ** The offline branch in general *)

Lemma images_list_name_tagged n w i : i ∈ images_list_name n w -> RepoTags i <> [].
Proof.
  unfold images_list_name. rewrite list_elem_of_In, filter_In.
  intros [_ H] E. rewrite E in H. discriminate.
Qed.

Lemma images_to_sort_ok many imgs w :
  Forall (fun i => RepoTags i <> []) imgs ->
  images_to_sort many imgs w
  = Done (drop_latest many (omap (fun i => head (RepoTags i)) imgs)) w.
Proof.
  induction 1 as [|i imgs Hi _ IH]; simpl.
  - by destruct many.
  - unfold bind, first_tag. destruct (RepoTags i) as [|t ts] eqn:E; [done|].
    simpl. rewrite IH. unfold drop_latest. destruct many; simpl; [|done].
    by destruct (Str.contains "latest" t).
Qed.

Lemma count_cons c d r :
  Str.count c (String d r) = ((if Ascii.eqb c d then 1 else 0) + Str.count c r)%nat.
Proof. reflexivity. Qed.

Lemma split1_cons sep c r :
  Str.split1 sep (String c r)
  = if Ascii.eqb c sep then Some (EmptyString, r)
    else match Str.split1 sep r with
         | Some (a, b) => Some (String c a, b)
         | None => None
         end.
Proof. reflexivity. Qed.

Lemma split1_app_colon n t :
  Str.count ":" n = 0%nat -> Str.split1 ":" (n ++ ":" ++ t) = Some (n, t).
Proof.
  induction n as [|c n IH]; [done|].
  change (String c n ++ ":" ++ t) with (String c (n ++ ":" ++ t)).
  rewrite count_cons, split1_cons, (Ascii.eqb_sym ":" c).
  destruct (Ascii.eqb c ":"); [done|].
  intros H. by rewrite IH.
Qed.

Lemma split_pair_ok n t w :
  Str.count ":" n = 0%nat -> Str.count ":" t = 0%nat ->
  split_pair (n ++ ":" ++ t) w = Done (n, t) w.
Proof.
  intros Hn Ht. unfold split_pair. rewrite (split1_app_colon _ _ Hn), Ht. reflexivity.
Qed.

Lemma key_eqb_refl k : key_eqb k k = true.
Proof. by destruct k. Qed.

Lemma key_eqb_neq k k' : k <> k' -> key_eqb k k' = false.
Proof. by destruct k, k'. Qed.

Lemma dc_update_same k f d : dc_update k f d k = f (d k).
Proof. unfold dc_update. by rewrite key_eqb_refl. Qed.

Lemma dc_update_other k k' f d : k <> k' -> dc_update k f d k' = d k'.
Proof. intros H. unfold dc_update. by rewrite key_eqb_neq. Qed.

Lemma dc_update_imagename k k' f d :
  (forall s, imagename (f s) = imagename s) ->
  imagename (dc_update k f d k') = imagename (d k').
Proof. intros H. unfold dc_update. by destruct (key_eqb k k'). Qed.

Lemma dc_update_imageavailable k k' f d :
  (forall s, imageavailable (f s) = imageavailable s) ->
  imageavailable (dc_update k f d k') = imageavailable (d k').
Proof. intros H. unfold dc_update. by destruct (key_eqb k k'). Qed.

Lemma dc_with_dc f w : dc (with_dc f w) = f (dc w).
Proof. reflexivity. Qed.

Lemma images_list_name_same w0 w k :
  same_store w0 w ->
  images_list_name (imagename (dc w k)) w = images_list_name (imagename (dc w0 k)) w0.
Proof.
  intros [Hi Hk]. unfold images_list_name. rewrite Hi. by destruct (Hk k) as [-> _].
Qed.

Lemma newest_local_tag_spec k w0 w :
  same_store w0 w ->
  well_tagged w0 k ->
  exists w',
    newest_local_tag k w = Done tt w'
    /\ same_store w0 w'
    /\ (forall k', k' <> k -> tag (dc w' k') = tag (dc w k'))
    /\ (available w0 k = true -> exists t, tag (dc w' k) = Some t /\ newest_tag w0 k t).
Proof.
  intros Hs Hw. pose proof Hs as [Hi Hk].
  unfold newest_local_tag, bind, get_world.
  destruct (Hk k) as [Hn ->].
  destruct (available w0 k) eqn:Hav; [|exists w; repeat split; try done; apply Hk].
  destruct (Hw Hav) as (Hcolon & Hne & Hall).
  rewrite (images_list_name_same w0 w k Hs).
  rewrite images_to_sort_ok
    by (apply Forall_forall; intros i Hin; by eapply images_list_name_tagged).
  fold (local_refs w0 k). fold (candidates w0 k).
  destruct (sort_desc (candidates w0 k)) as [|newest rest] eqn:Es.
  { by apply sort_desc_nil in Es. }
  destruct (sort_desc_greatest _ _ _ Es) as [Hin Hmax].
  rewrite Forall_forall in Hall. destruct (Hall _ Hin) as (t & -> & Ht).
  rewrite (split_pair_ok _ _ _ Hcolon Ht).
  eexists. split; [reflexivity|]. cbn [dc with_dc images]. split; [|split].
  - split; [done|]. intros k'. destruct (Hk k') as [Hn' Ha'].
    rewrite ?dc_with_dc, dc_update_imagename, dc_update_imageavailable by done. done.
  - intros k' Hk'. rewrite ?dc_with_dc, dc_update_other; [done|]. by intros ->.
  - intros _. exists t. rewrite ?dc_with_dc, dc_update_same. split; [done|].
    split; [done|]. intros t' Hin'. specialize (Hmax _ Hin').
    by rewrite !str_leb_prefix in Hmax.
Qed.

Lemma same_store_printed w0 w out : same_store w0 w -> same_store w0 (printed out w).
Proof. by intros [Hi Hk]. Qed.

Lemma resolve_tags_offline env a w :
  access_versions env = false ->
  access_dockerhub env = false ->
  (forall k, truthy (tag_arg a k) = false) ->
  available w restapi = true ->
  (forall k, well_tagged w k) ->
  exists w',
    resolve_tags env a w = Done tt w'
    /\ forall k, available w k = true -> exists t, tag (dc w' k) = Some t /\ newest_tag w k t.
Proof.
  intros Hv Hh Ht Hapi Hwt. unfold resolve_tags, fetch_versions. rewrite Hv, Hh.
  unfold set_override.
  cbn [forM service_keys bind pinned_tag ret modify get_world].
  rewrite !Ht. cbn [bind ret modify].
  match goal with |- context [bind (print _) _ ?W] => remember W as w3 eqn:E end.
  assert (Hs : same_store w w3).
  { subst w3. split; [reflexivity|]. intros k'; split; destruct k'; reflexivity. }
  clear E. unfold bind at 1. rewrite print_printed.
  apply (same_store_printed _ _
           ["WARNING: Cannot reach Senzing resources on the net, checking for available images..."])
    in Hs.
  remember (printed _ w3) as w3' eqn:E. clear E w3.
  unfold bind at 1, get_world.
  destruct (proj2 Hs restapi) as [_ ->]. rewrite Hapi.
  unfold bind at 1. rewrite print_printed.
  apply (same_store_printed _ _
           ["INFO: Cannot access Docker Hub but a REST API server image is available to use (minimum requirement)..."])
    in Hs.
  remember (printed _ w3') as w4 eqn:E. clear E w3'.
  destruct (newest_local_tag_spec restapi w w4 Hs (Hwt restapi))
    as (w5 & E5 & Hs5 & Hoth5 & Hgood5).
  destruct (newest_local_tag_spec webapp w w5 Hs5 (Hwt webapp))
    as (w6 & E6 & Hs6 & Hoth6 & Hgood6).
  destruct (newest_local_tag_spec swagger w w6 Hs6 (Hwt swagger))
    as (w7 & E7 & Hs7 & Hoth7 & Hgood7).
  exists w7. split.
  { unfold bind. rewrite E5, E6, E7. reflexivity. }
  intros k Hk. destruct k.
  - destruct (Hgood5 Hk) as (t & Htag & Hnew). exists t. split; [|done].
    by rewrite Hoth7, Hoth6.
  - destruct (Hgood6 Hk) as (t & Htag & Hnew). exists t. split; [|done].
    by rewrite Hoth7.
  - by apply Hgood7.
Qed.

(** C5 (as amended): when neither the version manifest nor Docker Hub
    can be reached, no override is given, the API server image is
    present and the store is well tagged, the tag chosen for every
    service with a local image is a greatest one, in string order, among
    the first tags of that service's local images; a first tag whose
    reference contains [latest] takes part only when the service has a
    single local image.  Well tagged: for each service with a local
    image, the references that take part are not all left out and each
    reads [imagename:tag] with the service's image name, itself free of
    [:], and a tag free of [:]. *)
Theorem C5_newest_local_tag env a w k :
  access_versions env = false ->
  access_dockerhub env = false ->
  (forall k', truthy (tag_arg a k') = false) ->
  available w restapi = true ->
  (forall k', well_tagged w k') ->
  available w k = true ->
  returned (resolve_tags env a w) = true
  /\ exists t, tag (dc (final_world (resolve_tags env a w)) k) = Some t /\ newest_tag w k t.
Proof.
  intros Hv Hh Ht Hapi Hwt Hk.
  destruct (resolve_tags_offline env a w Hv Hh Ht Hapi Hwt) as (w' & E & H).
  rewrite E. split; [done|]. by apply H.
Qed.

Lemma C5_newest_local_tag_witness :
  returned (resolve_tags env_offline args0 world_three_tags) = true
  /\ exists t,
       tag (dc (final_world (resolve_tags env_offline args0 world_three_tags)) restapi)
       = Some t
       /\ newest_tag world_three_tags restapi t.
Proof.
  apply (C5_newest_local_tag env_offline args0 world_three_tags restapi);
    try reflexivity.
  - intros k'. destruct k'; reflexivity.
  - intros k'. destruct k'; intros Hav; try (vm_compute in Hav; discriminate Hav).
    split; [reflexivity|]. split; [vm_compute; discriminate|].
    change (candidates world_three_tags restapi)
      with [api_repo ++ ":1.2.0"; api_repo ++ ":1.3.0"].
    repeat constructor.
    + exists "1.2.0". split; reflexivity.
    + exists "1.3.0". split; reflexivity.
Defined.

(** * Starting a container *)

Lemma quiet_refl w : quiet w w.
Proof. repeat split; try done. exists []. by rewrite app_nil_r. Qed.

Lemma quiet_trans w1 w2 w3 : quiet w1 w2 -> quiet w2 w3 -> quiet w1 w3.
Proof.
  intros (A1 & A2 & A3 & A4 & A5 & A6 & A7 & o1 & A8)
         (B1 & B2 & B3 & B4 & B5 & B6 & B7 & o2 & B8).
  repeat split; try congruence.
  exists (o1 ++ o2)%list. by rewrite B8, A8, app_assoc.
Qed.

Lemma quiet_print s w : quiet w (with_console (fun c => (c ++ [s])%list) w).
Proof. repeat split; try done. by exists [s]. Qed.

Lemma quiet_queries f w : quiet w (with_queries f w).
Proof. repeat split; try done. exists []. simpl. by rewrite app_nil_r. Qed.

Lemma quiet_console_elem w w' s : quiet w w' -> s ∈ console w -> s ∈ console w'.
Proof.
  intros (_ & _ & _ & _ & _ & _ & _ & out & ->) H. apply elem_of_app. by left.
Qed.

Lemma total_inspect env nm w (Q : ContObs -> World -> Prop) :
  (forall w', quiet w w' -> Q (observe env nm (queries w)) w') ->
  total (inspect env nm) w Q.
Proof. intros H. eexists _, _. split; [reflexivity|]. apply H, quiet_queries. Qed.

Lemma total_print_quiet s w (Q : unit -> World -> Prop) :
  (forall w', quiet w w' -> Q tt w') -> total (print s) w Q.
Proof. intros H. apply total_print, H, quiet_print. Qed.

Lemma total_bind_inspect {B} env nm (k : ContObs -> M B) w (R : B -> World -> Prop) :
  (forall w', quiet w w' -> total (k (observe env nm (queries w))) w' R) ->
  total (bind (inspect env nm) k) w R.
Proof.
  intros H.
  apply (total_bind _ _ _ (fun o w' => o = observe env nm (queries w) /\ quiet w w')).
  - apply total_inspect. by intros w' Q.
  - intros o w' [-> Q]. by apply H.
Qed.

Lemma total_bind_print {B} s (k : unit -> M B) w (R : B -> World -> Prop) :
  (forall w', quiet w w' -> s ∈ console w' -> total (k tt) w' R) ->
  total (bind (print s) k) w R.
Proof.
  intros H. apply (total_bind _ _ _ (fun _ w' => quiet w w' /\ s ∈ console w')).
  - apply total_print. split; [apply quiet_print|]. simpl. set_solver.
  - intros [] w' [Q Hs]. by apply H.
Qed.

Lemma total_bind_modify {B} f (k : unit -> M B) w (R : B -> World -> Prop) :
  total (k tt) (f w) R -> total (bind (modify f) k) w R.
Proof.
  intros H. apply (total_bind _ _ _ (fun _ w' => w' = f w)).
  - by apply total_modify.
  - by intros [] w' ->.
Qed.

Lemma total_bind_ret {A B} (a : A) (k : A -> M B) w (R : B -> World -> Prop) :
  total (k a) w R -> total (bind (ret a) k) w R.
Proof. intros (b & w' & E & H). exists b, w'. split; [|done]. by unfold bind, ret. Qed.

Section NeverHealthy.

Variable env : Env.
Variable nm : string.

(** The container is never seen exited, reports a health status at
    every inspection, and that status is never [healthy]. *)
Hypothesis not_exited : forall n, obs_status (observe env nm n) <> "exited".
Hypothesis never_healthy :
  forall n, exists h, obs_health (observe env nm n) = Some h /\ h <> "healthy".

Lemma wait_running_loop n w :
  total (status_wait_loop env "running" nm n) w
    (fun r w' => quiet w w' /\ (r = None \/ r = Some "running")).
Proof.
  revert w. induction n as [|n IH]; intros w; simpl.
  - apply total_ret. split; [apply quiet_refl|by left].
  - apply total_bind_inspect. intros w1 Q1. apply total_bind_inspect. intros w2 Q2.
    destruct (Str.eqb (obs_status (observe env nm (queries w))) "running").
    + apply total_ret. split; [by eapply quiet_trans|by right].
    + apply total_bind_print. intros w4 Q4 _.
      eapply total_weaken; [apply IH|]. intros r w5 [Q5 Hr]. split; [|done].
      eauto using quiet_trans.
Qed.

Lemma wait_running w :
  total (status_wait env "Waiting for container to start..." "running" nm
           loop_cnt_default) w
    (fun r w' => quiet w w' /\ r <> "exited").
Proof.
  unfold status_wait. apply total_bind_print. intros w1 Q1 _.
  eapply total_bind; [apply wait_running_loop|]. intros r w2 [Q2 Hr].
  destruct Hr as [-> | ->].
  - apply total_bind_print. intros w3 Q3 _. apply total_bind_inspect. intros w4 Q4.
    apply total_bind_inspect. intros w5 Q5. apply total_ret.
    split; [eauto 6 using quiet_trans|apply not_exited].
  - apply total_ret. split; [eauto using quiet_trans|discriminate].
Qed.

Lemma health_status_never w o :
  (exists h, obs_health o = Some h /\ h <> "healthy") ->
  total (health_status o) w (fun h w' => w' = w /\ h <> "healthy").
Proof. intros (h & E & Hh). unfold health_status. rewrite E. by apply total_ret. Qed.

Lemma wait_healthy_loop n w :
  total (status_wait_loop env "healthy" nm n) w (fun r w' => quiet w w' /\ r = None).
Proof.
  revert w. induction n as [|n IH]; intros w; simpl.
  - apply total_ret. split; [apply quiet_refl|done].
  - apply total_bind_inspect. intros w1 Q1. apply total_bind_inspect. intros w2 Q2.
    eapply total_bind.
    { eapply total_bind; [apply health_status_never, never_healthy|].
      intros h w3 [-> Hh]. apply total_ret.
      instantiate (1 := fun b w' => w' = w2 /\ b = false). split; [done|].
      apply String.eqb_neq, Hh. }
    intros b w3 [-> ->]. apply total_bind_print. intros w4 Q4 _.
    eapply total_weaken; [apply IH|]. intros r w5 [Q5 Hr]. split; [|done].
    eauto using quiet_trans.
Qed.

Lemma wait_healthy w :
  total (status_wait env "Waiting for container to become healthy." "healthy" nm
           loop_cnt_default) w
    (fun r w' => quiet w w' /\ r <> "healthy").
Proof.
  unfold status_wait. apply total_bind_print. intros w1 Q1 _.
  eapply total_bind; [apply wait_healthy_loop|]. intros r w2 [Q2 ->].
  apply total_bind_print. intros w3 Q3 _. apply total_bind_inspect. intros w4 Q4.
  apply total_bind_inspect. intros w5 Q5.
  eapply total_weaken; [apply health_status_never, never_healthy|].
  intros h w6 [-> Hh]. split; [eauto 6 using quiet_trans|done].
Qed.

End NeverHealthy.

Lemma total_docker_logs env nm w (Q : unit -> World -> Prop) :
  (forall w', quiet w w' -> Q tt w') -> total (docker_logs env nm) w Q.
Proof.
  intros H. unfold docker_logs.
  apply total_bind_print. intros w1 Q1 _. apply total_bind_print. intros w2 Q2 _.
  apply total_print_quiet. intros w3 Q3. apply H. eauto using quiet_trans.
Qed.

Lemma docker_logs_dumped env nm w (Q : unit -> World -> Prop) :
  (forall w', quiet w w' -> logs_dumped env nm w' -> Q tt w') ->
  total (docker_logs env nm) w Q.
Proof.
  intros H. unfold docker_logs.
  apply total_bind_print. intros w1 Q1 H1. apply total_bind_print. intros w2 Q2 H2.
  apply (total_weaken _ _ (fun _ w' => quiet w2 w'
           /\ "********** End Docker Logs **********" ∈ console w')).
  - apply total_print. split; [apply quiet_print|]. simpl. set_solver.
  - intros [] w3 [Q3 H3]. apply H; [eauto using quiet_trans|].
    split; [|split]; [|by eapply quiet_console_elem|done].
    eapply quiet_console_elem; [|exact H1]. eauto using quiet_trans.
Qed.

(** C1 (as amended): with health checking on, a container whose start
    the engine accepts, that is never seen exited and at every
    inspection reports a health status other than [healthy] does not end
    the run, for the required service as for the optional ones:
    [docker_run] prints a warning and the container log, returns
    normally and records the service as started. *)
Theorem C1_unhealthy_is_a_warning env kwargs w :
  run_error env (name kwargs) = None ->
  (forall n, obs_status (observe env (name kwargs) n) <> "exited") ->
  (forall n, exists h, obs_health (observe env (name kwargs) n) = Some h
                       /\ h <> "healthy") ->
  exists w',
    docker_run env false kwargs w = Done tt w'
    /\ startedok (dc w' (container kwargs)) = Some true
    /\ started w' = (started w ++ [name kwargs])%list
    /\ unhealthy_warning (name kwargs) ∈ console w'
    /\ logs_dumped env (name kwargs) w'.
Proof.
  intros Hrun Hex Hnh.
  cut (total (docker_run env false kwargs) w
         (fun _ w' => startedok (dc w' (container kwargs)) = Some true
                      /\ started w' = (started w ++ [name kwargs])%list
                      /\ unhealthy_warning (name kwargs) ∈ console w'
                      /\ logs_dumped env (name kwargs) w')).
  { intros ([] & w' & E & H). by exists w'. }
  unfold docker_run. apply total_bind_print. intros w1 Q1 _.
  unfold containers_run. rewrite Hrun. apply total_bind_modify.
  match goal with |- total _ ?W _ => remember W as w2 eqn:E2 end.
  assert (Hst : started w2 = (started w ++ [name kwargs])%list).
  { subst w2. simpl. destruct Q1 as (_ & _ & _ & _ & _ & -> & _). done. }
  assert (Hdc : dc w2 = dc w).
  { subst w2. simpl. by destruct Q1 as (_ & _ & _ & _ & _ & _ & -> & _). }
  clear E2 Q1 w1.
  eapply total_bind; [by apply wait_running|]. intros r w3 [Q3 Hr].
  apply String.eqb_neq in Hr. unfold Str.eqb at 1. rewrite Hr.
  apply total_bind_ret. apply total_bind_inspect. intros w4 Q4.
  destruct (Hnh (queries w3)) as (h & -> & _).
  apply (total_bind _ _ _ (fun _ w' => quiet w2 w'
                                       /\ unhealthy_warning (name kwargs) ∈ console w'
                                       /\ logs_dumped env (name kwargs) w')).
  { eapply total_bind; [by apply wait_healthy|]. intros r' w5 [Q5 Hr'].
    apply String.eqb_neq in Hr'. unfold Str.eqb at 1. rewrite Hr'. simpl negb. cbv iota.
    apply total_bind_print. intros w6 Q6 Hw6. apply total_bind_inspect. intros w7 Q7.
    apply docker_logs_dumped. intros w8 Q8 Hlogs.
    split; [eauto 8 using quiet_trans|]. split; [|exact Hlogs].
    eapply quiet_console_elem; [|exact Hw6]. eauto using quiet_trans. }
  intros [] w9 (Q9 & Hw & Hlogs). apply total_modify.
  destruct Q9 as (_ & _ & _ & _ & _ & Hs9 & Hd9 & _).
  split; [simpl; by rewrite dc_update_same|]. split; [simpl; congruence|].
  split; [done|exact Hlogs].
Qed.

Lemma C1_unhealthy_is_a_warning_witness :
  exists w',
    docker_run env_unhealthy false run_api world0 = Done tt w'
    /\ startedok (dc w' (container run_api)) = Some true
    /\ started w' = (started world0 ++ [name run_api])%list
    /\ unhealthy_warning (name run_api) ∈ console w'
    /\ logs_dumped env_unhealthy (name run_api) w'.
Proof.
  apply (C1_unhealthy_is_a_warning env_unhealthy run_api world0).
  - reflexivity.
  - intros n. simpl. discriminate.
  - intros n. exists "starting". split; [reflexivity|discriminate].
Defined.

(** C1 as the specification states it fails on both counts: the required service
    that never becomes healthy does not end the run, and the optional one
    is recorded as started. *)
Lemma C1_counterexample :
  returned (docker_run env_unhealthy false run_api world0) = true
  /\ exit_code (docker_run env_unhealthy false run_api world0) = None
  /\ startedok (dc (final_world (docker_run env_unhealthy false run_web world0)) webapp)
     = Some true.
Proof. repeat split; vm_compute; reflexivity. Qed.

(** * Teardown *)

Section Teardown.

Variable env : Env.
Variable cid : string.
Variable c : Container.

Local Abbreviation kept := (kept cid c).

Lemma kept_print s : always kept (print s).
Proof. apply always_modify. by intros w H. Qed.

Lemma kept_stop other : other <> cid -> always kept (cont_stop env other).
Proof.
  intros Hne. unfold cont_stop. destruct (stop_error env other); [apply kept_print|].
  apply always_modify. intros w H. unfold kept in *. simpl.
  by rewrite lookup_alter_ne.
Qed.

Lemma kept_remove other : other <> cid -> always kept (cont_remove env other).
Proof.
  intros Hne. unfold cont_remove. destruct (remove_error env other); [apply kept_print|].
  apply always_modify. intros w H. unfold kept in *. simpl.
  by rewrite lookup_delete_ne.
Qed.

Lemma kept_stop_remove_one names do_remove ic :
  (name_in (cont_name_of (snd ic)) names = true -> fst ic <> cid) ->
  always kept (stop_remove_one env names do_remove ic).
Proof.
  intros Hic. unfold stop_remove_one.
  destruct (name_in (cont_name_of (snd ic)) names); [|apply always_ret].
  specialize (Hic eq_refl).
  apply always_bind; [apply kept_print|]. intros _.
  apply always_bind; [apply kept_print|]. intros _.
  apply always_bind; [by apply kept_stop|]. intros _.
  destruct do_remove; [|apply kept_print].
  apply always_bind; [apply kept_print|]. intros _. by apply kept_remove.
Qed.

Lemma docker_cont_list_lookup flt w ic :
  ic ∈ docker_cont_list flt w -> containers w !! fst ic = Some (snd ic).
Proof.
  unfold docker_cont_list. rewrite list_elem_of_In, filter_In, <- list_elem_of_In.
  intros [H _]. destruct ic as [i x]. by apply elem_of_map_to_list in H.
Qed.

Lemma kept_containers_stop_remove proj cr crn net sr fr w :
  kept w ->
  name_in (cont_name_of c) (project_container_names (dc w)) = false ->
  kept (final_world (containers_stop_remove env proj cr crn net sr fr w)).
Proof.
  intros Hk Hn. unfold containers_stop_remove.
  unfold bind at 1. rewrite print_printed.
  set (w1 := printed _ w).
  assert (Hk1 : kept w1) by done.
  unfold bind at 1, get_world.
  change (dc w1) with (dc w).
  assert (Hconts : forall ic, ic ∈ docker_cont_list (Some proj) w1 ->
            name_in (cont_name_of (snd ic)) (project_container_names (dc w)) = true ->
            fst ic <> cid).
  { intros ic Hin Hname E. apply docker_cont_list_lookup in Hin.
    rewrite E in Hin. unfold kept in Hk1. rewrite Hk1 in Hin.
    inversion Hin as [E']. rewrite <- E' in Hname. congruence. }
  clearbody w1.
  assert (Hmain : forall cl,
    (forall ic, ic ∈ cl ->
       name_in (cont_name_of (snd ic)) (project_container_names (dc w)) = true ->
       fst ic <> cid) ->
    always kept
      (do (if cr then
             do print "WARNING: Are you sure you want to delete the following containers? (Y/n):" then
             do print (Str.join (String "010" (String "009" ""))
                         (map (fun ic => cont_name_of (snd ic)) cl)) then
             match user_input env with
             | None => raise "EOFError"
             | Some answer =>
                 if name_in answer [""; "y"; "Y"; "yes"; "YES"] then ret tt
                 else sys_exit 0
             end
           else ret tt) then
       do forM (stop_remove_one env (project_container_names (dc w))
                  (cr || crn || sr || fr)) cl then
       if cr || crn then
         let* w' := get_world in
         match List.filter (Str.contains net) (networks w') with
         | n :: _ =>
             do print ("Removing Docker network " ++ n) then
             modify (with_networks (remove_first n))
         | [] => ret tt
         end
       else ret tt)).
  { intros cl Hcl. apply always_bind.
    { destruct cr; [|apply always_ret].
      apply always_bind; [apply kept_print|]. intros _.
      apply always_bind; [apply kept_print|]. intros _.
      destruct (user_input env); [|apply always_raise].
      apply always_if; [apply always_ret|apply always_exit]. }
    intros _. apply always_bind.
    { apply always_forM. intros ic Hin. apply kept_stop_remove_one. by apply Hcl. }
    intros _. destruct (cr || crn); [|apply always_ret].
    intros w2 Hk2. unfold bind at 1, get_world.
    destruct (List.filter _ _) as [|n ns]; [done|].
    revert w2 Hk2. apply always_bind; [apply kept_print|]. intros _.
    apply always_modify. by intros w3 H3. }
  destruct (map _ (docker_cont_list (Some proj) w1)) as [|x xs] eqn:Em.
  - destruct sr.
    + apply map_eq_nil in Em. specialize (Hmain (docker_cont_list (Some proj) w1)).
      rewrite Em in Hmain |- *. apply Hmain; [|done]. intros ic Hin. set_solver.
    + refine (always_bind kept _ _ _ _ w1 Hk1); [apply kept_print|]. intros _.
      destruct (docker_cont_list None w1); [apply always_ret|].
      apply always_bind; [apply kept_print|]. intros _.
      apply always_bind; [|intros; apply always_ret].
      apply always_forM. intros; apply kept_print.
  - rewrite <- Em. by apply Hmain.
Qed.

End Teardown.

Lemma project_container_names_init sfx :
  project_container_names (docker_containers_init sfx)
  = ["SzGo-API-" ++ sfx; "SzGo-WEB-" ++ sfx; "SzGo-Swagger-" ++ sfx].
Proof. reflexivity. Qed.

(** C10: whatever the flags and however the operation ends, a container
    whose name, without its leading slash, is not one of the three project
    container names is still in the engine afterwards, with the name and
    the status it had; this holds also when it matches the listing filter. *)
Theorem C10_other_containers_untouched env proj cr crn net sr fr w cid c :
  containers w !! cid = Some c ->
  name_in (cont_name_of c) (project_container_names (dc w)) = false ->
  containers (final_world (containers_stop_remove env proj cr crn net sr fr w)) !! cid
  = Some c.
Proof. intros Hc Hn. by apply kept_containers_stop_remove. Qed.

Lemma C10_other_containers_untouched_witness :
  containers (final_world (containers_stop_remove env0 "proj" false true "szgo-network"
                             false false world_two_containers)) !! "id2"
  = Some {| Name := "/proj-db"; status := "running" |}.
Proof.
  apply (C10_other_containers_untouched env0 "proj" false true "szgo-network" false false
           world_two_containers "id2" {| Name := "/proj-db"; status := "running" |});
    reflexivity.
Defined.

(** On the same engine the project's own container is stopped and
    removed, and the foreign one was indeed listed by the filter. *)
Lemma teardown_removes_project_container :
  let w' := final_world (containers_stop_remove env0 "proj" false true "szgo-network"
                           false false world_two_containers) in
  map fst (map_to_list (containers w')) = ["id2"]
  /\ length (docker_cont_list (Some "proj") world_two_containers) = 2%nat
  /\ networks w' = [].
Proof. repeat split; vm_compute; reflexivity. Qed.

(** * Image bundles *)

Section ScratchDirectory.

Variable d : string.

Local Abbreviation has_dir := (fun w : World => d ∈ dirs w).

Lemma has_dir_print s : always has_dir (print s).
Proof. apply always_modify. by intros w H. Qed.

Lemma has_dir_images_load c : always has_dir (images_load c).
Proof.
  destruct c; try apply always_raise. apply always_modify. by intros w H.
Qed.

Lemma has_dir_load_one e : always has_dir (load_one e).
Proof.
  unfold load_one. apply always_bind; [apply has_dir_print|]. intros _.
  destruct (snd e); [apply has_dir_images_load|apply always_raise].
Qed.

Lemma os_remove_dir w : d ∈ dirs w -> os_remove d w = None.
Proof. intros H. unfold os_remove. by rewrite decide_True. Qed.

End ScratchDirectory.

(** C9 at the code: [os.remove] cannot delete a directory, so whenever
    the archive holds at least one entry the scratch directory is still
    there when [load_images] ends, however it ends. *)
Theorem C9_scratch_directory_remains env var_path load_file_path entries w :
  files w !! load_file_path = Some (TarGz entries) ->
  entries <> [] ->
  extract_path_of env var_path
    ∈ dirs (final_world (load_images env var_path load_file_path w)).
Proof.
  intros Hf Hne. unfold load_images.
  unfold bind at 1. rewrite print_printed. unfold bind at 1, get_world.
  change (files (printed _ w)) with (files w). rewrite Hf.
  unfold bind at 1. unfold modify at 1. unfold bind at 1, get_world.
  set (dpath := extract_path_of env var_path).
  set (w1 := extractall dpath entries _).
  assert (H1 : dpath ∈ dirs w1).
  { subst w1. unfold extractall. destruct entries; [done|]. simpl. set_solver. }
  clearbody w1. unfold scandir. rewrite decide_True by done.
  refine (always_bind (fun w => dpath ∈ dirs w) _ _ _ _ w1 H1).
  - apply always_forM. intros e _. apply has_dir_load_one.
  - intros _. apply always_modify. intros w2 H2. by rewrite os_remove_dir.
Qed.

Lemma C9_scratch_directory_remains_witness :
  extract_path_of env0 "/tmp"
    ∈ dirs (final_world (load_images env0 "/tmp" "/tmp/SzGoImages_20220719_090000.tgz"
                           world_with_archive)).
Proof.
  apply (C9_scratch_directory_remains env0 "/tmp" "/tmp/SzGoImages_20220719_090000.tgz"
           [("SzGoPackage-senzing-senzing-api-server-3.1.0.tar",
             ImageTar "sha256:a1" (Some "senzing/senzing-api-server:3.1.0"))]
           world_with_archive).
  - reflexivity.
  - discriminate.
Defined.

(** The import itself succeeds on that machine: the image is loaded,
    and the extracted file is left behind with its directory. *)
Lemma import_leaves_scratch_files :
  let run := load_images env0 "/tmp" "/tmp/SzGoImages_20220719_090000.tgz"
               world_with_archive in
  returned run = true
  /\ map RepoTags (images (final_world run)) = [["senzing/senzing-api-server:3.1.0"]]
  /\ is_dir "/tmp/SzGo_Extract_20220720_120000" (final_world run) = true
  /\ is_file "/tmp/SzGo_Extract_20220720_120000/SzGoPackage-senzing-senzing-api-server-3.1.0.tar"
       (final_world run) = true.
Proof. repeat split; vm_compute; reflexivity. Qed.

(** ** Export *)

Lemma deleted_lookup paths fs p :
  deleted paths fs !! p = if decide (p ∈ paths) then None else fs !! p.
Proof.
  revert fs. induction paths as [|q paths IH]; intros fs.
  - by rewrite decide_False by set_solver.
  - change (deleted (q :: paths) fs) with (deleted paths (delete q fs)).
    rewrite IH. destruct (decide (p ∈ paths)) as [Hin|Hnin].
    + by rewrite decide_True by set_solver.
    + destruct (decide (p = q)) as [->|Hne].
      * rewrite lookup_delete_eq. by rewrite decide_True by set_solver.
      * rewrite lookup_delete_ne by done. by rewrite decide_False by set_solver.
Qed.

Lemma Forall2_lookup_delete (fs : gmap string Content) q paths cs :
  q ∉ paths ->
  Forall2 (fun p c => fs !! p = Some c) paths cs ->
  Forall2 (fun p c => delete q fs !! p = Some c) paths cs.
Proof.
  intros Hq H. induction H as [|p c paths cs Hp _ IH]; constructor.
  - rewrite lookup_delete_ne; [done|]. intros ->. set_solver.
  - apply IH. set_solver.
Qed.

Lemma tar_add_all_spec archive paths : forall es w cs,
  NoDup paths ->
  Forall2 (fun p c => files w !! p = Some c) paths cs ->
  (forall p, p ∈ paths -> p ∉ dirs w) ->
  total (tar_add_all archive es paths) w
    (fun _ w' =>
       images w' = images w /\ dirs w' = dirs w
       /\ files w'
          = <[archive := TarGz (es ++ zip (map basename paths) cs)]>
              (deleted paths (files w))).
Proof.
  induction paths as [|p paths IH]; intros es w cs Hnd Hf Hd.
  - inversion Hf; subst. simpl. apply total_modify. simpl.
    by rewrite app_nil_r.
  - inversion Hf as [|? c ? cs' Hp Hrest]; subst. simpl.
    apply NoDup_cons in Hnd as [Hnin Hnd].
    apply total_bind_get_world. rewrite Hp.
    unfold os_remove. rewrite decide_False by (apply Hd; set_solver). rewrite Hp.
    apply total_bind_modify.
    eapply total_weaken.
    + apply (IH _ _ cs' Hnd).
      * simpl. by apply Forall2_lookup_delete.
      * intros q Hq. simpl. apply Hd. set_solver.
    + intros [] w' (Hi & Hdd & Hfs). simpl in *. repeat split; try done.
      rewrite Hfs. by rewrite <- app_assoc.
Qed.

(** ** File names *)

Lemma string_of_rev_app acc s :
  fold_left (fun s c => String c s) acc s = Json.string_of_rev acc ++ s.
Proof.
  revert s. induction acc as [|c acc IH]; intros s; [done|].
  unfold Json.string_of_rev. simpl. rewrite !IH.
  by rewrite str_app_assoc.
Qed.

Lemma basename_aux_flat cur n :
  Str.count "/" n = 0%nat ->
  Json.string_of_rev (basename_aux cur n) = Json.string_of_rev cur ++ n.
Proof.
  revert cur. induction n as [|c n IH]; intros cur.
  - intros _. simpl. by rewrite str_app_nil_r.
  - rewrite count_cons. rewrite (Ascii.eqb_sym "/" c). simpl basename_aux.
    destruct (Ascii.eqb c "/"); [discriminate|]. intros H.
    rewrite IH by done. unfold Json.string_of_rev at 1. simpl.
    rewrite string_of_rev_app. by rewrite str_app_assoc.
Qed.

Lemma basename_aux_reset d n cur :
  basename_aux cur (d ++ String "/" n) = basename_aux [] n.
Proof.
  revert cur. induction d as [|c d IH]; intros cur; simpl.
  - reflexivity.
  - destruct (Ascii.eqb c "/"); apply IH.
Qed.

Lemma basename_path_join d n : Str.count "/" n = 0%nat -> basename (path_join d n) = n.
Proof.
  intros H. unfold basename, path_join.
  change (d ++ "/" ++ n) with (d ++ String "/" n).
  rewrite basename_aux_reset. by rewrite basename_aux_flat.
Qed.

Lemma count_app c a b : Str.count c (a ++ b) = (Str.count c a + Str.count c b)%nat.
Proof.
  induction a as [|x a IH]; [done|].
  change (String x a ++ b) with (String x (a ++ b)). rewrite !count_cons, IH. lia.
Qed.

Lemma count_slash_replaced s : Str.count "/" (Str.replace_char "/" "-" s) = 0%nat.
Proof.
  induction s as [|x s IH]; [done|].
  change (Str.replace_char "/" "-" (String x s))
    with (String (if Ascii.eqb x "/" then "-"%char else x) (Str.replace_char "/" "-" s)).
  rewrite count_cons, IH.
  destruct (Ascii.eqb x "/") eqn:E; [done|].
  rewrite (Ascii.eqb_sym "/" x), E. done.
Qed.

Lemma count_slash_colon_replaced s :
  Str.count "/" s = 0%nat -> Str.count "/" (Str.replace_char ":" "-" s) = 0%nat.
Proof.
  induction s as [|x s IH]; [done|].
  change (Str.replace_char ":" "-" (String x s))
    with (String (if Ascii.eqb x ":" then "-"%char else x) (Str.replace_char ":" "-" s)).
  rewrite !count_cons. intros H.
  destruct (Ascii.eqb "/" x) eqn:E; [discriminate|].
  rewrite IH by done.
  destruct (Ascii.eqb x ":"); [done|]. by rewrite E.
Qed.

Lemma package_name_flat r : Str.count "/" (package_name r) = 0%nat.
Proof.
  unfold package_name. rewrite !count_app.
  rewrite count_slash_colon_replaced by apply count_slash_replaced. reflexivity.
Qed.

Lemma basename_package_file d r : basename (package_file d r) = package_name r.
Proof. apply basename_path_join, package_name_flat. Qed.

Lemma path_join_inj d a b : path_join d a = path_join d b -> a = b.
Proof.
  unfold path_join. intros H.
  apply (inj (String.append d)) in H. by apply (inj (String.append "/")) in H.
Qed.

Lemma archive_not_package env d r : archive_file env d <> package_file d r.
Proof.
  unfold archive_file, package_file. intros H. apply path_join_inj in H.
  unfold package_name in H. simpl in H. discriminate.
Qed.

(** ** The packaging loops *)

Lemma images_get_ext r w w' : images w' = images w -> images_get r w' = images_get r w.
Proof. intros H. unfold images_get. by rewrite H. Qed.

Lemma export_of_ext r w w' : images w' = images w -> export_of w' r = export_of w r.
Proof. intros H. unfold export_of. by rewrite (images_get_ext _ _ _ H). Qed.

Lemma save_one_spec d r w c :
  d ∈ dirs w ->
  package_file d r ∉ dirs w ->
  export_of w r = Some c ->
  total (save_one d r) w
    (fun pf w' => pf = package_file d r /\ images w' = images w /\ dirs w' = dirs w
                  /\ files w' = <[package_file d r := c]> (files w)).
Proof.
  intros Hd Hnd He. unfold export_of in He.
  destruct (images_get r w) as [i|] eqn:Ei; [|done]. inversion He; subst c.
  unfold save_one. apply total_bind_get_world.
  unfold write_file, write_error. rewrite decide_True by done.
  rewrite decide_False by exact Hnd.
  apply total_bind_modify.
  rewrite (images_get_ext r w) by done. rewrite Ei.
  apply total_bind_print. intros w1 Q1 _.
  apply total_bind_modify. apply total_ret.
  destruct Q1 as (Hi & _ & _ & Hf & Hdd & _).
  simpl in *. repeat split; try done.
  rewrite Hf. unfold package_file. by rewrite insert_insert_eq.
Qed.

Lemma save_loop_spec d w0 refs : forall w cs,
  images w = images w0 ->
  d ∈ dirs w ->
  (forall r, r ∈ refs -> package_file d r ∉ dirs w) ->
  Forall2 (fun r c => export_of w0 r = Some c) refs cs ->
  total (forM (save_one d) refs) w
    (fun pfs w' => pfs = map (package_file d) refs /\ images w' = images w0
                   /\ dirs w' = dirs w /\ files w' = packaged d w0 refs (files w)).
Proof.
  induction refs as [|r refs IH]; intros w cs Hi Hd Hnd Hf.
  - simpl. by apply total_ret.
  - inversion Hf as [|? c ? cs' Hc Hrest]; subst. simpl.
    eapply total_bind.
    { apply (save_one_spec d r w c Hd); [apply Hnd; set_solver|].
      by rewrite (export_of_ext r w0 w). }
    intros pf w1 (-> & Hi1 & Hd1 & Hf1).
    eapply total_bind.
    { apply (IH w1 cs'); [congruence|by rewrite Hd1| |done].
      intros r' Hr'. rewrite Hd1. apply Hnd. set_solver. }
    intros pfs w2 (-> & Hi2 & Hd2 & Hf2). apply total_ret.
    repeat split; try congruence.
    rewrite Hf2, Hf1. unfold packaged. simpl. by rewrite Hc.
Qed.

Lemma packaged_lookup_other d w refs fs p :
  p ∉ map (package_file d) refs -> packaged d w refs fs !! p = fs !! p.
Proof.
  revert fs. induction refs as [|r refs IH]; intros fs Hp; [done|].
  unfold packaged in *. simpl. rewrite IH by set_solver.
  destruct (export_of w r); [|done]. rewrite lookup_insert_ne; [done|]. set_solver.
Qed.

Lemma packaged_lookup d w refs : forall fs cs,
  NoDup (map (package_file d) refs) ->
  Forall2 (fun r c => export_of w r = Some c) refs cs ->
  Forall2 (fun p c => packaged d w refs fs !! p = Some c) (map (package_file d) refs) cs.
Proof.
  induction refs as [|r refs IH]; intros fs cs Hnd Hf.
  - inversion Hf. constructor.
  - inversion Hf as [|? c ? cs' Hc Hrest]; subst.
    simpl in Hnd. apply NoDup_cons in Hnd as [Hnin Hnd]. simpl. constructor.
    + change (packaged d w (r :: refs) fs)
        with (packaged d w refs (match export_of w r with
                                 | Some c => <[package_file d r := c]> fs
                                 | None => fs end)).
      rewrite packaged_lookup_other by done. rewrite Hc. apply lookup_insert_eq.
    + change (packaged d w (r :: refs) fs)
        with (packaged d w refs (match export_of w r with
                                 | Some c => <[package_file d r := c]> fs
                                 | None => fs end)).
      by apply IH.
Qed.

Lemma check_loop (fail : string -> M string) refs w :
  (forall r, r ∈ refs -> is_Some (images_get r w)) ->
  forM (fun img => do ret tt then
                   let* w0 := get_world in
                   match images_get img w0 with
                   | Some _ => ret img
                   | None => fail img
                   end) refs w
  = Done refs w.
Proof.
  induction refs as [|r refs IH]; intros H; [done|].
  eapply forM_cons_done; [|apply IH; intros; apply H; set_solver].
  unfold bind, ret, get_world. destruct (H r) as [i ->]; [set_solver|]. reflexivity.
Qed.

Lemma Forall2_elem_l {A B} (P : A -> B -> Prop) xs ys x :
  Forall2 P xs ys -> x ∈ xs -> exists y, y ∈ ys /\ P x y.
Proof.
  induction 1 as [|x' y' xs ys Hxy _ IH]; [set_solver|].
  intros [->|Hin]%elem_of_cons.
  - exists y'. split; [set_solver|done].
  - destruct (IH Hin) as (y & Hy & HP). exists y. split; [set_solver|done].
Qed.

Lemma images_get_exists r w :
  is_Some (images_get r w) -> docker_image_exists r w = true.
Proof.
  intros [i Hi]. unfold images_get in Hi. apply find_some in Hi as [Hin Hex].
  apply existsb_exists in Hex as (t & Ht & Hm).
  unfold docker_image_exists, images_list_name.
  destruct (List.filter _ _) eqn:E; [|done]. exfalso.
  eapply (filter_nonempty _ _ i); [exact Hin| |exact E].
  apply existsb_exists. exists t. split; [done|]. unfold tag_matches.
  apply orb_true_iff in Hm as [Hm|Hm]; apply String.eqb_eq in Hm as ->.
  - unfold Str.eqb. by rewrite String.eqb_refl.
  - apply orb_true_iff. right.
    change (r ++ ":latest") with (r ++ (":" ++ "latest")).
    rewrite <- str_app_assoc. apply startswith_app.
Qed.

(** The first loop of [save_images] on images that are all at hand,
    no pull being forced: whether or not Docker Hub answers, nothing is
    pulled and only the console changes. *)
Lemma check_loop_local env fp refs : forall w,
  access_dockerhub env && fp = false ->
  (forall r, r ∈ refs -> is_Some (images_get r w)) ->
  total (forM (fun img =>
                 do (if access_dockerhub env
                     then let* _ := docker_pull env img fp in ret tt
                     else ret tt) then
                 let* w0 := get_world in
                 match images_get img w0 with
                 | None =>
                     do print ("ERROR: Image " ++ img
                                 ++ " isn't available to save, can't complete request.")
                     then sys_exit 1
                 | Some _ => ret img
                 end) refs) w
    (fun l w' => l = refs /\ quiet w w').
Proof.
  induction refs as [|r refs IH]; intros w Hpull H.
  - simpl. apply total_ret. split; [done|apply quiet_refl].
  - simpl forM. eapply total_bind.
    { apply (total_bind _ _ _ (fun _ w' => quiet w w')).
      - destruct (access_dockerhub env); [|apply total_ret, quiet_refl].
        simpl in Hpull. subst fp.
        apply (total_bind _ _ _ (fun _ w' => quiet w w'));
          [|intros ? ? ?; by apply total_ret].
        unfold docker_pull. apply total_bind_get_world.
        rewrite images_get_exists by (apply H; set_solver). simpl.
        apply total_bind_print. intros w1 Q1 _. by apply total_ret.
      - intros [] w1 Q1. apply total_bind_get_world.
        rewrite (images_get_ext r w w1) by apply Q1.
        destruct (H r) as [i ->]; [set_solver|].
        apply total_ret. instantiate (1 := fun a w' => a = r /\ quiet w w'). done. }
    intros a w1 [-> Q1]. eapply total_bind.
    { apply IH; [done|]. intros r' Hr'. rewrite (images_get_ext r' w w1) by apply Q1.
      apply H. set_solver. }
    intros l w2 [-> Q2]. apply total_ret. split; [done|]. eauto using quiet_trans.
Qed.

Lemma export_ok env refs d nw ns fp w cs :
  access_dockerhub env && fp = false ->
  refs <> [] ->
  d ∈ dirs w ->
  NoDup (map (package_file d) refs) ->
  (forall r, r ∈ refs -> package_file d r ∉ dirs w) ->
  archive_file env d ∉ dirs w ->
  Forall2 (fun r c => export_of w r = Some c) refs cs ->
  total (save_images env refs d nw ns fp) w
    (fun a w' =>
       a = archive_file env d /\ images w' = images w
       /\ files w'
          = <[archive_file env d := TarGz (zip (map package_name refs) cs)]>
              (deleted (map (package_file d) refs) (packaged d w refs (files w)))).
Proof.
  intros Hpull Hne Hd Hnd Hnotdir Harch Hexp. unfold save_images.
  apply (total_bind _ _ _ (fun _ w' => quiet w w')).
  { destruct (access_dockerhub env); [apply total_ret, quiet_refl|].
    apply total_print, quiet_print. }
  intros [] w0 Q0.
  destruct refs as [|r0 rs]; [done|]. clear Hne.
  set (refs := r0 :: rs) in *.
  eapply total_bind.
  { apply (check_loop_local env fp refs w0 Hpull).
    intros r Hr. rewrite (images_get_ext r w w0) by apply Q0.
    destruct (Forall2_elem_l _ _ _ _ Hexp Hr) as (c & _ & Hc).
    unfold export_of in Hc. by destruct (images_get r w). }
  intros l w1 [-> Q1'].
  assert (Q1 : quiet w w1) by eauto using quiet_trans.
  pose proof Q1 as (Hi1 & _ & _ & Hf1 & Hd1 & _).
  subst refs. cbv iota. set (refs := r0 :: rs) in *.
  eapply total_bind.
  { apply (save_loop_spec d w refs w1 cs); [done|by rewrite Hd1| |done].
    intros r Hr. rewrite Hd1. by apply Hnotdir. }
  intros pfs w2 (-> & Hi2 & Hd2 & Hf2).
  apply total_bind_print. intros w3 Q3 _.
  destruct Q3 as (Hi3 & _ & _ & Hf3 & Hd3 & _).
  apply total_bind_get_world. unfold write_error.
  rewrite decide_True by congruence.
  rewrite decide_False by (rewrite Hd3, Hd2, Hd1; exact Harch).
  eapply total_bind.
  { apply (tar_add_all_spec _ _ [] w3 cs Hnd).
    - rewrite Hf3, Hf2, Hf1. by apply packaged_lookup.
    - intros p Hp. rewrite Hd3, Hd2, Hd1.
      apply list_elem_of_fmap in Hp as (r & -> & Hr). by apply Hnotdir. }
  intros [] w4 (Hi4 & Hd4 & Hf4).
  apply total_bind_print. intros w5 Q5 _.
  destruct Q5 as (Hi5 & _ & _ & Hf5 & Hd5 & _).
  apply total_ret. split; [done|]. split; [congruence|].
  assert (Hb : map basename (map (package_file d) refs) = map package_name refs).
  { rewrite map_map. apply map_ext. intros r. apply basename_package_file. }
  rewrite Hf5, Hf4, Hf3, Hf2, Hf1, Hb. reflexivity.
Qed.

(** ** The image store *)

Lemma name_in_elem n l : name_in n l = true <-> n ∈ l.
Proof.
  unfold name_in. rewrite existsb_exists. split.
  - intros (x & Hin & E). apply String.eqb_eq in E as ->. by apply list_elem_of_In.
  - intros H. exists n. split; [by apply list_elem_of_In|apply String.eqb_refl].
Qed.

Lemma untag_keeps r tags i : r ∉ tags -> r ∈ RepoTags i -> r ∈ RepoTags (untag tags i).
Proof.
  intros Hn Hr. unfold untag. simpl. apply list_elem_of_In, filter_In.
  split; [by apply list_elem_of_In|].
  destruct (name_in r tags) eqn:E; [|done]. by apply name_in_elem in E.
Qed.

Lemma tagged_merge r img store :
  tagged r store ->
  tagged r (map (fun i => if Str.eqb (image_id i) (image_id img)
                          then {| image_id := image_id i;
                                  RepoTags := (RepoTags i ++ RepoTags img)%list |}
                          else i) store).
Proof.
  intros (i & Hi & Hr).
  eexists. split; [apply list_elem_of_fmap; exists i; split; [reflexivity|done]|].
  destruct (Str.eqb (image_id i) (image_id img)); [|done]. simpl. set_solver.
Qed.

Lemma store_add_tagged r img store :
  tagged r store \/ r ∈ RepoTags img -> tagged r (store_add img store).
Proof.
  intros H. unfold store_add.
  destruct (decide (r ∈ RepoTags img)) as [Hin|Hnin].
  - destruct (existsb _ _) eqn:E.
    + apply existsb_exists in E as (i & Hi & Eid).
      eexists. split; [apply list_elem_of_fmap; exists i; split; [reflexivity|]|].
      * by apply list_elem_of_In.
      * rewrite Eid. simpl. set_solver.
    + exists img. split; [set_solver|done].
  - destruct H as [(i & Hi & Hr)|H]; [|done].
    assert (Ht : tagged r (map (untag (RepoTags img)) store)).
    { exists (untag (RepoTags img) i). split; [|by apply untag_keeps].
      apply list_elem_of_fmap. by exists i. }
    destruct (existsb _ _); [by apply tagged_merge|].
    destruct Ht as (j & Hj & Hrj). exists j. split; [set_solver|done].
Qed.

Lemma tagged_images_get r w : tagged r (images w) -> is_Some (images_get r w).
Proof.
  intros (i & Hi & Hr). unfold images_get.
  destruct (find _ _) eqn:E; [eauto|].
  apply list_elem_of_In in Hi. eapply find_none in E; [|exact Hi].
  apply not_true_iff_false in E. exfalso. apply E.
  apply existsb_exists. exists r. split; [by apply list_elem_of_In|].
  by rewrite String.eqb_refl.
Qed.

(** ** Import *)

Lemma extracted_lookup_other d entries : forall fs p,
  (forall n, n ∈ map fst entries -> p <> path_join d n) ->
  extracted d entries fs !! p = fs !! p.
Proof.
  induction entries as [|e es IH]; intros fs p H; [done|].
  change (extracted d (e :: es) fs) with (extracted d es (<[path_join d (fst e) := snd e]> fs)).
  rewrite IH by (intros; apply H; set_solver).
  rewrite lookup_insert_ne; [done|]. intros E. eapply H; [|by symmetry]. set_solver.
Qed.

Lemma extracted_lookup d entries : forall fs n c,
  NoDup (map fst entries) ->
  (n, c) ∈ entries ->
  extracted d entries fs !! path_join d n = Some c.
Proof.
  induction entries as [|e es IH]; intros fs n c Hnd Hin; [set_solver|].
  change (extracted d (e :: es) fs) with (extracted d es (<[path_join d (fst e) := snd e]> fs)).
  simpl in Hnd. apply NoDup_cons in Hnd as [Hnin Hnd].
  apply elem_of_cons in Hin as [<-|Hin].
  - rewrite extracted_lookup_other; [apply lookup_insert_eq|].
    intros m Hm E. apply path_join_inj in E. simpl in *. congruence.
  - by apply IH.
Qed.

Lemma extracted_lookup_inv d entries : forall fs p c,
  extracted d entries fs !! p = Some c ->
  (exists n, (n, c) ∈ entries /\ p = path_join d n) \/ fs !! p = Some c.
Proof.
  induction entries as [|e es IH]; intros fs p c H; [by right|].
  change (extracted d (e :: es) fs)
    with (extracted d es (<[path_join d (fst e) := snd e]> fs)) in H.
  apply IH in H as [(n & Hn & ->)|H].
  - left. exists n. split; [set_solver|done].
  - destruct (decide (path_join d (fst e) = p)) as [<-|Hne].
    + rewrite lookup_insert_eq in H. inversion H; subst. left. exists (fst e).
      split; [|done]. destruct e; set_solver.
    + rewrite lookup_insert_ne in H by done. by right.
Qed.

Lemma strip_prefix_app p s : strip_prefix p (p ++ s) = Some s.
Proof.
  induction p as [|x p IH]; [by destruct s|].
  change (String x p ++ s) with (String x (p ++ s)). simpl.
  by rewrite Ascii.eqb_refl.
Qed.

Lemma strip_prefix_path_join d n : strip_prefix (d ++ "/") (path_join d n) = Some n.
Proof.
  unfold path_join. rewrite <- str_app_assoc. apply strip_prefix_app.
Qed.

Lemma load_loop found : forall w,
  Forall (fun e => exists id nm, snd e = Some (ImageTar id nm)) found ->
  total (forM load_one found) w
    (fun _ w' =>
       forall r, tagged r (images w)
                 \/ (exists n id, (n, Some (ImageTar id (Some r))) ∈ found) ->
                 tagged r (images w')).
Proof.
  induction found as [|e found IH]; intros w Hall.
  - simpl. apply total_ret. intros r [H|(n & id & H)]; [done|set_solver].
  - apply Forall_cons in Hall as [(id & nm & He) Hall]. simpl.
    eapply total_bind.
    { unfold load_one. rewrite He. apply total_bind_print. intros w1 Q1 _.
      apply total_modify.
      instantiate (1 := fun _ w' =>
        forall r, tagged r (images w) \/ nm = Some r -> tagged r (images w')).
      simpl. intros r Hr. apply store_add_tagged.
      destruct Q1 as (-> & _). destruct Hr as [Hr| ->]; [by left|right; set_solver]. }
    intros [] w2 H2. eapply total_bind; [by apply IH|].
    intros ys w3 H3. apply total_ret. intros r Hr. apply H3.
    destruct Hr as [Hr|(n & id' & Hin)].
    + left. apply H2. by left.
    + apply elem_of_cons in Hin as [<-|Hin].
      * left. apply H2. right. simpl in He. congruence.
      * right. eauto.
Qed.

Lemma import_ok env var_path lp w entries :
  files w !! lp = Some (TarGz entries) ->
  entries <> [] ->
  NoDup (map fst entries) ->
  image_entries entries ->
  fresh_dir (extract_path_of env var_path) w ->
  total (load_images env var_path lp) w
    (fun _ w' => forall n id r, (n, ImageTar id (Some r)) ∈ entries ->
                                tagged r (images w')).
Proof.
  intros Hf Hne Hnd Himg Hfresh. unfold load_images.
  unfold image_entries in Himg. rewrite Forall_forall in Himg.
  set (d := extract_path_of env var_path) in *.
  apply total_bind_print. intros w1 Q1 _.
  destruct Q1 as (Hi1 & _ & _ & Hf1 & Hd1 & _).
  apply total_bind_get_world. rewrite Hf1, Hf.
  apply total_bind_modify. apply total_bind_get_world.
  assert (Hfs : files (extractall d entries w1) = extracted d entries (files w)).
  { unfold extractall. destruct entries; [done|]. simpl. by rewrite Hf1. }
  assert (Hdir : d ∈ dirs (extractall d entries w1)).
  { unfold extractall. destruct entries; [done|]. simpl. set_solver. }
  assert (Him : images (extractall d entries w1) = images w).
  { unfold extractall. by destruct entries. }
  unfold scandir. rewrite decide_True by done. rewrite Hfs.
  set (found := omap _ _).
  assert (Hfound_all : Forall (fun e => exists id nm, snd e = Some (ImageTar id nm)) found).
  { apply Forall_forall. intros e He. subst found.
    apply list_elem_of_omap in He as ([p c] & Hpc & Hg). simpl in Hg.
    apply elem_of_map_to_list in Hpc.
    apply extracted_lookup_inv in Hpc as [(n & Hn & ->)|Hold].
    - rewrite strip_prefix_path_join in Hg.
      destruct (Himg _ Hn) as [Hflat (id & nm & Hc)].
      simpl in *. rewrite Hflat in Hg. simpl in Hg. inversion Hg; subst e. simpl.
      exists id, nm. by rewrite Hc.
    - rewrite (Hfresh _ _ Hold) in Hg. discriminate. }
  assert (Hfound_in : forall n id r, (n, ImageTar id (Some r)) ∈ entries ->
            (n, Some (ImageTar id (Some r))) ∈ found).
  { intros n id r Hn. subst found. apply list_elem_of_omap.
    exists (path_join d n, ImageTar id (Some r)). split.
    - apply elem_of_map_to_list. by apply extracted_lookup.
    - simpl. rewrite strip_prefix_path_join.
      destruct (Himg _ Hn) as [Hflat _].
      simpl in Hflat. by rewrite Hflat. }
  clearbody found.
  eapply total_bind; [by apply load_loop|].
  intros ys w2 H2. apply total_modify.
  intros n id r Hn.
  assert (Ht : tagged r (images w2)) by (apply H2; right; eauto).
  unfold os_remove. destruct (decide (d ∈ dirs w2)); [done|].
  by destruct (files w2 !! d).
Qed.

(** ** Round trip *)

Lemma exports_exist w refs :
  (forall r, r ∈ refs ->
     exists i, images_get r w = Some i /\ head (RepoTags i) = Some r) ->
  exists cs,
    Forall2 (fun r c => export_of w r = Some c) refs cs
    /\ Forall2 (fun r c => exists id, c = ImageTar id (Some r)) refs cs.
Proof.
  induction refs as [|r refs IH]; intros H.
  - exists []. split; constructor.
  - destruct IH as (cs & H1 & H2); [intros; apply H; set_solver|].
    destruct (H r) as (i & Hi & Hh); [set_solver|].
    exists (image_save i :: cs). split; constructor; try done.
    + unfold export_of. by rewrite Hi.
    + exists (image_id i). unfold image_save. by rewrite Hh.
Qed.

Lemma entries_props refs cs :
  Forall2 (fun r c => exists id, c = ImageTar id (Some r)) refs cs ->
  map fst (zip (map package_name refs) cs) = map package_name refs
  /\ image_entries (zip (map package_name refs) cs)
  /\ forall r, r ∈ refs ->
       exists id, (package_name r, ImageTar id (Some r)) ∈ zip (map package_name refs) cs.
Proof.
  induction 1 as [|r c refs cs (id & ->) _ (IH1 & IH2 & IH3)].
  - repeat split; [constructor|set_solver].
  - simpl. split; [by rewrite IH1|]. split.
    + constructor; [|done]. split; [apply package_name_flat|simpl; eauto].
    + intros r' [->|Hin]%elem_of_cons; [exists id; set_solver|].
      destruct (IH3 _ Hin) as (id' & H'). exists id'. set_solver.
Qed.

(** C8 (as amended): for a non-empty list of references, each the first
    tag of a locally present image, whose intermediate file names are
    pairwise distinct, packaging into an existing directory in which
    neither these names nor the name of the archive are those of
    directories, no pull being forced (Docker Hub may answer or not),
    returns the one archive and leaves none of the intermediate files;
    loading that archive through a scratch directory that holds nothing
    yet returns normally and makes every packaged reference an image of
    the store again. *)
Theorem C8_round_trip env refs d nw ns fp w env2 var_path lp :
  access_dockerhub env && fp = false ->
  refs <> [] ->
  d ∈ dirs w ->
  NoDup (map package_name refs) ->
  (forall r, r ∈ refs -> package_file d r ∉ dirs w) ->
  archive_file env d ∉ dirs w ->
  (forall r, r ∈ refs ->
     exists i, images_get r w = Some i /\ head (RepoTags i) = Some r) ->
  exists w1 entries,
    save_images env refs d nw ns fp w = Done (archive_file env d) w1
    /\ files w1 !! archive_file env d = Some (TarGz entries)
    /\ (forall r, r ∈ refs -> files w1 !! package_file d r = None)
    /\ forall w2,
         files w2 !! lp = Some (TarGz entries) ->
         fresh_dir (extract_path_of env2 var_path) w2 ->
         exists w3,
           load_images env2 var_path lp w2 = Done tt w3
           /\ forall r, r ∈ refs -> is_Some (images_get r w3).
Proof.
  intros Hacc Hne Hd Hnd Hnotdir Harch Himgs.
  destruct (exports_exist w refs Himgs) as (cs & Hexp & Hshape).
  destruct (entries_props refs cs Hshape) as (Hfst & Hentries & Hin).
  assert (Hnd' : NoDup (map (package_file d) refs)).
  { change (map (package_file d) refs)
      with (map (fun r => path_join d (package_name r)) refs).
    rewrite <- (map_map package_name (path_join d)).
    assert (Hinj : Inj (=) (=) (path_join d)) by (intros a b; apply path_join_inj).
    by apply (NoDup_fmap_2 (path_join d)). }
  destruct (export_ok env refs d nw ns fp w cs Hacc Hne Hd Hnd' Hnotdir Harch Hexp)
    as (a & w1 & Esave & -> & Hi1 & Hf1).
  exists w1, (zip (map package_name refs) cs).
  split; [done|]. split; [rewrite Hf1; apply lookup_insert_eq|]. split.
  { intros r Hr. rewrite Hf1.
    rewrite lookup_insert_ne by apply archive_not_package.
    rewrite deleted_lookup. rewrite decide_True; [done|].
    apply list_elem_of_fmap. by exists r. }
  intros w2 Hf2 Hfresh.
  destruct (import_ok env2 var_path lp w2 (zip (map package_name refs) cs))
    as ([] & w3 & Eload & Htag); try done.
  { destruct refs; [done|]. inversion Hshape; subst. discriminate. }
  { by rewrite Hfst. }
  exists w3. split; [done|]. intros r Hr.
  destruct (Hin r Hr) as (id & Hid). apply tagged_images_get. by eapply Htag.
Qed.

Lemma C8_round_trip_witness :
  exists w1 entries,
    save_images env_offline refs_export "/tmp" false false false world_export
    = Done (archive_file env_offline "/tmp") w1
    /\ files w1 !! archive_file env_offline "/tmp" = Some (TarGz entries)
    /\ (forall r, r ∈ refs_export -> files w1 !! package_file "/tmp" r = None)
    /\ forall w2,
         files w2 !! "/in/bundle.tgz" = Some (TarGz entries) ->
         fresh_dir (extract_path_of env0 "/var") w2 ->
         exists w3,
           load_images env0 "/var" "/in/bundle.tgz" w2 = Done tt w3
           /\ forall r, r ∈ refs_export -> is_Some (images_get r w3).
Proof.
  apply (C8_round_trip env_offline refs_export "/tmp" false false false world_export
           env0 "/var" "/in/bundle.tgz").
  - reflexivity.
  - discriminate.
  - simpl. set_solver.
  - vm_compute. repeat (constructor; [set_solver|]). constructor.
  - intros r Hr H. simpl in H. apply elem_of_singleton in H.
    apply list_elem_of_In in Hr. simpl in Hr.
    destruct Hr as [<-|[<-|[]]]; vm_compute in H; discriminate H.
  - intros H. simpl in H. apply elem_of_singleton in H.
    vm_compute in H. discriminate H.
  - intros r Hr. apply list_elem_of_In in Hr. simpl in Hr.
    destruct Hr as [<-|[<-|[]]]; eexists; split; vm_compute; reflexivity.
Defined.

(** C8 as the specification states it fails: both references are locally present,
    yet the second image overwrites the intermediate file of the first,
    packaging ends with exit status 1, and the archive it leaves, once
    imported, does not bring back the first reference. *)
Lemma C8_counterexample :
  let export := save_images env_offline refs_collide "/tmp" false false false
                  world_collide in
  let import := load_images env0 "/var" "/in/bundle.tgz" world_import in
  package_name "repo/app:1" = package_name "repo-app:1"
  /\ exit_code export = Some 1%Z
  /\ files (final_world export) !! archive_file env_offline "/tmp" = Some collide_archive
  /\ returned import = true
  /\ images_get "repo/app:1" (final_world import) = None.
Proof. repeat split; vm_compute; reflexivity. Qed.

(** An export keeps the first tag of the image only: a reference that
    is a later tag of its image is packaged under the first tag. *)
Lemma later_tag_packaged_under_first :
  let export := save_images env_offline [api_repo ++ ":3.1.0"] "/tmp" false false false
                  world_two_tags in
  returned export = true
  /\ files (final_world export) !! archive_file env_offline "/tmp"
     = Some (TarGz [("SzGoPackage-senzing-senzing-api-server-3.1.0.tar",
                     ImageTar "sha256:a1" (Some (api_repo ++ ":latest")))]).
Proof. split; vm_compute; reflexivity. Qed.

(** * More on starting a container *)

Lemma exits_bind_total {A B} (m : M A) (k : A -> M B) w c (Q : A -> World -> Prop) R :
  total m w Q ->
  (forall a w', Q a w' -> exits c (k a) w' R) ->
  exits c (bind m k) w R.
Proof.
  intros (a & w' & Hm & HQ) Hk. destruct (Hk a w' HQ) as (w'' & Hkb & HR).
  exists w''. split; [|done]. unfold bind. by rewrite Hm.
Qed.

Lemma exits_bind_here {A B} (m : M A) (k : A -> M B) w c R :
  exits c m w R -> exits c (bind m k) w R.
Proof. intros (w' & Hm & HR). exists w'. split; [|done]. unfold bind. by rewrite Hm. Qed.

Lemma exits_sys_exit {A} c w (R : World -> Prop) : R w -> exits c (@sys_exit A c) w R.
Proof. intros H. by exists w. Qed.

Lemma exits_bind_print {B} s (k : unit -> M B) w c (R : World -> Prop) :
  (forall w', quiet w w' -> s ∈ console w' -> exits c (k tt) w' R) ->
  exits c (bind (print s) k) w R.
Proof.
  intros H. apply (exits_bind_total _ _ _ _ (fun _ w' => quiet w w' /\ s ∈ console w')).
  - apply total_print. split; [apply quiet_print|]. simpl. set_solver.
  - intros [] w' [Q Hs]. by apply H.
Qed.

Lemma exits_bind_inspect {B} env nm (k : ContObs -> M B) w c (R : World -> Prop) :
  (forall w', quiet w w' -> exits c (k (observe env nm (queries w))) w' R) ->
  exits c (bind (inspect env nm) k) w R.
Proof.
  intros H.
  apply (exits_bind_total _ _ _ _
           (fun o w' => o = observe env nm (queries w) /\ quiet w w')).
  - apply total_inspect. by intros w' Q.
  - intros o w' [-> Q]. by apply H.
Qed.

Lemma wait_never_running env nm n w :
  (forall q, obs_status (observe env nm q) <> "running") ->
  total (status_wait_loop env "running" nm n) w (fun r w' => quiet w w' /\ r = None).
Proof.
  intros Hnr. revert w. induction n as [|n IH]; intros w; simpl.
  - apply total_ret. split; [apply quiet_refl|done].
  - apply total_bind_inspect. intros w1 Q1. apply total_bind_inspect. intros w2 Q2.
    pose proof (Hnr (queries w)) as Hq. apply String.eqb_neq in Hq.
    unfold Str.eqb at 1. rewrite Hq.
    apply total_bind_print. intros w4 Q4 _.
    eapply total_weaken; [apply IH|]. intros r w5 [Q5 Hr]. split; [|done].
    eauto using quiet_trans.
Qed.

(** X1: A container found exited ends the run with status 1 after its log
    has been dumped, for the required service and the optional ones
    alike; the service is not recorded as started. *)
Theorem docker_run_exited_is_fatal env kwargs w :
  run_error env (name kwargs) = None ->
  (forall q, obs_status (observe env (name kwargs) q) = "exited") ->
  exists w',
    docker_run env false kwargs w = Exit 1 w'
    /\ logs_dumped env (name kwargs) w'
    /\ started w' = (started w ++ [name kwargs])%list
    /\ dc w' = dc w.
Proof.
  intros Hrun Hex.
  cut (exits 1 (docker_run env false kwargs) w
         (fun w' => logs_dumped env (name kwargs) w'
                    /\ started w' = (started w ++ [name kwargs])%list
                    /\ dc w' = dc w)).
  { intros (w' & E & H). by exists w'. }
  unfold docker_run. apply exits_bind_print. intros w1 Q1 _.
  unfold containers_run. rewrite Hrun.
  apply (exits_bind_total _ _ _ _ (fun _ w' =>
           started w' = (started w ++ [name kwargs])%list /\ dc w' = dc w)).
  { apply total_modify. destruct Q1 as (_ & _ & _ & _ & _ & Hs & Hd & _).
    simpl. by rewrite Hs, Hd. }
  intros [] w2 [Hs2 Hd2].
  apply (exits_bind_total _ _ _ _ (fun r w' => quiet w2 w' /\ r = "exited")).
  { unfold status_wait. apply total_bind_print. intros w3 Q3 _.
    eapply total_bind.
    { apply wait_never_running. intros q. rewrite Hex. discriminate. }
    intros r w4 [Q4 ->]. apply total_bind_print. intros w5 Q5 _.
    apply total_bind_inspect. intros w6 Q6. apply total_bind_inspect. intros w7 Q7.
    apply total_ret. split; [eauto 8 using quiet_trans|apply Hex]. }
  intros r w3 [Q3 ->]. apply exits_bind_here.
  change (Str.eqb "exited" "exited") with true. cbv iota.
  apply exits_bind_inspect. intros w4 Q4. apply exits_bind_print. intros w5 Q5 _.
  apply exits_bind_inspect. intros w6 Q6.
  apply (exits_bind_total _ _ _ _ (fun _ w' => quiet w6 w'
           /\ logs_dumped env (name kwargs) w')).
  { apply docker_logs_dumped. by intros w7 Q7 H7. }
  intros [] w7 [Q7 H7]. apply exits_sys_exit.
  assert (Q27 : quiet w2 w7) by eauto 8 using quiet_trans.
  destruct Q27 as (_ & _ & _ & _ & _ & Hs7 & Hd7 & _).
  split; [done|]. split; congruence.
Qed.

Lemma docker_run_exited_is_fatal_witness :
  exists w',
    docker_run (env_observing obs_exited) false run_web world0 = Exit 1 w'
    /\ logs_dumped (env_observing obs_exited) (name run_web) w'
    /\ started w' = (started world0 ++ [name run_web])%list
    /\ dc w' = dc world0.
Proof.
  apply (docker_run_exited_is_fatal (env_observing obs_exited) run_web world0);
    reflexivity.
Defined.

(** X2: Only [exited] is fatal while waiting for the container to run: a
    container that is never seen exited and has no health check is
    recorded as started, whether or not it was ever seen running within
    the polling bound. *)
Theorem docker_run_without_health_check env kwargs w :
  run_error env (name kwargs) = None ->
  (forall q, obs_status (observe env (name kwargs) q) <> "exited") ->
  (forall q, obs_health (observe env (name kwargs) q) = None) ->
  exists w',
    docker_run env false kwargs w = Done tt w'
    /\ startedok (dc w' (container kwargs)) = Some true
    /\ started w' = (started w ++ [name kwargs])%list
    /\ "This container doesn't report health" ∈ console w'.
Proof.
  intros Hrun Hex Hnone.
  cut (total (docker_run env false kwargs) w
         (fun _ w' => startedok (dc w' (container kwargs)) = Some true
                      /\ started w' = (started w ++ [name kwargs])%list
                      /\ "This container doesn't report health" ∈ console w')).
  { intros ([] & w' & E & H). by exists w'. }
  unfold docker_run. apply total_bind_print. intros w1 Q1 _.
  unfold containers_run. rewrite Hrun. apply total_bind_modify.
  match goal with |- total _ ?W _ => remember W as w2 eqn:E2 end.
  assert (Hst : started w2 = (started w ++ [name kwargs])%list).
  { subst w2. simpl. destruct Q1 as (_ & _ & _ & _ & _ & -> & _). done. }
  clear E2 Q1 w1.
  eapply total_bind; [by apply wait_running|]. intros r w3 [Q3 Hr].
  apply String.eqb_neq in Hr. unfold Str.eqb at 1. rewrite Hr.
  apply total_bind_ret. apply total_bind_inspect. intros w4 Q4.
  rewrite Hnone.
  apply (total_bind _ _ _ (fun _ w' => quiet w2 w'
           /\ "This container doesn't report health" ∈ console w')).
  { apply total_bind_print. intros w5 Q5 H5.
    apply total_print. split.
    - eapply quiet_trans; [|apply quiet_print]. eauto 6 using quiet_trans.
    - simpl. set_solver. }
  intros [] w9 [Q9 Hw]. apply total_modify.
  destruct Q9 as (_ & _ & _ & _ & _ & Hs9 & Hd9 & _).
  split; [simpl; by rewrite dc_update_same|]. split; [simpl; congruence|done].
Qed.

Lemma docker_run_without_health_check_witness :
  exists w',
    docker_run (env_observing obs_created) false run_api world0 = Done tt w'
    /\ startedok (dc w' (container run_api)) = Some true
    /\ started w' = (started world0 ++ [name run_api])%list
    /\ "This container doesn't report health" ∈ console w'.
Proof.
  apply (docker_run_without_health_check (env_observing obs_created) run_api world0).
  - reflexivity.
  - intros q. simpl. discriminate.
  - reflexivity.
Defined.

(** ** The polling is bounded *)

Lemma bounded_weaken {A} n n' (m : M A) : (n <= n')%nat -> bounded n m -> bounded n' m.
Proof. intros Hle H w. specialize (H w). lia. Qed.

Lemma bounded_ret {A} (a : A) : bounded 0 (ret a).
Proof. intros w. simpl. lia. Qed.

Lemma bounded_exit {A} c : bounded 0 (@sys_exit A c).
Proof. intros w. simpl. lia. Qed.

Lemma bounded_raise {A} e : bounded 0 (@raise A e).
Proof. intros w. simpl. lia. Qed.

Lemma bounded_print s : bounded 0 (print s).
Proof. intros w. simpl. lia. Qed.

Lemma bounded_inspect env nm : bounded 1 (inspect env nm).
Proof. intros w. simpl. lia. Qed.

Lemma bounded_modify f : (forall w, queries (f w) = queries w) -> bounded 0 (modify f).
Proof. intros H w. simpl. rewrite H. lia. Qed.

Lemma bounded_bind {A B} n n' (m : M A) (k : A -> M B) :
  bounded n m -> (forall a, bounded n' (k a)) -> bounded (n + n') (bind m k).
Proof.
  intros Hm Hk w. unfold bind. specialize (Hm w).
  destruct (m w) as [a w'|c w'|e w']; simpl in *; [|lia..].
  specialize (Hk a w'). lia.
Qed.

Lemma bounded_health_status o : bounded 0 (health_status o).
Proof. unfold health_status. destruct (obs_health o); [apply bounded_ret|apply bounded_raise]. Qed.

Lemma bounded_status_wait_loop env check nm n :
  bounded (2 * n) (status_wait_loop env check nm n).
Proof.
  induction n as [|n IH]; simpl status_wait_loop.
  - apply bounded_ret.
  - apply (bounded_weaken (1 + (1 + (0 + (0 + 2 * n))))); [lia|].
    apply bounded_bind; [apply bounded_inspect|]. intros s.
    apply bounded_bind; [apply bounded_inspect|]. intros a.
    destruct (_ && _).
    { apply (bounded_weaken 0); [lia|apply bounded_ret]. }
    apply bounded_bind.
    { destruct (Str.eqb check "healthy"); [|apply bounded_ret].
      apply (bounded_weaken (0 + 0)); [lia|].
      apply bounded_bind; [apply bounded_health_status|]. intros; apply bounded_ret. }
    intros b. destruct b.
    + apply (bounded_weaken (0 + 0)); [lia|].
      apply bounded_bind; [apply bounded_print|]. intros; apply bounded_ret.
    + apply bounded_bind; [apply bounded_print|]. intros; apply IH.
Qed.

Lemma bounded_status_wait env msg check nm n :
  bounded (2 * n + 2) (status_wait env msg check nm n).
Proof.
  unfold status_wait. apply (bounded_weaken (0 + (2 * n + 2))); [lia|].
  apply bounded_bind; [apply bounded_print|]. intros _.
  apply bounded_bind; [apply bounded_status_wait_loop|]. intros r.
  destruct r; [apply (bounded_weaken 0); [lia|apply bounded_ret]|].
  apply (bounded_weaken (0 + (1 + (1 + 0)))); [lia|].
  apply bounded_bind; [apply bounded_print|]. intros _.
  apply bounded_bind; [apply bounded_inspect|]. intros s.
  apply bounded_bind; [apply bounded_inspect|]. intros a.
  destruct (Str.eqb check "running"); [apply bounded_ret|apply bounded_health_status].
Qed.

Lemma bounded_docker_logs env nm : bounded 0 (docker_logs env nm).
Proof.
  unfold docker_logs. apply (bounded_weaken (0 + (0 + 0))); [lia|].
  apply bounded_bind; [apply bounded_print|]. intros _.
  apply bounded_bind; [apply bounded_print|]. intros _. apply bounded_print.
Qed.

(** X3: Whatever the engine reports and however the call ends, [docker_run]
    inspects the container at most 88 times (two waits of 20 polls with
    two inspections each, and eight more): every wait is bounded. *)
Theorem docker_run_polling_bounded env skip_health kwargs w :
  (queries (final_world (docker_run env skip_health kwargs w)) <= queries w + 88)%nat.
Proof.
  revert w. change (bounded 88 (docker_run env skip_health kwargs)).
  unfold docker_run.
  apply (bounded_weaken (0 + (0 + (42 + (2 + (1 + (43 + 0))))))); [lia|].
  apply bounded_bind; [apply bounded_print|]. intros _.
  apply bounded_bind.
  { unfold containers_run. destruct (run_error env (name kwargs)).
    - apply (bounded_weaken (0 + 0)); [lia|].
      apply bounded_bind; [apply bounded_print|]. intros; apply bounded_exit.
    - by apply bounded_modify. }
  intros _. destruct skip_health.
  { apply (bounded_weaken 0); [lia|apply bounded_ret]. }
  apply bounded_bind; [apply (bounded_status_wait _ _ _ _ 20)|]. intros r.
  apply bounded_bind.
  { destruct (Str.eqb r "exited"); [|apply (bounded_weaken 0); [lia|apply bounded_ret]].
    apply (bounded_weaken (1 + (0 + (1 + (0 + 0))))); [lia|].
    apply bounded_bind; [apply bounded_inspect|]. intros o.
    apply bounded_bind; [apply bounded_print|]. intros _.
    apply bounded_bind; [apply bounded_inspect|]. intros _.
    apply bounded_bind; [apply bounded_docker_logs|]. intros; apply bounded_exit. }
  intros _. apply bounded_bind; [apply bounded_inspect|]. intros o.
  apply bounded_bind; [|intros; by apply bounded_modify].
  destruct (obs_health o).
  - apply (bounded_weaken (42 + 1)); [lia|].
    apply bounded_bind; [apply (bounded_status_wait _ _ _ _ 20)|]. intros r'.
    destruct (negb _); [|apply (bounded_weaken 0); [lia|apply bounded_ret]].
    apply (bounded_weaken (0 + (1 + 0))); [lia|].
    apply bounded_bind; [apply bounded_print|]. intros _.
    apply bounded_bind; [apply bounded_inspect|]. intros _. apply bounded_docker_logs.
  - apply (bounded_weaken (0 + 0)); [lia|].
    apply bounded_bind; [apply bounded_print|]. intros _. apply bounded_print.
Qed.

(** * Network and images *)


(** X4: [docker_net] is idempotent: it always returns, leaves a network
    whose name matches the requested one, keeps every network that
    existed, and run again on the world it left it changes nothing. *)
Theorem docker_net_idempotent network_name w :
  exists w1,
    docker_net network_name w = Done tt w1
    /\ (exists n, n ∈ networks w1 /\ Str.contains network_name n = true)
    /\ (forall n, n ∈ networks w -> n ∈ networks w1)
    /\ docker_net network_name w1 = Done tt w1.
Proof.
  unfold docker_net, bind, get_world.
  destruct (List.filter (Str.contains network_name) (networks w)) as [|n ns] eqn:E.
  - eexists. split; [reflexivity|]. simpl. split; [|split].
    + exists network_name. split; [set_solver|apply contains_refl].
    + intros n Hn. set_solver.
    + destruct (List.filter _ (networks w ++ [network_name])) eqn:E'; [|done].
      exfalso. eapply (filter_nonempty _ _ network_name); [|apply contains_refl|exact E'].
      apply in_or_app. right. by left.
  - exists w. split; [reflexivity|]. split; [|split; [done|]].
    + exists n. assert (H : In n (List.filter (Str.contains network_name) (networks w)))
        by (rewrite E; by left).
      apply filter_In in H as [H1 H2]. split; [by apply list_elem_of_In|done].
    + by rewrite E.
Qed.

Section Pulling.

Variable w0 : World.

Local Abbreviation keeps := (same_services w0).

Lemma keeps_print s : always keeps (print s).
Proof. apply always_modify. by intros w H. Qed.

Lemma keeps_pull_image env img forced : always keeps (pull_image env img forced).
Proof.
  unfold pull_image. apply always_bind; [apply keeps_print|]. intros _.
  destruct (registry env img).
  - apply always_bind; [|intros; apply always_ret]. apply always_modify. by intros w H.
  - apply always_bind; [apply keeps_print|]. intros _.
    apply always_bind; [apply keeps_print|]. intros; apply always_ret.
Qed.

Lemma keeps_docker_pull env img force : always keeps (docker_pull env img force).
Proof.
  unfold docker_pull. destruct force; [apply keeps_pull_image|].
  apply always_bind; [apply always_get_world|]. intros w.
  destruct (negb _); [apply keeps_pull_image|].
  apply always_bind; [apply keeps_print|]. intros; apply always_ret.
Qed.

Lemma keeps_set_flag k f :
  (forall s, imagename (f s) = imagename s /\ tag (f s) = tag s
             /\ containername (f s) = containername s
             /\ containerport (f s) = containerport s
             /\ hostport (f s) = hostport s /\ startedok (f s) = startedok s) ->
  always keeps (modify (with_dc (dc_update k f))).
Proof.
  intros Hf. apply always_modify. intros w H k'. specialize (H k').
  simpl. unfold dc_update. destruct (key_eqb k k'); [|done].
  destruct (Hf (dc w k')) as (-> & -> & -> & -> & -> & ->). done.
Qed.

Lemma keeps_pull_default_image env nw ns fp key :
  always keeps (pull_default_image env nw ns fp key).
Proof.
  unfold pull_default_image. apply always_bind; [apply always_get_world|]. intros w.
  destruct (_ && _); [apply always_ret|]. destruct (_ && _); [apply always_ret|].
  destruct (tag (dc w key)); [|apply always_raise].
  apply always_bind; [apply keeps_docker_pull|]. intros r.
  apply always_bind; [|intros; by apply keeps_set_flag].
  destruct (_ && _).
  - apply always_bind; [apply keeps_print|]. intros; apply always_exit.
  - destruct r; try apply always_ret. by apply keeps_set_flag.
Qed.

Lemma keeps_pull_default_images env nw ns fp :
  always keeps (pull_default_images env nw ns fp).
Proof.
  unfold pull_default_images. apply always_bind; [apply keeps_print|]. intros _.
  apply always_bind; [|intros; apply always_ret].
  apply always_forM. intros k _. apply keeps_pull_default_image.
Qed.

End Pulling.

(** X5: Pulling only records what it found: however [pull_default_images]
    ends, the image name, tag, container name, ports and start flag of
    every service are what they were; only the two pull flags change. *)
Theorem pull_default_images_keeps_services env no_web_app no_swagger force_pull w :
  same_services w (final_world (pull_default_images env no_web_app no_swagger force_pull w)).
Proof. by apply keeps_pull_default_images. Qed.

Lemma exits_bind_get_world {B} (k : World -> M B) w c (R : World -> Prop) :
  exits c (k w) w R -> exits c (bind get_world k) w R.
Proof. intros (w' & E & H). exists w'. split; [|done]. by unfold bind, get_world. Qed.

Lemma exits_weaken {A} (m : M A) w c (Q R : World -> Prop) :
  exits c m w Q -> (forall w', Q w' -> R w') -> exits c m w R.
Proof. intros (w' & E & H) HQR. exists w'. eauto. Qed.

(** A pull that the registry cannot serve changes nothing but the console. *)
Lemma pull_image_not_found env img forced w :
  registry env img = None ->
  total (pull_image env img forced) w (fun r w' => r = PullFalse /\ quiet w w').
Proof.
  intros Hreg. unfold pull_image. apply total_bind_print. intros w1 Q1 _.
  rewrite Hreg. apply total_bind_print. intros w2 Q2 _.
  apply total_bind_print. intros w3 Q3 _. apply total_ret.
  split; [done|]. eauto using quiet_trans.
Qed.

Lemma docker_image_exists_quiet img w w' :
  quiet w w' -> docker_image_exists img w' = docker_image_exists img w.
Proof. intros (E & _). unfold docker_image_exists, images_list_name. by rewrite E. Qed.

Lemma docker_pull_not_found env img force w :
  registry env img = None ->
  force = true \/ docker_image_exists img w = false ->
  total (docker_pull env img force) w (fun r w' => r = PullFalse /\ quiet w w').
Proof.
  intros Hreg Hneed. unfold docker_pull. destruct force.
  - by apply pull_image_not_found.
  - destruct Hneed as [|Hex]; [done|]. apply total_bind_get_world.
    rewrite Hex. simpl. by apply pull_image_not_found.
Qed.

(** X6: [pull_default_images] gives up with exit status 0, of all statuses,
    when the REST API server image is neither served by the registry nor
    (unless the pull is forced) found locally; the engine's image store
    and the service table are as before, and neither of the two optional
    images has been looked at. *)
Theorem api_pull_failure_exits_zero env no_web_app no_swagger force_pull w t :
  imagename (dc w restapi) = "senzing/senzing-api-server" ->
  tag (dc w restapi) = Some t ->
  registry env ("senzing/senzing-api-server:" ++ t) = None ->
  force_pull = true \/ docker_image_exists ("senzing/senzing-api-server:" ++ t) w = false ->
  exists w', pull_default_images env no_web_app no_swagger force_pull w = Exit 0 w'
    /\ quiet w w' /\ api_pull_error ∈ console w'.
Proof.
  intros Hname Htag Hreg Hneed. unfold pull_default_images.
  apply exits_bind_print. intros w1 Q1 _.
  apply exits_bind_here. change service_keys with [restapi; webapp; swagger].
  simpl forM. apply exits_bind_here.
  unfold pull_default_image. apply exits_bind_get_world.
  assert (Hdc : dc w1 = dc w) by apply Q1. rewrite Hdc, Hname, Htag.
  change (Str.eqb "senzing/senzing-api-server" "senzing/entity-search-web-app") with false.
  change (Str.eqb "senzing/senzing-api-server" "swaggerapi/swagger-ui") with false.
  rewrite !andb_false_r.
  eapply exits_bind_total.
  - apply docker_pull_not_found; [exact Hreg|].
    destruct Hneed as [|Hex]; [by left|right].
    by rewrite (docker_image_exists_quiet _ _ _ Q1).
  - intros r w2 [-> Q2]. apply exits_bind_here. simpl.
    apply exits_bind_print. intros w3 Q3 Hin. apply exits_sys_exit.
    split; [eauto using quiet_trans|exact Hin].
Qed.

Lemma api_pull_failure_exits_zero_witness :
  exists w', pull_default_images env_empty_registry false false false
               (with_dc (dc_update restapi (set_tag "3.0.0")) world0) = Exit 0 w'
    /\ quiet (with_dc (dc_update restapi (set_tag "3.0.0")) world0) w'
    /\ api_pull_error ∈ console w'.
Proof.
  apply (api_pull_failure_exits_zero env_empty_registry false false false
           (with_dc (dc_update restapi (set_tag "3.0.0")) world0) "3.0.0").
  - reflexivity.
  - reflexivity.
  - reflexivity.
  - right. reflexivity.
Defined.
(** * Teardown: stopping, removing, declining *)

Section StopOnly.

Variable env : Env.
Variable w0 : World.

Local Abbreviation stopped := (only_stopped w0).

Lemma stopped_print s : always stopped (print s).
Proof. apply always_modify. by intros w H. Qed.

Lemma stopped_cont_stop cid : always stopped (cont_stop env cid).
Proof.
  unfold cont_stop. destruct (stop_error env cid); [apply stopped_print|].
  apply always_modify. intros w (Hn & Hi & Hc). repeat split; [done..|].
  intros j. specialize (Hc j). simpl.
  destruct (decide (cid = j)) as [->|Hne].
  - rewrite lookup_alter_eq.
    destruct (containers w0 !! j), (containers w !! j); simpl; try done.
    split; [apply Hc|by right].
  - by rewrite lookup_alter_ne.
Qed.

Lemma stopped_stop_one names ic : always stopped (stop_remove_one env names false ic).
Proof.
  unfold stop_remove_one. destruct (name_in _ _); [|apply always_ret].
  apply always_bind; [apply stopped_print|]. intros _.
  apply always_bind; [apply stopped_print|]. intros _.
  apply always_bind; [apply stopped_cont_stop|]. intros _. apply stopped_print.
Qed.

Lemma stopped_containers_stop proj net :
  always stopped (containers_stop_remove env proj false false net false false).
Proof.
  unfold containers_stop_remove.
  apply always_bind; [apply stopped_print|]. intros _.
  apply always_bind; [apply always_get_world|]. intros w.
  destruct (map _ _).
  - apply always_bind; [apply stopped_print|]. intros _.
    destruct (docker_cont_list None w); [apply always_ret|].
    apply always_bind; [apply stopped_print|]. intros _.
    apply always_bind; [|intros; apply always_ret].
    apply always_forM. intros; apply stopped_print.
  - apply always_bind; [apply always_ret|]. intros _.
    apply always_bind; [|intros; apply always_ret].
    apply always_forM. intros; apply stopped_stop_one.
Qed.

End StopOnly.

Lemma only_stopped_refl w : only_stopped w w.
Proof.
  repeat split. intros cid. destruct (containers w !! cid); [|done]. split; [done|by left].
Qed.

(** X7: Called without any removal flag, [containers_stop_remove] only ever
    stops: however it ends, the engine holds the same containers under
    the same names, each with its old status or ["exited"], and the same
    networks and images. *)
Theorem stop_never_removes env proj net w :
  only_stopped w
    (final_world (containers_stop_remove env proj false false net false false w)).
Proof. apply stopped_containers_stop, only_stopped_refl. Qed.

Lemma docker_cont_list_quiet flt w w' :
  quiet w w' -> docker_cont_list flt w' = docker_cont_list flt w.
Proof. intros (_ & E & _). unfold docker_cont_list. by rewrite E. Qed.

(** X8: When removal is requested with a prompt and the answer is not one of
    the accepted ones, [containers_stop_remove] ends with exit status 0
    before touching anything: only the console has changed. *)
Theorem teardown_declined env proj crn net sr fr w answer :
  user_input env = Some answer ->
  name_in answer accepted_answers = false ->
  docker_cont_list (Some proj) w <> [] ->
  exists w', containers_stop_remove env proj true crn net sr fr w = Exit 0 w'
    /\ quiet w w'.
Proof.
  intros Hin Hans Hne. unfold containers_stop_remove.
  apply exits_bind_print. intros w1 Q1 _. apply exits_bind_get_world.
  rewrite (docker_cont_list_quiet _ _ _ Q1).
  destruct (docker_cont_list (Some proj) w) as [|ic cl]; [done|]. simpl map.
  cbv iota. apply exits_bind_here.
  apply exits_bind_print. intros w2 Q2 _.
  apply exits_bind_print. intros w3 Q3 _.
  unfold accepted_answers in Hans. rewrite Hin, Hans. apply exits_sys_exit.
  eauto using quiet_trans.
Qed.

Lemma teardown_declined_witness :
  exists w', containers_stop_remove env_declining "proj" true false "szgo-network"
               false false world_two_containers = Exit 0 w'
    /\ quiet world_two_containers w'.
Proof.
  apply (teardown_declined env_declining "proj" false "szgo-network" false false
           world_two_containers "n").
  - reflexivity.
  - reflexivity.
  - vm_compute. discriminate.
Defined.

Section Removal.

Variable env : Env.
Hypothesis stop_ok : forall cid, stop_error env cid = None.
Hypothesis remove_ok : forall cid, remove_error env cid = None.

Lemma gone_print cid s : always (gone cid) (print s).
Proof. apply always_modify. by intros w H. Qed.

Lemma gone_stop_remove_one cid names ic :
  always (gone cid) (stop_remove_one env names true ic).
Proof.
  unfold stop_remove_one. destruct (name_in _ _); [|apply always_ret].
  apply always_bind; [apply gone_print|]. intros _.
  apply always_bind; [apply gone_print|]. intros _.
  apply always_bind.
  { unfold cont_stop. rewrite stop_ok. apply always_modify. intros w H.
    unfold gone in *. simpl. apply lookup_alter_None. exact H. }
  intros _. apply always_bind; [apply gone_print|]. intros _.
  unfold cont_remove. rewrite remove_ok. apply always_modify. intros w H.
  unfold gone in *. simpl. rewrite lookup_delete_None. by right.
Qed.

Lemma remove_one_total names ic w :
  name_in (cont_name_of (snd ic)) names = true ->
  total (stop_remove_one env names true ic) w (fun _ w' => gone (fst ic) w').
Proof.
  intros Hn. unfold stop_remove_one. rewrite Hn.
  apply total_bind_print. intros w1 _ _.
  apply total_bind_print. intros w2 _ _.
  unfold cont_stop. rewrite stop_ok. apply total_bind_modify.
  apply total_bind_print. intros w3 _ _.
  unfold cont_remove. rewrite remove_ok. apply total_modify.
  unfold gone. simpl. apply lookup_delete_eq.
Qed.

Lemma skip_one_total names ic w :
  name_in (cont_name_of (snd ic)) names = false ->
  total (stop_remove_one env names true ic) w (fun _ w' => w' = w).
Proof. intros Hn. unfold stop_remove_one. rewrite Hn. by apply total_ret. Qed.

Lemma remove_loop names cl w :
  total (forM (stop_remove_one env names true) cl) w
    (fun _ w' => forall ic, ic ∈ cl ->
                   name_in (cont_name_of (snd ic)) names = true -> gone (fst ic) w').
Proof.
  revert w. induction cl as [|ic cl IH]; intros w.
  - apply total_ret. intros ic Hin. by apply elem_of_nil in Hin.
  - simpl forM.
    destruct (name_in (cont_name_of (snd ic)) names) eqn:Hn.
    + eapply total_bind; [by apply remove_one_total|]. intros [] w1 H1.
      destruct (IH w1) as (ys & w2 & E & H2).
      pose proof (always_forM (gone (fst ic)) (stop_remove_one env names true) cl
                    (fun x _ => gone_stop_remove_one (fst ic) names x) w1 H1) as Hk.
      rewrite E in Hk. simpl in Hk.
      eapply total_bind_eq; [exact E|]. apply total_ret.
      intros ic' Hin Hn'. apply elem_of_cons in Hin as [->|Hin]; [done|by apply H2].
    + eapply total_bind; [by apply skip_one_total|]. intros [] w1 ->.
      destruct (IH w) as (ys & w2 & E & H2).
      eapply total_bind_eq; [exact E|]. apply total_ret.
      intros ic' Hin Hn'. apply elem_of_cons in Hin as [->|Hin]; [congruence|by apply H2].
Qed.

End Removal.

Lemma project_container_listed proj w cid :
  project_container proj w cid ->
  exists ic, ic ∈ docker_cont_list (Some proj) w /\ fst ic = cid
    /\ name_in (cont_name_of (snd ic)) (project_container_names (dc w)) = true.
Proof.
  intros (c & Hc & Hf & Hn). exists (cid, c). split; [|done].
  unfold docker_cont_list. rewrite list_elem_of_In, filter_In, <- list_elem_of_In.
  split; [by apply elem_of_map_to_list|done].
Qed.

(** X9: With removal requested (and confirmed, where a prompt is shown) and
    an engine that raises no error, [containers_stop_remove] returns and
    every container that the project filter lists under one of the three
    project names is gone from the engine. *)
Theorem removal_clears_project_containers env proj cr crn net sr fr w :
  (forall cid, stop_error env cid = None) ->
  (forall cid, remove_error env cid = None) ->
  cr || crn || sr || fr = true ->
  (cr = true ->
   exists answer, user_input env = Some answer
                  /\ name_in answer accepted_answers = true) ->
  exists w', containers_stop_remove env proj cr crn net sr fr w = Done tt w'
    /\ forall cid, project_container proj w cid -> containers w' !! cid = None.
Proof.
  intros Hstop Hrem Hflag Hans.
  enough (total (containers_stop_remove env proj cr crn net sr fr) w
            (fun _ w' => forall cid, project_container proj w cid -> gone cid w'))
    as ([] & w' & E & H) by eauto.
  unfold containers_stop_remove.
  apply total_bind_print. intros w1 Q1 _. apply total_bind_get_world.
  rewrite (docker_cont_list_quiet _ _ _ Q1).
  assert (Hdc : dc w1 = dc w) by apply Q1. rewrite Hdc, Hflag.
  assert (Hmain : total
      (do (if cr then
             do print "WARNING: Are you sure you want to delete the following containers? (Y/n):" then
             do print (Str.join (String "010" (String "009" ""))
                         (map (fun ic => cont_name_of (snd ic))
                            (docker_cont_list (Some proj) w))) then
             match user_input env with
             | None => raise "EOFError"
             | Some answer =>
                 if name_in answer [""; "y"; "Y"; "yes"; "YES"] then ret tt
                 else sys_exit 0
             end
           else ret tt) then
       do forM (stop_remove_one env (project_container_names (dc w)) true)
            (docker_cont_list (Some proj) w) then
       if cr || crn then
         let* w' := get_world in
         match List.filter (Str.contains net) (networks w') with
         | n :: _ =>
             do print ("Removing Docker network " ++ n) then
             modify (with_networks (remove_first n))
         | [] => ret tt
         end
       else ret tt) w1
      (fun _ w' => forall cid, project_container proj w cid -> gone cid w')).
  { apply (total_bind _ _ _ (fun _ _ => True)).
    { destruct cr; [|by apply total_ret].
      apply total_bind_print. intros w2 _ _. apply total_bind_print. intros w3 _ _.
      destruct (Hans eq_refl) as (answer & -> & Hyes).
      unfold accepted_answers in Hyes. rewrite Hyes. by apply total_ret. }
    intros [] w2 _.
    eapply total_bind; [apply (remove_loop env Hstop Hrem)|].
    intros ys w3 Hgone.
    assert (Hall : forall cid, project_container proj w cid -> gone cid w3).
    { intros cid Hpc. apply project_container_listed in Hpc as (ic & Hin & <- & Hn).
      by apply Hgone. }
    destruct (cr || crn); [|by apply total_ret].
    apply total_bind_get_world.
    destruct (List.filter _ _) as [|n ns]; [by apply total_ret|].
    apply total_bind_print. intros w4 Q4 _. apply total_modify.
    intros cid Hpc. unfold gone. simpl.
    destruct Q4 as (_ & -> & _). by apply Hall. }
  destruct (docker_cont_list (Some proj) w) as [|ic cl] eqn:Ecl.
  - simpl map. cbv iota. destruct sr; [exact Hmain|].
    apply total_bind_print. intros w2 Q2 _.
    assert (Hnone : forall w' cid, project_container proj w cid -> gone cid w').
    { intros w' cid Hpc. apply project_container_listed in Hpc as (ic & Hin & _).
      rewrite Ecl in Hin. by apply elem_of_nil in Hin. }
    destruct (docker_cont_list None w1); [apply total_ret, Hnone|].
    apply total_bind_print. intros w3 Q3 _.
    eapply total_bind; [|intros; apply total_ret, Hnone].
    apply (total_forM _ (fun _ => True)); [|done].
    intros x w' _ _. by apply total_print.
  - exact Hmain.
Qed.

Lemma removal_clears_project_containers_witness :
  exists w', containers_stop_remove env0 "proj" false true "szgo-network" false false
               world_two_containers = Done tt w'
    /\ forall cid, project_container "proj" world_two_containers cid ->
                   containers w' !! cid = None.
Proof.
  apply (removal_clears_project_containers env0 "proj" false true "szgo-network"
           false false world_two_containers).
  - reflexivity.
  - reflexivity.
  - reflexivity.
  - discriminate.
Defined.
(** * The translation, the checks and [main] *)

Section ConsoleOnly.

Variable w0 : World.

Local Abbreviation silent := (always (quiet w0)).

Lemma silent_print s : silent (print s).
Proof. apply always_modify. intros w H. eapply quiet_trans; [exact H|apply quiet_print]. Qed.

Lemma silent_item {V} k (d : Dict.t V) : silent (item k d).
Proof. unfold item. destruct (Dict.get k d); [apply always_ret|apply always_raise]. Qed.

Lemma silent_type_connection_split s : silent (type_connection_split s).
Proof.
  unfold type_connection_split. destruct (Str.split1 ":" s); [apply always_ret|].
  apply always_bind; [apply silent_print|]. intros; apply always_exit.
Qed.

Lemma silent_get_path env s : silent (get_path env s).
Proof.
  unfold get_path. apply always_bind; [apply silent_type_connection_split|].
  intros [a b]. destruct (Str.split1 "@" b) as [[? ?]|]; [apply always_ret|apply always_raise].
Qed.

Lemma silent_patch_ini_json env ini : silent (patch_ini_json env ini).
Proof.
  unfold patch_ini_json. apply always_bind.
  { unfold fix_pipeline. destruct (pipeline_fixed ini); [apply always_ret|apply always_raise]. }
  intros [[ini' sql] conn].
  apply always_bind; [apply silent_type_connection_split|]. intros [dbtype connection].
  destruct (Str.eqb (Str.lower dbtype) "sqlite3"); [|apply always_ret].
  apply always_bind.
  - destruct (is_hybrid sql); [|apply silent_get_path].
    apply always_bind; [apply silent_item|]. intros hybrid.
    apply always_bind.
    { apply always_forM. intros k _. apply always_bind; apply silent_item || (intros; apply silent_item). }
    intros strs. apply always_bind.
    { apply always_forM. intros; apply silent_get_path. }
    intros paths. destruct (1 <? _)%nat.
    + apply always_bind; [apply silent_print|]. intros _.
      apply always_bind; [|intros; apply always_exit].
      apply always_forM. intros; apply silent_print.
    + destruct (list_set paths); [apply always_raise|apply always_ret].
  - intros host. destruct (Json.loads _); [apply always_ret|apply always_raise].
Qed.

Lemma silent_mysql_check root db_type : silent (mysql_check root db_type).
Proof.
  unfold mysql_check. apply always_bind; [apply always_get_world|]. intros w.
  destruct (is_file _ w); [apply silent_print|].
  apply always_bind; [apply silent_print|]. intros; apply always_exit.
Qed.

Lemma silent_db2_check a : silent (db2_check a).
Proof.
  unfold db2_check. destruct (db2CliPath a) as [p|].
  - apply always_bind; [apply always_get_world|]. intros w.
    destruct (negb _).
    { apply always_bind; [apply silent_print|]. intros; apply always_exit. }
    destruct (files w !! _) as [[cfg| |]|].
    + destruct (List.filter _ _); [apply always_ret|].
      apply always_bind; [apply silent_print|]. intros; apply always_exit.
    + apply always_raise.
    + apply always_raise.
    + apply always_bind; [apply silent_print|]. intros; apply always_exit.
  - apply always_bind; [apply silent_print|]. intros; apply always_exit.
Qed.

End ConsoleOnly.

Lemma graceful_ret {A} P (a : A) : graceful P (ret a).
Proof. by intros w H. Qed.

Lemma graceful_exit0 {A} P : graceful P (@sys_exit A 0).
Proof. by intros w H. Qed.

Lemma graceful_modify P f : (forall w, P w -> P (f w)) -> graceful P (modify f).
Proof. intros Hf w H. by apply Hf. Qed.

Lemma graceful_get_world P : graceful P get_world.
Proof. by intros w H. Qed.

Lemma graceful_bind {A B} P (m : M A) (k : A -> M B) :
  graceful P m -> (forall a, graceful P (k a)) -> graceful P (bind m k).
Proof.
  intros Hm Hk w H. unfold bind. specialize (Hm w H).
  destruct (m w) as [a w'|c w'|e w']; [by apply Hk|done|done].
Qed.

Lemma graceful_forM {A B} P (f : A -> M B) xs :
  (forall x, graceful P (f x)) -> graceful P (forM f xs).
Proof.
  intros Hf. induction xs as [|x xs IH]; simpl; [apply graceful_ret|].
  apply graceful_bind; [apply Hf|]. intros y.
  apply graceful_bind; [apply IH|]. intros ys. apply graceful_ret.
Qed.

Lemma remove_first_elem n l x : x ∈ remove_first n l -> x ∈ l.
Proof.
  induction l as [|y l IH]; simpl; [done|].
  destruct (Str.eqb n y); [set_solver|].
  intros [->|H]%elem_of_cons; set_solver.
Qed.

Section CleanUp.

Variable env : Env.
Variable w0 : World.

Local Abbreviation clean := (graceful (cleaned_only w0)).

Lemma clean_print s : clean (print s).
Proof. apply graceful_modify. by intros w H. Qed.

Lemma clean_stop_remove_one names do_remove ic :
  clean (stop_remove_one env names do_remove ic).
Proof.
  unfold stop_remove_one. destruct (name_in _ _); [|apply graceful_ret].
  apply graceful_bind; [apply clean_print|]. intros _.
  apply graceful_bind; [apply clean_print|]. intros _.
  apply graceful_bind.
  { unfold cont_stop. destruct (stop_error env _); [apply clean_print|].
    apply graceful_modify. by intros w H. }
  intros _. destruct do_remove; [|apply clean_print].
  apply graceful_bind; [apply clean_print|]. intros _.
  unfold cont_remove. destruct (remove_error env _); [apply clean_print|].
  apply graceful_modify. by intros w H.
Qed.

Lemma clean_containers_stop_remove proj (cr : bool) crn net sr fr :
  (cr = true -> is_Some (user_input env)) ->
  clean (containers_stop_remove env proj cr crn net sr fr).
Proof.
  intros Hanswer. unfold containers_stop_remove.
  apply graceful_bind; [apply clean_print|]. intros _.
  apply graceful_bind; [apply graceful_get_world|]. intros w.
  assert (Hmain : forall cl, clean
      (do (if cr then
             do print "WARNING: Are you sure you want to delete the following containers? (Y/n):" then
             do print (Str.join (String "010" (String "009" ""))
                         (map (fun ic => cont_name_of (snd ic)) cl)) then
             match user_input env with
             | None => raise "EOFError"
             | Some answer =>
                 if name_in answer [""; "y"; "Y"; "yes"; "YES"] then ret tt
                 else sys_exit 0
             end
           else ret tt) then
       do forM (stop_remove_one env (project_container_names (dc w))
                  (cr || crn || sr || fr)) cl then
       if cr || crn then
         let* w' := get_world in
         match List.filter (Str.contains net) (networks w') with
         | n :: _ =>
             do print ("Removing Docker network " ++ n) then
             modify (with_networks (remove_first n))
         | [] => ret tt
         end
       else ret tt)).
  { intros cl. apply graceful_bind.
    { destruct cr; [|apply graceful_ret].
      apply graceful_bind; [apply clean_print|]. intros _.
      apply graceful_bind; [apply clean_print|]. intros _.
      destruct (Hanswer eq_refl) as [answer ->].
      destruct (name_in _ _); [apply graceful_ret|apply graceful_exit0]. }
    intros _. apply graceful_bind.
    { apply graceful_forM. intros ic. apply clean_stop_remove_one. }
    intros _. destruct (cr || crn); [|apply graceful_ret].
    apply graceful_bind; [apply graceful_get_world|]. intros w2.
    destruct (List.filter _ _) as [|n ns]; [apply graceful_ret|].
    apply graceful_bind; [apply clean_print|]. intros _.
    apply graceful_modify. intros w3 (H1 & H2 & H3 & H4 & H5).
    repeat split; try done. intros x Hx. simpl in Hx.
    apply H5. by apply remove_first_elem in Hx. }
  destruct (map _ (docker_cont_list (Some proj) w)) as [|x xs] eqn:Em.
  - destruct sr.
    + apply map_eq_nil in Em. specialize (Hmain (docker_cont_list (Some proj) w)).
      by rewrite Em in Hmain |- *.
    + apply graceful_bind; [apply clean_print|]. intros _.
      destruct (docker_cont_list None w); [apply graceful_ret|].
      apply graceful_bind; [apply clean_print|]. intros _.
      apply graceful_bind; [|intros; apply graceful_ret].
      apply graceful_forM. intros; apply clean_print.
  - rewrite <- Em. apply Hmain.
Qed.

End CleanUp.

(** X11: With [--containersStop] or one of the removal options, and an
    answer to read where the removal prompt is shown ([input()] at end of
    input raises [EOFError], which nothing catches), [main] ends with
    exit status 0; it creates no network, starts no container and
    changes no image, file or directory, whatever the engine answers. *)
Theorem main_cleanup_exits_zero env a senzing_root ini_file_name ini_json w :
  contStop a || contRemove a || contRemoveNoPrompt a = true ->
  (contRemove a = true -> is_Some (user_input env)) ->
  exists w', main env a senzing_root ini_file_name ini_json w = Exit 0 w'
    /\ cleaned_only w w'.
Proof.
  intros Hflag Hanswer. unfold main.
  assert (Hnet : negb (contStop a) && negb (contRemove a) && negb (contRemoveNoPrompt a)
                 = false)
    by (destruct (contStop a), (contRemove a), (contRemoveNoPrompt a); done).
  rewrite Hnet, Hflag.
  assert (G : graceful (cleaned_only w)
    (do ret tt then
     do modify (with_dc (fun d =>
          dc_update restapi (set_containername ("SzGo-API-" ++ projectSuffix a))
            (dc_update webapp (set_containername ("SzGo-WEB-" ++ projectSuffix a))
               (dc_update swagger
                  (set_containername ("SzGo-Swagger-" ++ projectSuffix a)) d)))) then
     do containers_stop_remove env (projectSuffix a) (contRemove a) (contRemoveNoPrompt a)
          (dockNet a) false false then
     @sys_exit unit 0)).
  { apply graceful_bind; [apply graceful_ret|]. intros _.
    apply graceful_bind; [apply graceful_modify; by intros w1 H1|]. intros _.
    apply graceful_bind; [by apply clean_containers_stop_remove|]. intros _.
    apply graceful_exit0. }
  assert (H0 : cleaned_only w w) by (repeat split; done).
  specialize (G w H0).
  match type of G with match ?run with _ => _ end => destruct run as [[] w'|c w'|e w'] eqn:E end.
  - exfalso. revert E. unfold bind at 1, ret. unfold bind at 1, modify.
    unfold bind at 1. destruct (containers_stop_remove _ _ _ _ _ _ _ _); discriminate.
  - destruct G as [-> G]. by exists w'.
  - done.
Qed.

Lemma main_cleanup_exits_zero_witness :
  exists w', main env0 args_remove "/opt/proj" "/opt/proj/etc/G2Module.ini" sample_ini
               world_two_containers = Exit 0 w'
    /\ cleaned_only world_two_containers w'.
Proof.
  apply (main_cleanup_exits_zero env0 args_remove "/opt/proj"
           "/opt/proj/etc/G2Module.ini" sample_ini world_two_containers).
  - reflexivity.
  - intros _. by exists "".
Defined.

Lemma always_of_quiet {A} (P : World -> Prop) (m : M A) :
  (forall w0, always (quiet w0) m) ->
  (forall w w', quiet w w' -> P w -> P w') ->
  always P m.
Proof. intros Hm HP w Hw. apply (HP w); [apply Hm, quiet_refl|done]. Qed.

Lemma started_is_quiet l d w w' : quiet w w' -> started_is l d w -> started_is l d w'.
Proof.
  intros (_ & _ & _ & _ & _ & Hs & Hd & _) [H1 H2]. split; [congruence|].
  intros k. unfold names_kept in *. by rewrite Hd.
Qed.

Lemma started_from_quiet l d w w' : quiet w w' -> started_from l d w -> started_from l d w'.
Proof.
  intros (_ & _ & _ & _ & _ & Hs & Hd & _) [H1 H2]. split; [by rewrite Hs|].
  intros k. unfold names_kept in *. by rewrite Hd.
Qed.

(** A predicate on the world that printing, inspecting and recording a
    successful start do not disturb is kept by the wait loops. *)
Section Polling.

Variable env : Env.
Variable P : World -> Prop.
Hypothesis P_print : forall s w, P w -> P (with_console (fun c => (c ++ [s])%list) w).
Hypothesis P_query : forall w, P w -> P (with_queries S w).

Lemma keep_print s : always P (print s).
Proof. apply always_modify. intros w. apply P_print. Qed.

Lemma keep_inspect nm : always P (inspect env nm).
Proof. intros w H. by apply P_query. Qed.

Lemma keep_health_status o : always P (health_status o).
Proof. unfold health_status. destruct (obs_health o); [apply always_ret|apply always_raise]. Qed.

Lemma keep_status_wait_loop check nm n : always P (status_wait_loop env check nm n).
Proof.
  induction n as [|n IH]; simpl; [apply always_ret|].
  apply always_bind; [apply keep_inspect|]. intros o1.
  apply always_bind; [apply keep_inspect|]. intros o2.
  destruct (_ && _); [apply always_ret|].
  apply always_bind.
  { destruct (Str.eqb check "healthy"); [|apply always_ret].
    apply always_bind; [apply keep_health_status|]. intros; apply always_ret. }
  intros [|].
  - apply always_bind; [apply keep_print|]. intros; apply always_ret.
  - apply always_bind; [apply keep_print|]. intros _. apply IH.
Qed.

Lemma keep_status_wait msg check nm n : always P (status_wait env msg check nm n).
Proof.
  unfold status_wait. apply always_bind; [apply keep_print|]. intros _.
  apply always_bind; [apply keep_status_wait_loop|]. intros [r|]; [apply always_ret|].
  apply always_bind; [apply keep_print|]. intros _.
  apply always_bind; [apply keep_inspect|]. intros o1.
  apply always_bind; [apply keep_inspect|]. intros o2.
  destruct (Str.eqb check "running"); [apply always_ret|apply keep_health_status].
Qed.

Lemma keep_docker_logs nm : always P (docker_logs env nm).
Proof.
  unfold docker_logs. apply always_bind; [apply keep_print|]. intros _.
  apply always_bind; [apply keep_print|]. intros _. apply keep_print.
Qed.

Hypothesis P_startedok :
  forall k w, P w -> P (with_dc (dc_update k (set_startedok true)) w).

(** [docker_run] from the point where the container has been created. *)
Lemma keep_after_run (skip_health : bool) kwargs :
  always P
    (if skip_health then (ret tt : M unit)
     else
       let* started_as :=
         status_wait env "Waiting for container to start..." "running" (name kwargs)
                     loop_cnt_default in
       do (if Str.eqb started_as "exited" then
             let* o := inspect env (name kwargs) in
             do print ("ERROR: Container did not start successfully, status: "
                         ++ obs_status o) then
             let* _ := inspect env (name kwargs) in
             do docker_logs env (name kwargs) then
             sys_exit 1
           else ret tt) then
       let* o := inspect env (name kwargs) in
       do (match obs_health o with
           | Some _ =>
               let* r := status_wait env "Waiting for container to become healthy."
                           "healthy" (name kwargs) loop_cnt_default in
               if negb (Str.eqb r "healthy") then
                 do print ("WARNING: Container isn't healthy yet or failed, monitor with the command docker logs "
                             ++ name kwargs) then
                 let* _ := inspect env (name kwargs) in
                 docker_logs env (name kwargs)
               else ret tt
           | None =>
               do print "This container doesn't report health" then
               print ("Use the command docker logs " ++ name kwargs
                        ++ " to check status if issues arise")
           end) then
       modify (with_dc (dc_update (container kwargs) (set_startedok true)))).
Proof.
  destruct skip_health; [apply always_ret|].
  apply always_bind; [apply keep_status_wait|]. intros r.
  apply always_bind.
  { destruct (Str.eqb r "exited"); [|apply always_ret].
    apply always_bind; [apply keep_inspect|]. intros o.
    apply always_bind; [apply keep_print|]. intros _.
    apply always_bind; [apply keep_inspect|]. intros _.
    apply always_bind; [apply keep_docker_logs|]. intros; apply always_exit. }
  intros _. apply always_bind; [apply keep_inspect|]. intros o.
  apply always_bind.
  { destruct (obs_health o).
    - apply always_bind; [apply keep_status_wait|]. intros r2.
      destruct (negb _); [|apply always_ret].
      apply always_bind; [apply keep_print|]. intros _.
      apply always_bind; [apply keep_inspect|]. intros _. apply keep_docker_logs.
    - apply always_bind; [apply keep_print|]. intros _. apply keep_print. }
  intros _. apply always_modify. intros w. apply P_startedok.
Qed.

End Polling.

Lemma started_is_startedok l d k w :
  started_is l d w -> started_is l d (with_dc (dc_update k (set_startedok true)) w).
Proof.
  intros [H1 H2]. split; [done|]. intros k'. specialize (H2 k'). simpl.
  unfold dc_update. by destruct (key_eqb k k').
Qed.

Lemma started_from_startedok l d k w :
  started_from l d w -> started_from l d (with_dc (dc_update k (set_startedok true)) w).
Proof.
  intros [H1 H2]. split; [done|]. intros k'. specialize (H2 k'). simpl.
  unfold dc_update. by destruct (key_eqb k k').
Qed.

(** [docker_run] records one start, that of the container it was asked
    to run, and only when the engine accepted it; when it returns, the
    start has been recorded. *)
Lemma docker_run_started env skip_health kwargs l d w :
  started_is l d w ->
  match docker_run env skip_health kwargs w with
  | Done _ w' => started_is (l ++ [name kwargs]) d w'
  | Exit _ w' | Crash _ w' =>
      started_is l d w' \/ started_is (l ++ [name kwargs]) d w'
  end.
Proof.
  intros Hw. unfold docker_run. unfold bind at 1. rewrite print_printed.
  set (w1 := printed _ w). assert (H1 : started_is l d w1) by exact Hw. clearbody w1.
  unfold bind at 1, containers_run.
  destruct (run_error env (name kwargs)) as [ex|].
  - unfold bind at 1. rewrite print_printed. simpl. by left.
  - unfold modify at 1.
    set (w2 := with_started _ _).
    assert (H2 : started_is (l ++ [name kwargs]) d w2).
    { destruct H1 as [E N]. split; [simpl; by rewrite E|exact N]. }
    clearbody w2.
    pose proof (keep_after_run env (started_is (l ++ [name kwargs]) d)
                  (fun s w H => H) (fun w H => H)
                  (fun k w H => started_is_startedok _ _ k w H)
                  skip_health kwargs w2 H2) as Hk.
    simpl in Hk.
    match goal with |- match ?run with _ => _ end => destruct run end; auto.
Qed.

Lemma docker_run_appends env skip_health kwargs l d :
  always (started_from l d) (docker_run env skip_health kwargs).
Proof.
  unfold docker_run. apply always_bind; [apply always_modify; by intros w H|]. intros _.
  apply always_bind.
  { unfold containers_run. destruct (run_error env (name kwargs)).
    - apply always_bind; [apply always_modify; by intros w H|]. intros; apply always_exit.
    - apply always_modify. intros w [[rest E] N]. split; [|exact N].
      exists (rest ++ [name kwargs])%list. simpl. by rewrite E, app_assoc. }
  intros _.
  apply (keep_after_run env (started_from l d) (fun s w H => H) (fun w H => H)
           (fun k w H => started_from_startedok _ _ k w H)).
Qed.

Lemma run_service_appends env a k l d : always (started_from l d) (run_service env a k).
Proof.
  unfold run_service. apply always_bind.
  { unfold image_ref. apply always_bind; [apply always_get_world|]. intros w.
    destruct (tag (dc w k)); [apply always_ret|apply always_raise]. }
  intros img. apply always_bind; [apply always_get_world|]. intros w.
  apply docker_run_appends.
Qed.

Lemma run_optional_appends env a k suppressed msg l d :
  always (started_from l d) (run_optional env a k suppressed msg).
Proof.
  unfold run_optional. apply always_bind; [apply always_get_world|]. intros w.
  destruct (_ && _).
  - apply always_bind; [apply run_service_appends|]. intros; apply always_ret.
  - destruct (negb suppressed); [|apply always_ret].
    apply always_bind; [apply always_modify; by intros w1 H|]. intros; apply always_ret.
Qed.

Lemma phase_bind {A B} (P R : World -> Prop) (m : M A) (k : A -> M B) w :
  P w -> always P m ->
  (forall w1, P w1 -> R w1) ->
  (forall a w1, P w1 -> R (final_world (k a w1))) ->
  R (final_world (bind m k w)).
Proof.
  intros Hw Hm HR Hk. unfold bind. specialize (Hm w Hw).
  destruct (m w) as [a w1|c w1|e w1]; simpl in *; auto.
Qed.

(** X12: The first container that [deploy] starts is the API server's:
    however [deploy] ends, either no start was issued or the starts
    issued begin with the API server's container.  The web application
    and Swagger therefore never run without the API server having been
    started first. *)
Theorem deploy_starts_api_first env a senzing_root ini_file_name ini_json w :
  let w' := final_world (deploy env a senzing_root ini_file_name ini_json w) in
  started w' = started w
  \/ exists rest, started w' = (started w ++ containername (dc w restapi) :: rest)%list.
Proof.
  set (api := containername (dc w restapi)).
  set (P := started_is (started w) (dc w)).
  set (Q := started_from (started w ++ [api]) (dc w)).
  set (R := fun w' : World => started w' = started w
              \/ exists rest, started w' = (started w ++ api :: rest)%list).
  assert (HPR : forall w1, P w1 -> R w1) by (intros w1 [E _]; by left).
  assert (HQR : forall w1, Q w1 -> R w1).
  { intros w1 [[rest E] _]. right. exists rest. by rewrite E, <- app_assoc. }
  assert (HP : P w) by done.
  assert (Pq : forall {A} (m : M A), (forall w0, always (quiet w0) m) -> always P m).
  { intros A m Hm. apply always_of_quiet; [exact Hm|]. intros ? ?. apply started_is_quiet. }
  change (R (final_world (deploy env a senzing_root ini_file_name ini_json w))).
  unfold deploy.
  apply (phase_bind P); [exact HP| |exact HPR|].
  { apply Pq. intros w0. apply silent_patch_ini_json. }
  intros [[db_type patched] mount] w1 H1.
  apply (phase_bind P); [exact H1| |exact HPR|].
  { destruct (Str.eqb _ "mysql"); [|apply always_ret].
    apply Pq. intros w0. apply silent_mysql_check. }
  intros _ w2 H2.
  apply (phase_bind P); [exact H2| |exact HPR|].
  { destruct (Str.eqb _ "db2"); [|apply always_ret].
    apply Pq. intros w0. apply silent_db2_check. }
  intros _ w3 H3.
  apply (phase_bind P); [exact H3| |exact HPR|].
  { destruct (Str.eqb db_type "mssql"); [|apply always_ret].
    apply always_bind; [apply always_modify; by intros ? ?|]. intros; apply always_exit. }
  intros _ w4 H4.
  apply (phase_bind P); [exact H4| |exact HPR|].
  { apply always_modify. by intros ? ?. }
  intros _ w5 H5.
  apply (phase_bind P); [exact H5| |exact HPR|].
  { destruct (_ && _); [|apply always_ret].
    apply always_bind; [apply always_modify; by intros ? ?|]. intros; apply always_exit. }
  intros _ w6 H6.
  (* the API container *)
  unfold bind at 1, run_service at 1, bind at 1, image_ref, bind at 1, get_world.
  destruct (tag (dc w6 restapi)) as [t|]; [|simpl; by apply HPR].
  unfold ret at 1. unfold bind at 1.
  pose proof (docker_run_started env (skipHealth a)
                {| container := restapi; image := imagename (dc w6 restapi) ++ ":" ++ t;
                   name := containername (dc w6 restapi) |} _ _ w6 H6) as Hrun.
  assert (Hname : containername (dc w6 restapi) = api) by apply H6.
  simpl name in Hrun.
  match type of Hrun with match ?run with _ => _ end => destruct run as [[] w7|c w7|e w7] end;
    rewrite Hname in Hrun; simpl final_world.
  2, 3: destruct Hrun as [H|[E _]]; [by apply HPR|right; by exists []].
  assert (H7 : Q w7).
  { destruct Hrun as [E N]. split; [|exact N]. exists []. by rewrite app_nil_r. }
  clear Hrun.
  apply (phase_bind Q); [exact H7| |exact HQR|].
  { apply always_modify. by intros ? ?. }
  intros _ w8 H8.
  apply (phase_bind Q); [exact H8| |exact HQR|].
  { destruct (api_spec env); [apply always_ret|].
    apply always_bind; [apply always_modify; by intros ? ?|]. intros; apply always_exit. }
  intros spec w9 H9.
  apply (phase_bind Q); [exact H9| |exact HQR|].
  { destruct spec as [data|exn]; [apply always_modify; by intros ? ?|].
    apply always_bind; [apply always_modify; by intros ? ?|]. intros; apply always_raise. }
  intros _ w10 H10.
  apply (phase_bind Q); [exact H10|apply run_optional_appends|exact HQR|].
  intros m1 w11 H11.
  apply (phase_bind Q); [exact H11|apply run_optional_appends|exact HQR|].
  intros m2 w12 H12.
  apply (phase_bind Q); [exact H12| |exact HQR|].
  { destruct (m1 || m2); [|apply always_ret]. apply always_modify. by intros ? ?. }
  intros _ w13 H13. apply HQR.
  revert w13 H13. apply always_modify. by intros ? ?.
Qed.

Lemma exits_bind_ret {A B} (a : A) (k : A -> M B) w c (R : World -> Prop) :
  exits c (k a) w R -> exits c (bind (ret a) k) w R.
Proof. intros (w' & E & H). exists w'. split; [|done]. by unfold bind, ret. Qed.

Lemma exits_bind_eq {A B} (m : M A) (k : A -> M B) w a w1 c (R : World -> Prop) :
  m w = Done a w1 -> exits c (k a) w1 R -> exits c (bind m k) w R.
Proof. intros E (w' & Ek & H). exists w'. split; [|done]. unfold bind. by rewrite E. Qed.

(** X13: The prerequisites of MySQL and Db2 are checked before anything is
    written or started: with a [mysql] connection and no client library
    under the project, or a [db2] connection and no [--db2CliPath],
    [deploy] exits with status 1 having only printed. *)
Theorem deploy_database_prerequisites env a root file ini ini' sql conn dbtype rest w :
  pipeline_fixed ini = Some (ini', sql, conn) ->
  Str.split1 ":" conn = Some (dbtype, rest) ->
  (Str.lower dbtype = "mysql" /\ is_file (root ++ "/lib/" ++ LIB_MY_SQL) w = false)
  \/ (Str.lower dbtype = "db2" /\ db2CliPath a = None) ->
  exists w', deploy env a root file ini w = Exit 1 w' /\ quiet w w'.
Proof.
  intros Hp Hs Hcase. unfold deploy.
  assert (Hl : Str.eqb (Str.lower dbtype) "sqlite3" = false)
    by (destruct Hcase as [[-> _]|[-> _]]; reflexivity).
  eapply exits_bind_eq; [by eapply patch_other_scheme|].
  destruct Hcase as [[Hm Hlib]|[Hd Hpath]].
  - rewrite Hm. change (Str.eqb "mysql" "mysql") with true. cbv iota.
    apply exits_bind_here. unfold mysql_check. apply exits_bind_get_world.
    rewrite Hlib. apply exits_bind_print. intros w1 Q1 _. by apply exits_sys_exit.
  - rewrite Hd. change (Str.eqb "db2" "mysql") with false.
    change (Str.eqb "db2" "db2") with true. cbv iota.
    apply exits_bind_ret. apply exits_bind_here. unfold db2_check. rewrite Hpath.
    apply exits_bind_print. intros w1 Q1 _. by apply exits_sys_exit.
Qed.

Lemma deploy_database_prerequisites_witness :
  exists w', deploy env0 args0 "/s" "/s/etc/G2Module.ini" ini_mysql world0 = Exit 1 w'
    /\ quiet world0 w'.
Proof.
  eapply (deploy_database_prerequisites env0 args0 "/s" "/s/etc/G2Module.ini" ini_mysql
            _ _ "mysql://user:pw@dbhost:3306/?schema=G2" "mysql"
            "//user:pw@dbhost:3306/?schema=G2" world0).
  - reflexivity.
  - reflexivity.
  - left. split; reflexivity.
Defined.
(** * The network helpers *)

Lemma requests_app a b : requests (a ++ b) = (requests a + requests b)%nat.
Proof. unfold requests. by rewrite List.filter_app, length_app. Qed.

Lemma pauses_app a b : pauses (a ++ b) = (pauses a ++ pauses b)%list.
Proof. unfold pauses. apply omap_app. Qed.

Lemma requests_asked url tout (check_msg : bool) :
  requests ((if check_msg then [Say url] else []) ++ [Request url tout]) = 1%nat.
Proof. by destruct check_msg. Qed.

Lemma pauses_asked url tout (check_msg : bool) :
  pauses ((if check_msg then [Say url] else []) ++ [Request url tout]) = [].
Proof. by destruct check_msg. Qed.

Lemma internet_access_retry urlopen url r retries_start tout check_msg n :
  urlopen n = false ->
  internet_access urlopen url (S (S r)) retries_start tout check_msg n
  = let retries_start' := if unset retries_start then Some (S r) else retries_start in
    (false,
     (((if check_msg then [Say url] else []) ++ [Request url tout])
        ++ ([Say "."; Sleep 1]
              ++ snd (internet_access urlopen url (S r) retries_start' 2 false (S n)))
        ++ (if same_count (S r) retries_start' then [Say " Unavailable"] else []))%list).
Proof. intros H. simpl. by rewrite H. Qed.

Lemma internet_access_last urlopen url retries retries_start tout check_msg n :
  urlopen n = false -> (retries <= 1)%nat ->
  internet_access urlopen url retries retries_start tout check_msg n
  = (false,
     (((if check_msg then [Say url] else []) ++ [Request url tout])
        ++ [] ++ (if same_count retries retries_start then [Say " Unavailable"] else []))%list).
Proof. intros H Hr. destruct retries as [|[|r]]; [| |lia]; simpl; by rewrite H. Qed.

Lemma internet_access_ok urlopen url retries retries_start tout check_msg n :
  urlopen n = true ->
  internet_access urlopen url retries retries_start tout check_msg n
  = (true, (((if check_msg then [Say url] else []) ++ [Request url tout])
              ++ [Say " Available"])%list).
Proof. intros H. destruct retries as [|[|r]]; simpl; by rewrite H. Qed.

(** X14: The retries of [internet_access] cannot turn a failure into a
    success: the result of the inner call is dropped.  Once the first
    request has failed and a retry is allowed, the call returns [False]
    and reports the address as unavailable, even when the retry was
    answered and reported as available. *)
Theorem internet_access_retry_cannot_succeed urlopen url retries tout check_msg n :
  urlopen n = false ->
  (2 <= retries)%nat ->
  let r := internet_access urlopen url retries None tout check_msg n in
  fst r = false
  /\ Say " Unavailable" ∈ snd r
  /\ (urlopen (S n) = true -> Say " Available" ∈ snd r).
Proof.
  intros Hfail Hr. destruct retries as [|[|k]]; [lia|lia|].
  rewrite internet_access_retry by done. simpl unset. cbv iota zeta.
  split; [done|]. split.
  - simpl snd. unfold same_count. rewrite Nat.eqb_refl.
    rewrite !elem_of_app. right. right. set_solver.
  - intros Hok. rewrite (internet_access_ok _ _ _ _ _ _ _ Hok). simpl snd.
    apply elem_of_app. right. rewrite !elem_of_cons. auto.
Qed.

Lemma internet_access_retry_cannot_succeed_witness :
  let r := internet_access second_only "https://hub.docker.com/u/senzing/" 3 None 2 true 0 in
  fst r = false
  /\ Say " Unavailable" ∈ snd r
  /\ (second_only 1 = true -> Say " Available" ∈ snd r).
Proof.
  apply (internet_access_retry_cannot_succeed second_only
           "https://hub.docker.com/u/senzing/" 3 2 true 0).
  - reflexivity.
  - lia.
Defined.

Lemma requests_asked_app url tout (check_msg : bool) evs :
  requests (((if check_msg then [Say url] else []) ++ [Request url tout]) ++ evs)
  = S (requests evs).
Proof. rewrite requests_app, requests_asked. reflexivity. Qed.

Lemma pauses_asked_app url tout (check_msg : bool) evs :
  pauses (((if check_msg then [Say url] else []) ++ [Request url tout]) ++ evs)
  = pauses evs.
Proof. rewrite pauses_app, pauses_asked. reflexivity. Qed.

Lemma requests_said_app (b : bool) s evs :
  requests (evs ++ (if b then [Say s] else [])) = requests evs.
Proof. rewrite requests_app. destruct b; unfold requests at 2; simpl; lia. Qed.

Lemma pauses_said_app (b : bool) s evs :
  pauses (evs ++ (if b then [Say s] else [])) = pauses evs.
Proof. rewrite pauses_app. destruct b; unfold pauses at 2; simpl; by rewrite app_nil_r. Qed.

(** X15: [internet_access] sends at least one request and never more than
    [retries] (one when [retries] is 0); it pauses one second before
    every request but the first. *)
Theorem internet_access_requests_bounded urlopen url retries retries_start tout check_msg n :
  let evs := snd (internet_access urlopen url retries retries_start tout check_msg n) in
  (1 <= requests evs <= Nat.max 1 retries)%nat
  /\ (length (pauses evs) + 1 = requests evs)%nat
  /\ Forall (fun s => s = 1%Z) (pauses evs).
Proof.
  cbv zeta. revert retries_start tout check_msg n.
  assert (Hok : forall m retries_start tout check_msg n,
            urlopen n = true ->
            let evs := snd (internet_access urlopen url m retries_start tout
                              check_msg n) in
            (1 <= requests evs <= Nat.max 1 m)%nat
            /\ (length (pauses evs) + 1 = requests evs)%nat
            /\ Forall (fun s => s = 1%Z) (pauses evs)).
  { intros m rs tout cm n E. cbv zeta. rewrite internet_access_ok by done.
    cbn [snd]. rewrite requests_asked_app, pauses_asked_app.
    change (requests [Say " Available"]) with 0%nat.
    change (pauses [Say " Available"]) with (@nil Z).
    repeat split; [lia..|constructor]. }
  assert (Hlast : forall m retries_start tout check_msg n,
            urlopen n = false -> (m <= 1)%nat ->
            let evs := snd (internet_access urlopen url m retries_start tout
                              check_msg n) in
            (1 <= requests evs <= Nat.max 1 m)%nat
            /\ (length (pauses evs) + 1 = requests evs)%nat
            /\ Forall (fun s => s = 1%Z) (pauses evs)).
  { intros m rs tout cm n E Hr. cbv zeta. rewrite internet_access_last by done.
    cbn [snd]. rewrite requests_asked_app, pauses_asked_app.
    rewrite requests_said_app, pauses_said_app.
    change (requests []) with 0%nat. change (pauses []) with (@nil Z).
    repeat split; [lia..|constructor]. }
  induction retries as [|r IH]; intros retries_start tout check_msg n.
  - destruct (urlopen n) eqn:E; [by apply Hok|apply Hlast; [done|lia]].
  - destruct (urlopen n) eqn:E; [by apply Hok|].
    destruct r as [|r]; [apply Hlast; [done|lia]|].
    rewrite internet_access_retry by done. cbv zeta. cbn [snd].
    set (rs' := if unset retries_start then Some (S r) else retries_start).
    specialize (IH rs' 2%Z false (S n)).
    destruct IH as ([I1 I2] & I3 & I4).
    set (inner := snd (internet_access urlopen url (S r) rs' 2 false (S n))) in *.
    rewrite requests_asked_app, pauses_asked_app.
    rewrite requests_said_app, pauses_said_app.
    rewrite requests_app, pauses_app.
    change (requests [Say "."; Sleep 1]) with 0%nat.
    change (pauses [Say "."; Sleep 1]) with [1%Z].
    simpl app. simpl length.
    repeat split; [lia|lia|lia|]. by constructor.
Qed.

Lemma ceil_div_le a b : (0 <= a)%Z -> (1 <= b)%Z -> (ceil_div a b <= a)%Z.
Proof.
  intros Ha Hb. unfold ceil_div.
  assert (- a <= - a / b)%Z; [|lia].
  apply Z.div_le_lower_bound; nia.
Qed.

Lemma sleep_time_at_least_5 retries retry :
  (1 <= retry <= retries)%Z -> (5 <= sleep_time retries retry)%Z.
Proof.
  intros H. unfold sleep_time. destruct (retry <? _)%Z eqn:E; [|lia].
  apply Z.ltb_lt in E. pose proof (ceil_div_le retries retry). lia.
Qed.

Lemma get_api_spec_loop_unreachable urlopen url retries tout retry n ex :
  urlopen n = Unreachable ex ->
  get_api_spec_loop urlopen url retries tout (S retry) n
  = (fst (get_api_spec_loop urlopen url retries tout retry (S n)),
     Request url tout
       :: Say ("INFO: Waiting for API specification from REST server, pausing before retry... " ++ ex)
       :: Sleep (sleep_time retries (Z.of_nat (S retry)))
       :: snd (get_api_spec_loop urlopen url retries tout retry (S n))).
Proof.
  intros H. cbn [get_api_spec_loop]. rewrite H.
  by destruct (get_api_spec_loop urlopen url retries tout retry (S n)).
Qed.

Lemma requests_round url tout msg pause evs :
  requests (Request url tout :: Say msg :: Sleep pause :: evs) = S (requests evs).
Proof. reflexivity. Qed.

Lemma pauses_round url tout msg pause evs :
  pauses (Request url tout :: Say msg :: Sleep pause :: evs) = pause :: pauses evs.
Proof. reflexivity. Qed.

Lemma get_api_spec_loop_answer urlopen url retries tout k s : forall retry n,
  (k < retry)%nat -> (Z.of_nat retry <= retries)%Z ->
  (forall i, (i < k)%nat -> exists ex, urlopen (n + i)%nat = Unreachable ex) ->
  urlopen (n + k)%nat = Body s ->
  let r := get_api_spec_loop urlopen url retries tout retry n in
  fst r = Some s /\ requests (snd r) = S k /\ length (pauses (snd r)) = k
  /\ Forall (fun p => (5 <= p)%Z) (pauses (snd r)).
Proof.
  induction k as [|k IH]; intros retry n Hk Hle Hun Hbody; cbv zeta.
  - destruct retry as [|retry]; [lia|]. cbn [get_api_spec_loop].
    rewrite Nat.add_0_r in Hbody. rewrite Hbody. cbn [fst snd].
    repeat split. constructor.
  - destruct retry as [|retry]; [lia|].
    destruct (Hun 0%nat) as [ex Hex]; [lia|]. rewrite Nat.add_0_r in Hex.
    rewrite (get_api_spec_loop_unreachable _ _ _ _ _ _ _ Hex). cbn [fst snd].
    rewrite requests_round, pauses_round.
    destruct (IH retry (S n)) as (I1 & I2 & I3 & I4); [lia|lia| | |].
    + intros i Hi. destruct (Hun (S i)) as [e He]; [lia|]. exists e.
      by rewrite Nat.add_succ_comm.
    + by rewrite Nat.add_succ_comm.
    + repeat split; [done|by rewrite I2|simpl; by rewrite I3|].
      constructor; [|done]. apply sleep_time_at_least_5. lia.
Qed.

Lemma get_api_spec_loop_gives_up urlopen url retries tout : forall retry n,
  (Z.of_nat retry <= retries)%Z ->
  (forall i, (i < retry)%nat -> exists ex, urlopen (n + i)%nat = Unreachable ex) ->
  let r := get_api_spec_loop urlopen url retries tout retry n in
  fst r = None /\ requests (snd r) = retry /\ length (pauses (snd r)) = retry
  /\ Forall (fun p => (5 <= p)%Z) (pauses (snd r))
  /\ Say api_spec_unavailable ∈ snd r.
Proof.
  induction retry as [|retry IH]; intros n Hle Hun; cbv zeta.
  - cbn [get_api_spec_loop fst snd]. repeat split; [constructor|set_solver].
  - destruct (Hun 0%nat) as [ex Hex]; [lia|]. rewrite Nat.add_0_r in Hex.
    rewrite (get_api_spec_loop_unreachable _ _ _ _ _ _ _ Hex). cbn [fst snd].
    rewrite requests_round, pauses_round.
    destruct (IH (S n)) as (I1 & I2 & I3 & I4 & I5); [lia| |].
    + intros i Hi. destruct (Hun (S i)) as [e He]; [lia|]. exists e.
      by rewrite Nat.add_succ_comm.
    + repeat split; [done|by rewrite I2|simpl; by rewrite I3| |].
      * constructor; [|done]. apply sleep_time_at_least_5. lia.
      * rewrite !elem_of_cons. auto.
Qed.

(** X16: [get_api_spec] returns the first body it is sent, provided the
    requests before it ended in connection errors and it comes within
    the allowed number of attempts; it has then paused once per failed
    attempt, never for less than five seconds. *)
Theorem get_api_spec_first_answer urlopen url retries tout k s :
  (k < retries)%nat ->
  (forall i, (i < k)%nat -> exists ex, urlopen i = Unreachable ex) ->
  urlopen k = Body s ->
  let r := get_api_spec urlopen url retries tout in
  fst r = Some s /\ requests (snd r) = S k /\ length (pauses (snd r)) = k
  /\ Forall (fun p => (5 <= p)%Z) (pauses (snd r)).
Proof.
  intros Hk Hun Hbody. unfold get_api_spec.
  apply get_api_spec_loop_answer; [done|lia|done|done].
Qed.

Lemma get_api_spec_first_answer_witness :
  let r := get_api_spec ready_at_third "http://host:8250/specifications/open-api" 5 5 in
  fst r = Some "{}" /\ requests (snd r) = 3%nat /\ length (pauses (snd r)) = 2%nat
  /\ Forall (fun p => (5 <= p)%Z) (pauses (snd r)).
Proof.
  apply (get_api_spec_first_answer ready_at_third
           "http://host:8250/specifications/open-api" 5 5 2 "{}").
  - lia.
  - intros i Hi. exists "Connection refused".
    destruct i as [|[|i]]; [reflexivity|reflexivity|lia].
  - reflexivity.
Defined.

(** X17: When every attempt ends in a connection error, [get_api_spec] gives
    up with [sys.exit(1)] after exactly [retries] requests and as many
    pauses, none shorter than five seconds, and says that the
    specification could not be fetched. *)
Theorem get_api_spec_gives_up urlopen url retries tout :
  (forall i, (i < retries)%nat -> exists ex, urlopen i = Unreachable ex) ->
  let r := get_api_spec urlopen url retries tout in
  fst r = None /\ requests (snd r) = retries /\ length (pauses (snd r)) = retries
  /\ Forall (fun p => (5 <= p)%Z) (pauses (snd r))
  /\ Say api_spec_unavailable ∈ snd r.
Proof.
  intros Hun. unfold get_api_spec. apply get_api_spec_loop_gives_up; [lia|done].
Qed.

Lemma get_api_spec_gives_up_witness :
  let r := get_api_spec never_ready "http://host:8250/specifications/open-api" 5 5 in
  fst r = None /\ requests (snd r) = 5%nat /\ length (pauses (snd r)) = 5%nat
  /\ Forall (fun p => (5 <= p)%Z) (pauses (snd r))
  /\ Say api_spec_unavailable ∈ snd r.
Proof.
  apply (get_api_spec_gives_up never_ready "http://host:8250/specifications/open-api" 5 5).
  intros i Hi. by exists "Connection refused".
Defined.
(** * The versions file and the project name *)

Lemma split_char_cons sep c r :
  split_char sep (String c r)
  = if Ascii.eqb sep c then EmptyString :: split_char sep r
    else match split_char sep r with
         | h :: t => String c h :: t
         | [] => [String c EmptyString]
         end.
Proof. reflexivity. Qed.

Lemma split_char_single sep s : Str.count sep s = 0%nat -> split_char sep s = [s].
Proof.
  induction s as [|c r IH]; [done|]. rewrite count_cons, split_char_cons.
  destruct (Ascii.eqb sep c); [done|]. intros H. by rewrite IH.
Qed.

Lemma split_char_two sep s :
  Str.count sep s <> 0%nat -> exists k v t, split_char sep s = k :: v :: t.
Proof.
  induction s as [|c r IH]; [done|]. rewrite count_cons, split_char_cons.
  destruct (Ascii.eqb sep c).
  - intros _. destruct (split_char sep r) as [|v t] eqn:E; [|eauto].
    destruct r; simpl in E; [done|]. destruct (Ascii.eqb sep a); [done|].
    by destruct (split_char sep r).
  - intros H. destruct IH as (k & v & t & ->); [done|]. eauto.
Qed.

Lemma split_head_count sep s h t : split_char sep s = h :: t -> Str.count sep h = 0%nat.
Proof.
  revert h t. induction s as [|c r IH]; intros h t.
  - intros [= <- <-]. reflexivity.
  - rewrite split_char_cons. destruct (Ascii.eqb sep c) eqn:E.
    + intros [= <- <-]. reflexivity.
    + destruct (split_char sep r) as [|h' t'].
      * intros [= <- <-]. rewrite count_cons, E. reflexivity.
      * intros [= <- <-]. rewrite count_cons, E. simpl. by eapply IH.
Qed.

Lemma split_head_prefix sep p : forall s h t,
  Str.startswith p s = true -> Str.count sep p = 0%nat ->
  split_char sep s = h :: t -> Str.startswith p h = true.
Proof.
  induction p as [|a p IH]; intros s h t Hs Hc Hsp; [done|].
  destruct s as [|b s]; [done|]. simpl in Hs.
  apply andb_true_iff in Hs as [Hab Hs]. apply Ascii.eqb_eq in Hab as <-.
  rewrite count_cons in Hc. destruct (Ascii.eqb sep a) eqn:E; [done|].
  rewrite split_char_cons, E in Hsp.
  destruct (split_char sep s) as [|h' t'] eqn:Es.
  - destruct s; simpl in Es; [done|]. destruct (Ascii.eqb sep a0); [done|].
    by destruct (split_char sep s).
  - injection Hsp as <- <-. simpl. rewrite Ascii.eqb_refl. simpl.
    eapply IH; [exact Hs|exact Hc|exact Es].
Qed.

Lemma key_value_none kv : Str.count "=" kv = 0%nat -> key_value kv = None.
Proof. intros H. unfold key_value. by rewrite split_char_single. Qed.

Lemma key_value_some kv :
  Str.count "=" kv <> 0%nat -> exists k v, key_value kv = Some (k, v).
Proof.
  intros H. unfold key_value. destruct (split_char_two _ _ H) as (k & v & t & ->). eauto.
Qed.

Lemma key_value_key kv k v :
  Str.startswith "SENZING_" kv = true -> key_value kv = Some (k, v) ->
  Str.startswith "SENZING_" k = true /\ Str.count "=" k = 0%nat.
Proof.
  intros Hs. unfold key_value.
  destruct (split_char "=" kv) as [|h [|v' t]] eqn:E; [done|done|].
  intros [= <- <-]. split.
  - eapply (split_head_prefix "=" "SENZING_"); [exact Hs|reflexivity|exact E].
  - eapply split_head_count. exact E.
Qed.

Lemma dict_set_keys {V} k (v : V) d x :
  x ∈ Dict.keys (Dict.set k v d) -> x = k \/ x ∈ Dict.keys d.
Proof.
  unfold Dict.keys. induction d as [|[k' v'] d IH]; simpl.
  - intros ->%list_elem_of_singleton. by left.
  - destruct (Str.eqb k k'); simpl.
    + intros H. by right.
    + intros [->|H]%elem_of_cons; [right; set_solver|].
      destruct (IH H); [by left|right; set_solver].
Qed.

Lemma versions_dict_keys kvs : forall acc d x,
  versions_dict kvs acc = Some d -> x ∈ Dict.keys d ->
  x ∈ Dict.keys acc \/ exists kv v, kv ∈ kvs /\ key_value kv = Some (x, v).
Proof.
  induction kvs as [|kv r IH]; intros acc d x; simpl.
  - intros [= <-]. by left.
  - destruct (key_value kv) as [[k v]|] eqn:E; [|done]. intros Hd Hx.
    destruct (IH _ _ _ Hd Hx) as [H|(kv' & v' & Hin & Hkv)].
    + apply dict_set_keys in H as [->|H]; [|by left].
      right. exists kv, v. split; [set_solver|done].
    + right. exists kv', v'. split; [set_solver|done].
Qed.

Lemma versions_dict_total kvs : forall acc,
  (forall kv, kv ∈ kvs -> Str.count "=" kv <> 0%nat) ->
  exists d, versions_dict kvs acc = Some d.
Proof.
  induction kvs as [|kv r IH]; intros acc H; simpl; [eauto|].
  destruct (key_value_some kv) as (k & v & ->); [apply H; set_solver|].
  apply IH. intros kv' Hin. apply H. set_solver.
Qed.

Lemma versions_dict_fails kvs : forall acc kv,
  kv ∈ kvs -> Str.count "=" kv = 0%nat -> versions_dict kvs acc = None.
Proof.
  induction kvs as [|kv' r IH]; intros acc kv Hin Hc; [by apply elem_of_nil in Hin|].
  simpl. apply elem_of_cons in Hin as [<-|Hin].
  - by rewrite key_value_none.
  - destruct (key_value kv') as [[k v]|]; [|done]. by eapply IH.
Qed.

Lemma version_lines_prefix page line :
  line ∈ version_lines page -> Str.startswith "SENZING_" line = true.
Proof.
  unfold version_lines. rewrite list_elem_of_In, filter_In. by intros [_ H].
Qed.

(** X18: When every line of the page that starts with [SENZING_] (after the
    [export] prefix is dropped) holds an [=], [parse_versions] returns a
    dictionary and prints nothing; each of its keys starts with
    [SENZING_] and holds no [=]. *)
Theorem parse_versions_keys page w :
  (forall line, line ∈ version_lines page -> Str.count "=" line <> 0%nat) ->
  exists d, parse_versions (Page page) w = Done (Some d) w
    /\ forall k, k ∈ Dict.keys d ->
         Str.startswith "SENZING_" k = true /\ Str.count "=" k = 0%nat.
Proof.
  intros H. destruct (versions_dict_total (version_lines page) [] H) as [d Hd].
  exists d. split; [unfold parse_versions; by rewrite Hd|].
  intros k Hk. destruct (versions_dict_keys _ _ _ _ Hd Hk) as [Hin|(kv & v & Hin & Hkv)].
  - by apply elem_of_nil in Hin.
  - eapply key_value_key; [by apply version_lines_prefix in Hin|exact Hkv].
Qed.

Lemma parse_versions_keys_witness :
  exists d, parse_versions (Page versions_page) world0 = Done (Some d) world0
    /\ forall k, k ∈ Dict.keys d ->
         Str.startswith "SENZING_" k = true /\ Str.count "=" k = 0%nat.
Proof.
  apply (parse_versions_keys versions_page world0).
  intros line Hin.
  change (version_lines versions_page)
    with ["SENZING_DOCKER_IMAGE_VERSION_ADMINER=1.0.0";
          "SENZING_DOCKER_IMAGE_VERSION_APT=1.0.5.post1"] in Hin.
  apply elem_of_cons in Hin as [->|Hin]; [vm_compute; discriminate|].
  apply elem_of_cons in Hin as [->|Hin]; [vm_compute; discriminate|].
  by apply elem_of_nil in Hin.
Defined.

(** X19: A line that starts with [SENZING_] and holds no [=] is not guarded
    against: [parse_versions] then ends in an [IndexError], which neither
    of its handlers catches. *)
Theorem parse_versions_index_error page line w :
  line ∈ version_lines page ->
  Str.count "=" line = 0%nat ->
  parse_versions (Page page) w = Crash "IndexError" w.
Proof.
  intros Hin Hc. unfold parse_versions.
  by rewrite (versions_dict_fails _ [] line Hin Hc).
Qed.

Lemma parse_versions_index_error_witness :
  parse_versions (Page versions_page_bad) world0 = Crash "IndexError" world0.
Proof.
  apply (parse_versions_index_error versions_page_bad "SENZING_DOCKER_IMAGE_VERSION_APT" world0).
  - change (version_lines versions_page_bad)
      with ["SENZING_DOCKER_IMAGE_VERSION_ADMINER=1.0.0";
            "SENZING_DOCKER_IMAGE_VERSION_APT"].
    set_solver.
  - reflexivity.
Defined.

Lemma keep_valid_all_valid s : all_valid (keep_valid s) = true.
Proof.
  induction s as [|c r IH]; [done|]. simpl.
  destruct (valid_char c) eqn:E; [|done]. simpl. by rewrite E.
Qed.

Lemma keep_valid_id s : all_valid s = true -> keep_valid s = s.
Proof.
  induction s as [|c r IH]; [done|]. simpl.
  intros [-> H]%andb_true_iff. by rewrite IH.
Qed.

(** X20: The suffix that [get_senzing_proj_name] returns holds only the
    characters of [a-zA-Z0-9_.-]; the function returns, touching nothing
    but the console, and applied to its own result it returns it again
    without a message.  A name that is already clean is returned as it
    is, silently. *)
Theorem get_senzing_proj_name_clean root_path w :
  exists r w', get_senzing_proj_name root_path w = Done r w'
    /\ quiet w w'
    /\ all_valid r = true
    /\ get_senzing_proj_name r w' = Done r w'
    /\ (all_valid root_path = true -> r = root_path /\ w' = w).
Proof.
  assert (Hid : forall s w1, all_valid s = true ->
                  get_senzing_proj_name s w1 = Done s w1).
  { intros s w1 Hs. unfold get_senzing_proj_name.
    rewrite (keep_valid_id _ Hs). unfold Str.eqb. by rewrite String.eqb_refl. }
  unfold get_senzing_proj_name at 1.
  destruct (Str.eqb root_path (keep_valid root_path)) eqn:E; simpl.
  - apply String.eqb_eq in E. exists root_path, w.
    assert (Hv : all_valid root_path = true)
      by (rewrite E; apply keep_valid_all_valid).
    repeat split; [apply quiet_refl|done|by apply Hid].
  - eexists _, _. split; [reflexivity|].
    split; [apply quiet_print|].
    split; [apply keep_valid_all_valid|].
    split; [apply Hid, keep_valid_all_valid|].
    intros Hv. rewrite (keep_valid_id _ Hv) in E.
    unfold Str.eqb in E. by rewrite String.eqb_refl in E.
Qed.
(** * Export and import: the ways out *)

Lemma exits_forM_here {A B} (f : A -> M B) x xs w c (R : World -> Prop) :
  exits c (f x) w R -> exits c (forM f (x :: xs)) w R.
Proof. intros H. simpl. by apply exits_bind_here. Qed.

Lemma exits_forM_later {A B} (f : A -> M B) x xs w y c (R : World -> Prop) :
  f x w = Done y w -> exits c (forM f xs) w R -> exits c (forM f (x :: xs)) w R.
Proof.
  intros E H. simpl. eapply exits_bind_eq; [exact E|]. by apply exits_bind_here.
Qed.

(** X21: Offline, an image asked for that the engine does not hold ends the
    export with exit status 1 before anything is written: only the
    console has changed. *)
Theorem save_images_missing_image env save_list package_path nw ns fp w r :
  access_dockerhub env = false ->
  r ∈ save_list ->
  images_get r w = None ->
  exists w', save_images env save_list package_path nw ns fp w = Exit 1 w' /\ quiet w w'.
Proof.
  intros Hacc Hin Hget. unfold save_images. rewrite Hacc.
  apply exits_bind_print. intros w1 Q1 _.
  assert (Hget1 : images_get r w1 = None).
  { rewrite <- Hget. apply images_get_ext. apply Q1. }
  apply exits_bind_here.
  destruct save_list as [|x xs]; [by apply elem_of_nil in Hin|].
  eapply exits_weaken; [|intros w' H; exact (quiet_trans _ _ _ Q1 H)].
  clear Q1 Hget. revert Hin. generalize (x :: xs). clear x xs.
  intros l. induction l as [|x xs IH]; intros Hin; [by apply elem_of_nil in Hin|].
  destruct (images_get x w1) as [i|] eqn:Ex.
  - eapply exits_forM_later.
    + unfold bind, ret, get_world. rewrite Ex. reflexivity.
    + apply IH. apply elem_of_cons in Hin as [->|Hin]; [congruence|done].
  - apply exits_forM_here. apply exits_bind_ret. apply exits_bind_get_world.
    rewrite Ex. apply exits_bind_print. intros w2 Q2 _. by apply exits_sys_exit.
Qed.

Lemma save_images_missing_image_witness :
  exists w', save_images env_offline ["senzing/senzing-api-server:3.0.0"; "senzing/absent:1"]
               "/out" false false false world_one_image = Exit 1 w'
    /\ quiet world_one_image w'.
Proof.
  apply (save_images_missing_image env_offline
           ["senzing/senzing-api-server:3.0.0"; "senzing/absent:1"] "/out"
           false false false world_one_image "senzing/absent:1").
  - reflexivity.
  - set_solver.
  - reflexivity.
Defined.

(** X22: Offline, with every image asked for at hand, a package directory
    that does not exist, no regular file lying on the path of the files
    to write (that would be a [NotADirectoryError], which is not caught),
    ends the export with exit status 1 at the first image; only the
    console has changed. *)
Theorem save_images_missing_directory env save_list package_path nw ns fp w :
  access_dockerhub env = false ->
  save_list <> [] ->
  (forall r, r ∈ save_list -> is_Some (images_get r w)) ->
  package_path ∉ dirs w ->
  (forall r, r ∈ save_list -> file_on_path (package_file package_path r) w = false) ->
  exists w', save_images env save_list package_path nw ns fp w = Exit 1 w' /\ quiet w w'.
Proof.
  intros Hacc Hne Hall Hd Hpath. unfold save_images. rewrite Hacc.
  apply exits_bind_print. intros w1 Q1 _.
  destruct save_list as [|x xs]; [done|].
  eapply exits_bind_eq.
  { apply check_loop. intros r Hr. rewrite (images_get_ext r w w1) by apply Q1.
    by apply Hall. }
  cbv iota. apply exits_bind_here. apply exits_forM_here.
  unfold save_one. apply exits_bind_get_world.
  assert (Hf1 : files w1 = files w) by apply Q1.
  assert (Hd1 : dirs w1 = dirs w) by apply Q1.
  unfold write_file, write_error. rewrite decide_False by (by rewrite Hd1).
  assert (Hx : file_on_path (path_join package_path (package_name x)) w1 = false).
  { unfold file_on_path. rewrite Hf1. apply (Hpath x). set_solver. }
  rewrite Hx. apply exits_bind_print. intros w2 Q2 _. apply exits_sys_exit.
  eauto using quiet_trans.
Qed.

Lemma save_images_missing_directory_witness :
  exists w', save_images env_offline ["senzing/senzing-api-server:3.0.0"] "/nowhere"
               false false false world_one_image = Exit 1 w'
    /\ quiet world_one_image w'.
Proof.
  apply (save_images_missing_directory env_offline ["senzing/senzing-api-server:3.0.0"]
           "/nowhere" false false false world_one_image).
  - reflexivity.
  - discriminate.
  - intros r Hr. apply list_elem_of_singleton in Hr as ->. vm_compute. eauto.
  - vm_compute. set_solver.
  - intros r Hr. apply list_elem_of_singleton in Hr as ->. reflexivity.
Defined.

(** X23: An archive path at which there is nothing, neither a file nor a
    directory, and on which no regular file lies (those are an
    [IsADirectoryError] and a [NotADirectoryError], which are not
    caught), ends the import with exit status 1; nothing is extracted or
    loaded. *)
Theorem load_images_missing_archive env var_path load_file_path w :
  files w !! load_file_path = None ->
  load_file_path ∉ dirs w ->
  file_on_path load_file_path w = false ->
  exists w', load_images env var_path load_file_path w = Exit 1 w' /\ quiet w w'.
Proof.
  intros Hf Hd Hp. unfold load_images.
  apply exits_bind_print. intros w1 Q1 _. apply exits_bind_get_world.
  assert (Hf1 : files w1 = files w) by apply Q1.
  assert (Hd1 : dirs w1 = dirs w) by apply Q1. rewrite Hf1, Hf.
  unfold read_error, file_on_path. rewrite Hd1, Hf1.
  rewrite decide_False by done. fold (file_on_path load_file_path w). rewrite Hp.
  apply exits_bind_print. intros w2 Q2 _. apply exits_sys_exit.
  eauto using quiet_trans.
Qed.

Lemma load_images_missing_archive_witness :
  exists w', load_images env0 "/s/var" "/in/bundle.tgz" world0 = Exit 1 w'
    /\ quiet world0 w'.
Proof.
  apply (load_images_missing_archive env0 "/s/var" "/in/bundle.tgz" world0).
  - reflexivity.
  - vm_compute. set_solver.
  - reflexivity.
Defined.

Lemma returned_bind_false {A B} (m : M A) (k : A -> M B) w :
  returned (m w) = false -> returned (bind m k w) = false.
Proof. unfold bind. by destruct (m w). Qed.

Lemma forM_not_returned {A B} (f : A -> M B) l x :
  x ∈ l -> (forall w, returned (f x w) = false) ->
  forall w, returned (forM f l w) = false.
Proof.
  induction l as [|y l IH]; intros Hin Hx w; [by apply elem_of_nil in Hin|].
  simpl. unfold bind at 1. apply elem_of_cons in Hin as [<-|Hin].
  - specialize (Hx w). by destruct (f x w).
  - destruct (f y w) as [b w1| |]; [|done|done].
    apply returned_bind_false. by apply IH.
Qed.

Lemma load_one_foreign n c w :
  (forall id nm, c <> ImageTar id nm) -> returned (load_one (n, Some c) w) = false.
Proof.
  intros Hc. unfold load_one, bind, print, modify. simpl.
  destruct c as [s|i nm|es]; [done| |done]. by destruct (Hc i nm).
Qed.

(** X24: In an archive whose members all lie at its top under distinct
    file names, one member that is not the export of an image makes
    [load_images] end abnormally: the import cannot return. *)
Theorem load_images_foreign_entry env var_path load_file_path entries n c w :
  files w !! load_file_path = Some (TarGz entries) ->
  NoDup (map fst entries) ->
  Forall plain_name (map fst entries) ->
  (n, c) ∈ entries ->
  (forall id nm, c <> ImageTar id nm) ->
  returned (load_images env var_path load_file_path w) = false.
Proof.
  intros Hf Hnd Hplain Hin Hbad. unfold load_images.
  assert (Hflat : Str.count "/" n = 0%nat).
  { rewrite Forall_forall in Hplain. apply (Hplain n).
    apply list_elem_of_fmap. by exists (n, c). }
  set (d := extract_path_of env var_path).
  unfold bind at 1. rewrite print_printed. unfold bind at 1, get_world.
  change (files (printed _ w)) with (files w). rewrite Hf.
  unfold bind at 1, modify at 1. unfold bind at 1, get_world.
  set (w1 := extractall d entries _).
  assert (Hd : d ∈ dirs w1).
  { unfold w1, extractall. destruct entries; [by apply elem_of_nil in Hin|].
    simpl. set_solver. }
  assert (Hfile : files w1 !! path_join d n = Some c).
  { unfold w1, extractall. destruct entries as [|e es]; [by apply elem_of_nil in Hin|].
    simpl. by apply (extracted_lookup d (e :: es)). }
  unfold scandir. rewrite decide_True by done.
  apply returned_bind_false.
  apply (forM_not_returned _ _ (n, Some c)).
  - apply list_elem_of_omap. exists (path_join d n, c).
    split; [by apply elem_of_map_to_list|].
    cbn [fst snd]. rewrite strip_prefix_path_join, Hflat. reflexivity.
  - intros w2. by apply load_one_foreign.
Qed.

Lemma load_images_foreign_entry_witness :
  returned (load_images env0 "/s/var" "/in/bundle.tgz" world_with_notes) = false.
Proof.
  apply (load_images_foreign_entry env0 "/s/var" "/in/bundle.tgz"
           [("notes.txt", Text "hello")] "notes.txt" (Text "hello") world_with_notes).
  - reflexivity.
  - apply NoDup_singleton.
  - repeat constructor; discriminate.
  - set_solver.
  - discriminate.
Defined.
(** * The backend type *)





